(** * A shallow embedding of the JSON video editor (main.py)

    The script reads a declarative edit plan, resolves trimmed or looped
    segments of decoded media, stacks overlay layers over a main track and
    attaches an audio track.  This development embeds the script's own
    functions and its top-level loops and proves properties of them.

    Conventions of the embedding.
    - Times, ratios and volumes are exact rationals ([Q]); the script computes
      with Python numbers read from JSON.  Equalities between computed times
      are therefore stated with [==] (equality of rationals).
    - A Python exception is an explicit [Raise]; [print] is an explicit log.
    - The media library is represented by the calls the script makes on it:
      a clip is the tree of library calls that built it, together with the
      attributes ([duration], [start], [pos], [txt]) the script reads back
      from clip objects.  The library is the one the script imports
      ([from moviepy import ...], [subclipped], [with_effects]): its text
      clips are built with [text=] and [font_size=], a clip times a number
      is that clip looped, and audio clips have no method [overlay].
    - Rendering and closing are the library's and the encoder's: whether
      they raise is a parameter of the embedding ([render], [close]). *)

From Stdlib Require Import ZArith QArith Qround Qminmax String Ascii List Bool Lia Lra Lqa.
From Stdlib Require Import Reals.
Import ListNotations.

Local Open Scope string_scope.
Local Open Scope list_scope.
Local Open Scope Q_scope.

Set Warnings "-register-all".

Set Implicit Arguments.

(** ** Python numbers *)

Module Py.

(** [a < b] on numbers, as a boolean. *)
Definition ltb (a b : Q) : bool := negb (Qle_bool b a).

(** [a >= b]. *)
Definition geb (a b : Q) : bool := Qle_bool b a.

(** [a > b]. *)
Definition gtb (a b : Q) : bool := ltb b a.

(** The builtin [min(a, b)]: returns [b] only when [b < a]. *)
Definition min (a b : Q) : Q := if ltb b a then b else a.

(** The builtin [int(x)] on a number: truncation toward zero. *)
Definition int (x : Q) : Z := Z.quot (Qnum x) (Zpos (Qden x)).

End Py.

(** ** Exceptions *)

Inductive exn : Type :=
| KeyError (key : string)
| IndexError
| ZeroDivisionError
| ValueError (what : string)
| TypeError (what : string)
| AttributeError (name : string)
| PlanUnreadable.

Inductive result (A : Type) : Type :=
| Ok (a : A)
| Raise (e : exn).

Arguments Ok {A} a.
Arguments Raise {A} e.

(** ** The edit plan (parsed JSON)

    A key that may be absent from a JSON object is an [option]; reading it
    with [d["key"]] raises [KeyError] when it is [None]. *)

Record asset_entry : Type := {
  ae_name : option string;
  ae_path : option string
}.

Record assets_cfg : Type := {
  videos : option (list asset_entry);
  gifs : option (list asset_entry);
  images : option (list asset_entry);
  audios : option (list asset_entry)
}.

Record effect_cfg : Type := {
  fx_type : option string;
  fx_duration : option Q;
  fx_color : option string;
  fx_radius : option Q;
  fx_width : option Q;
  fx_offset : option (list Q);
  fx_opacity : option Q
}.

Record animation_cfg : Type := {
  an_type : option string;
  an_duration : option Q;
  an_height : option Q;
  an_direction : option string
}.

Record background_cfg : Type := {
  bg_color : option string;
  bg_opacity : option Q
}.

(** A JSON value in position [position]: a string, a list of numbers, or
    anything else. *)
Inductive json_position : Type :=
| JStr (s : string)
| JList (l : list Q)
| JOther.

Record edit_entry : Type := {
  ed_asset : option string;
  ed_start_time : option Q;
  ed_end_time : option Q;
  ed_effects : option (list effect_cfg)
}.

Record overlay_entry : Type := {
  ov_type : option string;
  ov_asset : option string;
  ov_text : option string;
  ov_start_time : option Q;
  ov_end_time : option Q;
  ov_position : option json_position;
  ov_size : option (list Q);
  ov_opacity : option Q;
  ov_effects : option (list effect_cfg);
  ov_animation : option animation_cfg;
  ov_font : option string;
  ov_font_size : option Q;
  ov_color : option string;
  ov_background : option background_cfg
}.

Record audio_entry : Type := {
  au_asset : option string;
  au_start_time : option Q;
  au_end_time : option Q;
  au_volume : option Q
}.

Record config : Type := {
  cfg_assets : option assets_cfg;
  cfg_editing : option (list edit_entry);
  cfg_overlays : option (list overlay_entry);
  cfg_audio : option (list audio_entry)
}.

(** ** Clips

    A clip is the tree of library calls that produced it. *)

Definition rgb : Type := (Z * Z * Z)%type.

(** One coordinate of a position tuple: a number or the keyword
    ["center"]. *)
Inductive coord : Type :=
| Num (q : Q)
| Center.

(** A position function attached by an animation: the closure together
    with the values it captured. *)
Inductive posfun : Type :=
| BouncePos (position : coord * coord) (video_h : Q) (animation : animation_cfg)
| ScrollLeftToRight (clip_w : Q) (animation : animation_cfg) (original_y : Q)
| ScrollRightToLeft (video_w : Q) (clip_w : Q) (animation : animation_cfg) (original_y : Q).

(** What [clip.pos] can hold, and what [parse_position] can be given. *)
Inductive posval : Type :=
| PStr (s : string)
| PList (l : list Q)
| PTuple (x y : coord)
| PFun (f : posfun)
| POther.

(** What a text clip is built from: [text=], [font=], [font_size=] and
    [color=]. *)
Record text_attrs : Type := {
  txt : string;
  font : option string;
  fontsize : Q;
  color : rgb
}.

Inductive vfx : Type :=
| FadeIn (d : Q)
| FadeOut (d : Q)
| GaussianBlur (radius : Q).

Inductive Clip : Type :=
| VideoFileClip (path : string) (d : Q)
| AudioFileClip (path : string) (d : Q)
| ImageClip (path : string)
| ColorClip (size : Q * Q) (col : rgb) (d : option Q)
| TextClip (t : text_attrs)
| Subclipped (c : Clip) (start_time end_time : Q)
| Concatenated (clips : list Clip)
| CompositeVideoClip (clips : list Clip)
| WithDuration (c : Clip) (d : option Q)
| WithPosition (c : Clip) (p : posval)
| WithStart (c : Clip) (t : Q)
| WithOpacity (c : Clip) (o : Q)
| Resized (c : Clip) (w h : Q)
| WithEffects (c : Clip) (e : vfx)
| Looped (c : Clip) (n : Q)
| WithAudio (c : Clip) (a : Clip).

(** ** Log *)

Inductive event : Type :=
| FoundAudioFile (path : string)
| WarnNoAudioFile
| WarnFileNotFound (asset_type path : string)
| ErrorLoading (asset_type path : string)
| WarnEndExceeds (end_time d : Q)
| WarnStartExceeds (start_time d : Q)
| WarnStartNotLess (start_time end_time : Q)
| WarnColorNotRecognized (c : string)
| Loaded (asset_type name : string) (d : option Q)
| LoadedSummary (nv ng ni na : nat)
| TypewriterFailed (e : exn)
| CalculatedTotal (total : Q)
| WarnEditMissingAsset
| ProcessingEdit (name : string) (start_time end_time : Q)
| OriginalDuration (d : option Q)
| SkippingEdit (name : string)
| CreatedSubclip (d : option Q)
| WarnVideoAssetNotFound (name : string)
| FinalDuration (d : option Q)
| NoValidClips
| ProcessingOverlay (type : string) (label : string)
| WarnOverlayMissingAsset (type : string)
| SkippingVideoOverlay
| WarnOverlayAssetNotFound (type name : string)
| LoopingGif (d : option Q) (target : Q)
| UsingFont (path : string)
| FontNotFound
| ErrorCreatingText (e : exn)
| WarnCouldNotCreate (type : string)
| AddedOverlay (d : option Q) (start_time : Q)
| FinalWithOverlays (d : option Q)
| WarnAudioMissingAsset
| WarnInvalidAudioRange (name : string)
| AddedAudio (name : string) (start_time end_time volume : Q)
| WarnAudioAssetNotFound (name : string)
| Rendering (path : string)
| WriteVideofile (c : Clip) (path : string) (fps : Z) (codec audio_codec : string)
| CleaningUp
| CloseClip (c : Clip)
| Done.

(** ** The execution monad: a log and a result *)

Definition M (A : Type) : Type := (list event * result A)%type.

Definition ret {A} (a : A) : M A := ([], Ok a).

Definition bind {A B} (m : M A) (f : A -> M B) : M B :=
  match m with
  | (l, Ok a) => let (l', r) := f a in (l ++ l', r)
  | (l, Raise e) => (l, Raise e)
  end.

Definition raise {A} (e : exn) : M A := ([], Raise e).

Definition print (e : event) : M unit := ([e], Ok tt).

(** [try: m except Exception as e: h e]. *)
Definition try_except {A} (m : M A) (h : exn -> M A) : M A :=
  match m with
  | (l, Ok a) => (l, Ok a)
  | (l, Raise e) => let (l', r) := h e in (l ++ l', r)
  end.

(** [d["key"]]. *)
Definition getitem {A} (key : string) (o : option A) : M A :=
  match o with
  | Some a => ret a
  | None => raise (KeyError key)
  end.

(** [d.get("key", default)]. *)
Definition get_default {A} (o : option A) (default : A) : A :=
  match o with
  | Some a => a
  | None => default
  end.

(** [l[i]] on a list. *)
Definition index {A} (l : list A) (i : nat) : M A :=
  match nth_error l i with
  | Some a => ret a
  | None => raise IndexError
  end.

Declare Scope monad_scope.
Delimit Scope monad_scope with monad.
Notation "x <- m ;; k" := (bind m (fun x => k))
  (at level 61, m at next level, right associativity) : monad_scope.
Notation "m ;;; k" := (bind m (fun _ => k))
  (at level 61, right associativity) : monad_scope.
Local Open Scope monad_scope.

(** The value and the log of a run. *)
Definition value {A} (m : M A) : result A := snd m.
Definition log {A} (m : M A) : list event := fst m.

(** ** Attributes read back from clip objects *)

Definition opt_add (a b : option Q) : option Q :=
  match a, b with
  | Some x, Some y => Some (x + y)
  | _, _ => None
  end.

Definition opt_max (a b : option Q) : option Q :=
  match a, b with
  | Some x, Some y => Some (if Py.ltb x y then y else x)
  | _, _ => None
  end.

(** [clip.start]: 0 until [with_start] sets it. *)
Fixpoint start (c : Clip) : Q :=
  match c with
  | WithStart _ t => t
  | Subclipped c _ _ | WithDuration c _ | WithPosition c _ | WithOpacity c _
  | Resized c _ _ | WithEffects c _ | Looped c _ | WithAudio c _ => start c
  | _ => 0
  end.

(** [clip.duration]; [None] is Python's [None]. A concatenation lasts the
    sum of its parts, a composite until its last layer ends, a clip looped
    [n] times lasts [n] times as long (looping first forgets the duration,
    and [n = 0] sets none). *)
Fixpoint duration (c : Clip) : option Q :=
  match c with
  | VideoFileClip _ d | AudioFileClip _ d => Some d
  | ImageClip _ => None
  | ColorClip _ _ d => d
  | TextClip _ => None
  | Subclipped _ s e => Some (e - s)
  | Concatenated l => fold_right opt_add (Some 0) (map duration l)
  | CompositeVideoClip l =>
      match map (fun c => opt_add (Some (start c)) (duration c)) l with
      | [] => None
      | e :: es => fold_right opt_max e es
      end
  | WithDuration _ d => d
  | WithPosition c _ | WithStart c _ | WithOpacity c _ | Resized c _ _
  | WithEffects c _ | WithAudio c _ => duration c
  | Looped c n =>
      match duration c with
      | Some d => if Qeq_bool n 0 then None else Some (n * d)
      | None => None
      end
  end.

(** [clip.pos]: the value last given to [with_position]. *)
Fixpoint pos (c : Clip) : posval :=
  match c with
  | WithPosition _ p => p
  | Subclipped c _ _ | WithDuration c _ | WithStart c _ | WithOpacity c _
  | Resized c _ _ | WithEffects c _ | WithAudio c _ => pos c
  | _ => PTuple (Num 0) (Num 0)
  end.

(** The attribute [txt] of a clip, with the [font], [fontsize] and [color]
    read next to it; [hasattr(clip, 'txt')] is [text_of clip <> None].
    A text clip keeps the text it was built from under the name [text] and
    its size under [font_size]; neither the library nor the script gives
    any clip an attribute [txt], so the lookup finds none on every clip. *)
Definition text_of (c : Clip) : option text_attrs := None.

(** ** What the script asks of its environment *)

Record world : Type := {
  script_dir : string;
  path_exists : string -> bool;
  path_join : string -> string -> string;
  path_splitext : string -> string * string;
  (** the decoder: the duration of the media at a path, [None] when
      opening it raises *)
  decode : string -> string -> option Q;
  (** [clip.size] *)
  size_of : Clip -> Q * Q;
  (** whether [vfx.GaussianBlur] can be applied *)
  blur_available : bool;
  (** [clip.write_videofile(...)]: the exception that ends the rendering
      of a clip, if one does; rendering calls the position function of
      every layer at the time of every frame it is on screen, then the
      encoder *)
  render : Clip -> option exn;
  (** [clip.close()]: the exception it raises, if it does *)
  close : Clip -> option exn
}.

(** ** Library calls that can raise *)

(** [clip.subclipped(start_time, end_time)]: a negative time counts from the
    end of the clip; the start must lie before the end of the clip and the
    end not beyond it. *)
Definition from_end (d t : Q) : Q := if Py.ltb t 0 then d + t else t.

Definition subclipped (c : Clip) (start_time end_time : Q) : M Clip :=
  match duration c with
  | None =>
      if Py.ltb start_time 0 then raise (TypeError "duration")
      else ret (Subclipped c start_time end_time)
  | Some d =>
      let start_time := from_end d start_time in
      if Py.geb start_time d then raise (ValueError "start_time")
      else
        let end_time := from_end d end_time in
        if Py.gtb (end_time - d) (1 # 100000000) then raise (ValueError "end_time")
        else ret (Subclipped c start_time end_time)
  end.

(** [concatenate_videoclips(clips)]. *)
Definition concatenate_videoclips (clips : list Clip) : M Clip :=
  match clips with
  | [] => raise (ValueError "clips")
  | _ => ret (Concatenated clips)
  end.

(** ** find_audio_file, load_asset *)

Definition possible_extensions : list string :=
  [".wav"; ".mp3"; ".ogg"; ".m4a"; ".aac"].

Fixpoint find_audio_loop (W : world) (base : string) (exts : list string)
  : M (option string) :=
  match exts with
  | [] => ret None
  | ext :: rest =>
      let test_path := (base ++ ext)%string in
      if path_exists W test_path
      then print (FoundAudioFile test_path) ;;; ret (Some test_path)
      else find_audio_loop W base rest
  end.

Definition find_audio_file (W : world) (base_path : string) : M (option string) :=
  let '(base, _) := path_splitext W base_path in
  if path_exists W base_path then ret (Some base_path)
  else find_audio_loop W base possible_extensions.

(** The constructor call inside the [try] of [load_asset]. *)
Definition open_clip (W : world) (path asset_type : string) : M (option Clip) :=
  if (asset_type =? "video")%string || (asset_type =? "gif")%string then
    match decode W asset_type path with
    | Some d => ret (Some (VideoFileClip path d))
    | None => print (ErrorLoading asset_type path) ;;; ret None
    end
  else if (asset_type =? "audio")%string then
    match decode W asset_type path with
    | Some d => ret (Some (AudioFileClip path d))
    | None => print (ErrorLoading asset_type path) ;;; ret None
    end
  else if (asset_type =? "image")%string then
    match decode W asset_type path with
    | Some _ => ret (Some (ImageClip path))
    | None => print (ErrorLoading asset_type path) ;;; ret None
    end
  else ret None.

Definition load_asset (W : world) (path asset_type : string) : M (option Clip) :=
  if (asset_type =? "audio")%string then
    found <- find_audio_file W path ;;
    match found with
    | None => print WarnNoAudioFile ;;; ret None
    | Some p =>
        if (p =? EmptyString)%string then print WarnNoAudioFile ;;; ret None
        else open_clip W p asset_type
    end
  else if negb (path_exists W path) then
    print (WarnFileNotFound asset_type path) ;;; ret None
  else open_clip W path asset_type.

(** ** safe_subclip *)

Definition safe_subclip (clip : Clip) (start_time end_time : Q) : M (option Clip) :=
  match duration clip with
  | None => raise (TypeError "duration")
  | Some d =>
      end_time <-
        (if Py.gtb end_time d
         then print (WarnEndExceeds end_time d) ;;; ret d
         else ret end_time) ;;
      if Py.geb start_time d then
        print (WarnStartExceeds start_time d) ;;; ret None
      else if Py.geb start_time end_time then
        print (WarnStartNotLess start_time end_time) ;;; ret None
      else
        c <- subclipped clip start_time end_time ;;
        ret (Some c)
  end.

(** ** loop_clip *)

Definition loop_clip (clip : Clip) (target : Q) : M Clip :=
  match duration clip with
  | None => raise (TypeError "duration")
  | Some d =>
      if Py.geb d target then subclipped clip 0 target
      else if Qeq_bool d 0 then raise ZeroDivisionError
      else
        let loops := (Py.int (target / d) + 1)%Z in
        let looped_clips := repeat clip (Z.to_nat loops) in
        concatenated <- concatenate_videoclips looped_clips ;;
        subclipped concatenated 0 target
  end.

(** ** find_font_file *)

Fixpoint first_existing (W : world) (paths : list string) : option string :=
  match paths with
  | [] => None
  | p :: rest => if path_exists W p then Some p else first_existing W rest
  end.

Definition find_font_file (W : world) (font_name : string) : option string :=
  let possible_paths :=
    [ font_name;
      ("C:/Windows/Fonts/" ++ font_name)%string;
      ("C:/Windows/Fonts/" ++ font_name ++ ".ttf")%string;
      ("C:/Windows/Fonts/" ++ font_name ++ ".ttc")%string;
      path_join W (script_dir W) font_name;
      path_join W (script_dir W) (font_name ++ ".ttf")%string ] in
  match first_existing W possible_paths with
  | Some p => Some p
  | None =>
      let default_fonts := ["arial.ttf"; "times.ttf"; "cour.ttf"; "verdana.ttf"] in
      first_existing W (map (fun f => ("C:/Windows/Fonts/" ++ f)%string) default_fonts)
  end.

(** ** color_string_to_rgb *)

Definition color_map : list (string * rgb) :=
  [ ("white", (255, 255, 255)%Z);
    ("black", (0, 0, 0)%Z);
    ("red", (255, 0, 0)%Z);
    ("green", (0, 255, 0)%Z);
    ("blue", (0, 0, 255)%Z);
    ("yellow", (255, 255, 0)%Z);
    ("cyan", (0, 255, 255)%Z);
    ("magenta", (255, 0, 255)%Z);
    ("orange", (255, 165, 0)%Z);
    ("purple", (128, 0, 128)%Z);
    ("pink", (255, 192, 203)%Z);
    ("brown", (165, 42, 42)%Z);
    ("gray", (128, 128, 128)%Z);
    ("grey", (128, 128, 128)%Z);
    ("gold", (255, 215, 0)%Z);
    ("silver", (192, 192, 192)%Z) ].

Fixpoint assoc {A} (key : string) (l : list (string * A)) : option A :=
  match l with
  | [] => None
  | (k, v) :: rest => if (k =? key)%string then Some v else assoc key rest
  end.

Definition lower_ascii (c : ascii) : ascii :=
  let n := nat_of_ascii c in
  if (65 <=? n)%nat && (n <=? 90)%nat then ascii_of_nat (n + 32) else c.

(** [s.lower()] (on ASCII letters). *)
Fixpoint lower (s : string) : string :=
  match s with
  | EmptyString => EmptyString
  | String c rest => String (lower_ascii c) (lower rest)
  end.

Definition hex_digit (c : ascii) : option Z :=
  let n := nat_of_ascii c in
  if (48 <=? n)%nat && (n <=? 57)%nat then Some (Z.of_nat (n - 48))
  else if (97 <=? n)%nat && (n <=? 102)%nat then Some (Z.of_nat (n - 87))
  else if (65 <=? n)%nat && (n <=? 70)%nat then Some (Z.of_nat (n - 55))
  else None.

Definition is_space (c : ascii) : bool :=
  let n := nat_of_ascii c in
  ((9 <=? n)%nat && (n <=? 13)%nat) || ((28 <=? n)%nat && (n <=? 32)%nat).

(** [int(s, 16)] on a slice of at most two characters: two hexadecimal
    digits, or one digit with a sign before it or white space around it. *)
Definition int16 (s : string) : M Z :=
  match s with
  | String a (String b EmptyString) =>
      match hex_digit a, hex_digit b with
      | Some x, Some y => ret (16 * x + y)%Z
      | Some x, None => if is_space b then ret x else raise (ValueError "int")
      | None, Some y =>
          if is_space a then ret y
          else if (nat_of_ascii a =? 43)%nat then ret y
          else if (nat_of_ascii a =? 45)%nat then ret (- y)%Z
          else raise (ValueError "int")
      | None, None => raise (ValueError "int")
      end
  | _ => raise (ValueError "int")
  end.

Definition color_string_to_rgb (color_string : string) : M rgb :=
  let color_lower := lower color_string in
  match assoc color_lower color_map with
  | Some c => ret c
  | None =>
      let unrecognized :=
        print (WarnColorNotRecognized color_string) ;;; ret (255, 255, 255)%Z in
      match color_string with
      | String c hex_color =>
          if (nat_of_ascii c =? 35)%nat then
            if (String.length hex_color =? 6)%nat then
              r <- int16 (substring 0 2 hex_color) ;;
              g <- int16 (substring 2 2 hex_color) ;;
              b <- int16 (substring 4 2 hex_color) ;;
              ret (r, g, b)
            else unrecognized
          else unrecognized
      | EmptyString => unrecognized
      end
  end.

(** ** parse_position *)

Definition parse_position (position : posval) (video_size : Q * Q) : coord * coord :=
  match position with
  | PStr s =>
      if (s =? "center")%string then (Center, Center)
      else if (s =? "top-center")%string then (Center, Num (1 # 10))
      else if (s =? "bottom-center")%string then (Center, Num (9 # 10))
      else if (s =? "top-left")%string then (Num (1 # 10), Num (1 # 10))
      else if (s =? "top-right")%string then (Num (9 # 10), Num (1 # 10))
      else if (s =? "bottom-left")%string then (Num (1 # 10), Num (9 # 10))
      else if (s =? "bottom-right")%string then (Num (9 # 10), Num (9 # 10))
      else (Center, Center)
  | PList [x; y] => (Num (x * fst video_size), Num (y * snd video_size))
  | _ => (Center, Center)
  end.

Definition position_of_json (j : json_position) : posval :=
  match j with
  | JStr s => PStr s
  | JList l => PList l
  | JOther => POther
  end.

(** ** apply_effects *)

(** [clip.pos[i]] for a position tuple. *)
Definition pos_item (p : posval) (i : nat) : M coord :=
  match p with
  | PTuple x y =>
      match i with
      | O => ret x
      | S O => ret y
      | _ => raise IndexError
      end
  | _ => raise (TypeError "pos")
  end.

(** [c + offset[i] if isinstance(c, (int, float)) else c]. *)
Definition shift_coord (c : coord) (offset : list Q) (i : nat) : M coord :=
  match c with
  | Num q => o <- index offset i ;; ret (Num (q + o))
  | Center => ret Center
  end.

Definition apply_effect (W : world) (clip : Clip) (effect : effect_cfg) : M Clip :=
  type <- getitem "type" (fx_type effect) ;;
  if (type =? "fadein")%string then
    d <- getitem "duration" (fx_duration effect) ;;
    ret (WithEffects clip (FadeIn d))
  else if (type =? "fadeout")%string then
    d <- getitem "duration" (fx_duration effect) ;;
    ret (WithEffects clip (FadeOut d))
  else if (type =? "glow")%string then
    c <- getitem "color" (fx_color effect) ;;
    glow_color <- color_string_to_rgb c ;;
    let radius := get_default (fx_radius effect) 5 in
    let blurred_clip :=
      if blur_available W then WithEffects clip (GaussianBlur radius) else clip in
    let color_layer := ColorClip (size_of W clip) glow_color (duration clip) in
    let color_layer := WithOpacity color_layer (3 # 10) in
    ret (CompositeVideoClip [blurred_clip; color_layer; clip])
  else if (type =? "outline")%string then
    match text_of clip with
    | Some t =>
        c <- getitem "color" (fx_color effect) ;;
        outline_color <- color_string_to_rgb c ;;
        let outline_width := get_default (fx_width effect) 2 in
        let outlines :=
          map (fun d : Q * Q =>
                 WithPosition
                   (WithDuration
                      (TextClip {| txt := txt t; font := font t;
                                   fontsize := fontsize t; color := outline_color |})
                      (duration clip))
                   (PTuple (Num (fst d)) (Num (snd d))))
              [(- outline_width, 0); (outline_width, 0);
               (0, - outline_width); (0, outline_width)] in
        ret (CompositeVideoClip (outlines ++ [clip]))
    | None => ret clip
    end
  else if (type =? "shadow")%string then
    match text_of clip with
    | Some t =>
        shadow_color <- color_string_to_rgb (get_default (fx_color effect) "black") ;;
        let shadow_offset := get_default (fx_offset effect) [5; 5] in
        let shadow_opacity := get_default (fx_opacity effect) (1 # 2) in
        let shadow :=
          WithDuration
            (TextClip {| txt := txt t; font := font t;
                         fontsize := fontsize t; color := shadow_color |})
            (duration clip) in
        x0 <- pos_item (pos clip) 0 ;;
        x <- shift_coord x0 shadow_offset 0 ;;
        y0 <- pos_item (pos clip) 1 ;;
        y <- shift_coord y0 shadow_offset 1 ;;
        let shadow := WithPosition shadow (PTuple x y) in
        let shadow := WithOpacity shadow shadow_opacity in
        ret (CompositeVideoClip [shadow; clip])
    | None => ret clip
    end
  else ret clip.

Fixpoint apply_effects (W : world) (clip : Clip) (effects : list effect_cfg) : M Clip :=
  match effects with
  | [] => ret clip
  | effect :: rest =>
      clip <- apply_effect W clip effect ;;
      apply_effects W clip rest
  end.

(** ** create_typewriter_effect *)

(** [list(text)]: the characters of a string, each a string of length one. *)
Fixpoint characters_of (text : string) : list string :=
  match text with
  | EmptyString => []
  | String c rest => String c EmptyString :: characters_of rest
  end.

(** The body of [for i, char in enumerate(characters)], from index [i]. *)
Fixpoint char_clips_from (t : text_attrs) (p : posval) (char_duration : Q)
    (i : nat) (characters : list string) : list Clip :=
  match characters with
  | [] => []
  | char :: rest =>
      let char_clip :=
        WithDuration
          (TextClip {| txt := char; font := font t;
                       fontsize := fontsize t; color := color t |})
          (Some char_duration) in
      let char_clip := WithPosition char_clip p in
      let char_clip := WithStart char_clip (inject_Z (Z.of_nat i) * char_duration) in
      char_clip :: char_clips_from t p char_duration (S i) rest
  end.

Definition create_typewriter_effect (clip : Clip) (d : Q) : M Clip :=
  match text_of clip with
  | None => ret (WithEffects clip (FadeIn d))
  | Some t =>
      let text := txt t in
      if (text =? EmptyString)%string then ret clip
      else
        let characters := characters_of text in
        let char_duration := d / inject_Z (Z.of_nat (List.length characters)) in
        let char_clips := char_clips_from t (pos clip) char_duration 0 characters in
        match char_clips with
        | [] => ret clip
        | _ => ret (CompositeVideoClip char_clips)
        end
  end.

(** ** apply_animation *)

Definition apply_animation (W : world) (clip : Clip) (animation : animation_cfg)
    (video_size : Q * Q) : M Clip :=
  type <- getitem "type" (an_type animation) ;;
  if (type =? "bounce")%string then
    let position := parse_position (pos clip) video_size in
    ret (WithPosition clip (PFun (BouncePos position (snd video_size) animation)))
  else if (type =? "scroll")%string then
    let position := parse_position (pos clip) video_size in
    let original_y :=
      match snd position with
      | Num y => y
      | Center => snd video_size * (1 # 2)
      end in
    direction <- getitem "direction" (an_direction animation) ;;
    if (direction =? "left_to_right")%string then
      ret (WithPosition clip
             (PFun (ScrollLeftToRight (fst (size_of W clip)) animation original_y)))
    else if (direction =? "right_to_left")%string then
      ret (WithPosition clip
             (PFun (ScrollRightToLeft (fst video_size) (fst (size_of W clip))
                      animation original_y)))
    else ret clip
  else if (type =? "typewriter")%string then
    try_except
      (d <- getitem "duration" (an_duration animation) ;;
       create_typewriter_effect clip d)
      (fun e =>
         print (TypewriterFailed e) ;;;
         d <- getitem "duration" (an_duration animation) ;;
         ret (WithEffects clip (FadeIn d)))
  else ret clip.

(** ** Asset catalogs: dictionaries from names to clips *)

Definition catalog : Type := list (string * Clip).

(** [d[key] = v]. *)
Fixpoint dict_set (d : catalog) (key : string) (v : Clip) : catalog :=
  match d with
  | [] => [(key, v)]
  | (k, v') :: rest =>
      if (k =? key)%string then (key, v) :: rest else (k, v') :: dict_set rest key v
  end.

(** A number formatted with [:.2f]; formatting [None] raises. *)
Definition print_duration (mk : option Q -> event) (d : option Q) : M unit :=
  match d with
  | Some _ => print (mk d)
  | None => raise (TypeError "format")
  end.

(** [clip.duration] used as a number. *)
Definition duration_num (c : Clip) : M Q :=
  match duration c with
  | Some d => ret d
  | None => raise (TypeError "duration")
  end.

(** The four loading loops; only the image loop prints nothing. *)
Fixpoint load_assets (W : world) (asset_type : string) (entries : list asset_entry)
    (acc : catalog) : M catalog :=
  match entries with
  | [] => ret acc
  | v :: rest =>
      p <- getitem "path" (ae_path v) ;;
      let path := path_join W (script_dir W) p in
      clip <- load_asset W path asset_type ;;
      match clip with
      | Some c =>
          name <- getitem "name" (ae_name v) ;;
          (if (asset_type =? "image")%string then ret tt
           else print_duration (Loaded asset_type name) (duration c)) ;;;
          load_assets W asset_type rest (dict_set acc name c)
      | None => load_assets W asset_type rest acc
      end
  end.

Record catalogs : Type := {
  video_assets : catalog;
  gif_assets : catalog;
  image_assets : catalog;
  audio_assets : catalog
}.

Definition load_all (W : world) (cfg : config) : M catalogs :=
  a <- getitem "assets" (cfg_assets cfg) ;;
  vs <- getitem "videos" (videos a) ;;
  video_assets <- load_assets W "video" vs [] ;;
  a <- getitem "assets" (cfg_assets cfg) ;;
  gs <- getitem "gifs" (gifs a) ;;
  gif_assets <- load_assets W "gif" gs [] ;;
  a <- getitem "assets" (cfg_assets cfg) ;;
  im <- getitem "images" (images a) ;;
  image_assets <- load_assets W "image" im [] ;;
  a <- getitem "assets" (cfg_assets cfg) ;;
  au <- getitem "audios" (audios a) ;;
  audio_assets <- load_assets W "audio" au [] ;;
  print (LoadedSummary (List.length video_assets) (List.length gif_assets)
           (List.length image_assets) (List.length audio_assets)) ;;;
  ret {| video_assets := video_assets; gif_assets := gif_assets;
         image_assets := image_assets; audio_assets := audio_assets |}.

(** ** The advisory total duration *)

Fixpoint total_duration_loop (video_assets : catalog) (editing : list edit_entry)
    (total_duration : Q) : M Q :=
  match editing with
  | [] => ret total_duration
  | edit :: rest =>
      asset_name <- getitem "asset" (ed_asset edit) ;;
      match assoc asset_name video_assets with
      | Some original =>
          let original_duration := duration original in
          e <- getitem "end_time" (ed_end_time edit) ;;
          s <- getitem "start_time" (ed_start_time edit) ;;
          let requested_duration := e - s in
          s' <- getitem "start_time" (ed_start_time edit) ;;
          match original_duration with
          | None => raise (TypeError "duration")
          | Some d =>
              let actual_duration := Py.min requested_duration (d - s') in
              if Py.gtb actual_duration 0
              then total_duration_loop video_assets rest (total_duration + actual_duration)
              else total_duration_loop video_assets rest total_duration
          end
      | None => total_duration_loop video_assets rest total_duration
      end
  end.

(** ** The main editing loop *)

(** One iteration; [None] when the entry is skipped. *)
Definition edit_step (W : world) (video_assets : catalog) (edit : edit_entry)
  : M (option Clip) :=
  match ed_asset edit with
  | None => print WarnEditMissingAsset ;;; ret None
  | Some asset_name =>
      match assoc asset_name video_assets with
      | Some original_clip =>
          s <- getitem "start_time" (ed_start_time edit) ;;
          d <- duration_num original_clip ;;
          let start_time := Py.min s (d - (1 # 10)) in
          e <- getitem "end_time" (ed_end_time edit) ;;
          let end_time := Py.min e d in
          print (ProcessingEdit asset_name start_time end_time) ;;;
          print_duration OriginalDuration (duration original_clip) ;;;
          clip <- safe_subclip original_clip start_time end_time ;;
          match clip with
          | None => print (SkippingEdit asset_name) ;;; ret None
          | Some clip =>
              print_duration CreatedSubclip (duration clip) ;;;
              clip <- apply_effects W clip (get_default (ed_effects edit) []) ;;
              ret (Some clip)
          end
      | None => print (WarnVideoAssetNotFound asset_name) ;;; ret None
      end
  end.

Fixpoint main_loop (W : world) (video_assets : catalog) (editing : list edit_entry)
    (main_clips : list Clip) (current_time : Q) : M (list Clip * Q) :=
  match editing with
  | [] => ret (main_clips, current_time)
  | edit :: rest =>
      r <- edit_step W video_assets edit ;;
      match r with
      | None => main_loop W video_assets rest main_clips current_time
      | Some clip =>
          d <- duration_num clip ;;
          main_loop W video_assets rest (main_clips ++ [clip]) (current_time + d)
      end
  end.

(** The placeholder used when no segment survives. *)
Definition black_background : Clip :=
  ColorClip (1920, 1080) (0, 0, 0)%Z (Some 30).

Definition make_final_video (main_clips : list Clip) : M Clip :=
  match main_clips with
  | [] => print NoValidClips ;;; ret black_background
  | _ =>
      final_video <- concatenate_videoclips main_clips ;;
      print_duration FinalDuration (duration final_video) ;;;
      ret final_video
  end.

(** ** The overlay loop *)

(** The text branch inside its [try]. *)
Definition text_clip (W : world) (overlay : overlay_entry) (d : Q) : M Clip :=
  let font_path := find_font_file W (get_default (ov_font overlay) "Arial.ttf") in
  (match font_path with
   | Some p => print (UsingFont p)
   | None => print FontNotFound
   end) ;;;
  c <- getitem "color" (ov_color overlay) ;;
  color_rgb <- color_string_to_rgb c ;;
  text <- getitem "text" (ov_text overlay) ;;
  font_size <- getitem "font_size" (ov_font_size overlay) ;;
  let clip :=
    WithDuration
      (TextClip {| txt := text; font := font_path;
                   fontsize := font_size; color := color_rgb |})
      (Some d) in
  match ov_background overlay with
  | Some background =>
      bc <- getitem "color" (bg_color background) ;;
      bg_rgb <- color_string_to_rgb bc ;;
      o <- getitem "opacity" (bg_opacity background) ;;
      let bg := WithOpacity (ColorClip (size_of W clip) bg_rgb (duration clip)) o in
      ret (CompositeVideoClip [bg; clip])
  | None => ret clip
  end.

(** The base clip of an overlay by type; [None] when the iteration ends
    with [continue]. *)
Definition overlay_base (W : world) (C : catalogs) (overlay : overlay_entry)
    (type : string) : M (option Clip) :=
  if (type =? "video")%string then
    match ov_asset overlay with
    | None => print (WarnOverlayMissingAsset "video") ;;; ret None
    | Some asset_name =>
        match assoc asset_name (video_assets C) with
        | Some original_clip =>
            s <- getitem "start_time" (ov_start_time overlay) ;;
            e <- getitem "end_time" (ov_end_time overlay) ;;
            clip <- safe_subclip original_clip s e ;;
            match clip with
            | None => print SkippingVideoOverlay ;;; ret None
            | Some clip => ret (Some clip)
            end
        | None => print (WarnOverlayAssetNotFound "video" asset_name) ;;; ret None
        end
    end
  else if (type =? "gif")%string then
    match ov_asset overlay with
    | None => print (WarnOverlayMissingAsset "gif") ;;; ret None
    | Some asset_name =>
        match assoc asset_name (gif_assets C) with
        | Some original_clip =>
            e <- getitem "end_time" (ov_end_time overlay) ;;
            s <- getitem "start_time" (ov_start_time overlay) ;;
            let d := e - s in
            od <- duration_num original_clip ;;
            clip <-
              (if Py.gtb d od then
                 print (LoopingGif (Some od) d) ;;;
                 c <- loop_clip original_clip d ;;
                 ret (Some c)
               else safe_subclip original_clip 0 d) ;;
            match clip with
            | None => print (WarnCouldNotCreate type) ;;; ret None
            | Some clip => ret (Some clip)
            end
        | None => print (WarnOverlayAssetNotFound "gif" asset_name) ;;; ret None
        end
    end
  else if (type =? "image")%string then
    match ov_asset overlay with
    | None => print (WarnOverlayMissingAsset "image") ;;; ret None
    | Some asset_name =>
        match assoc asset_name (image_assets C) with
        | Some image =>
            e <- getitem "end_time" (ov_end_time overlay) ;;
            s <- getitem "start_time" (ov_start_time overlay) ;;
            ret (Some (WithDuration image (Some (e - s))))
        | None => print (WarnOverlayAssetNotFound "image" asset_name) ;;; ret None
        end
    end
  else if (type =? "text")%string then
    e <- getitem "end_time" (ov_end_time overlay) ;;
    s <- getitem "start_time" (ov_start_time overlay) ;;
    try_except
      (clip <- text_clip W overlay (e - s) ;; ret (Some clip))
      (fun ex => print (ErrorCreatingText ex) ;;; ret None)
  else print (WarnCouldNotCreate type) ;;; ret None.

(** Size, position, opacity, effects, animation and start time, applied to
    the base clip of every type. *)
Definition overlay_finish (W : world) (final_video : Clip) (overlay : overlay_entry)
    (clip : Clip) : M Clip :=
  clip <-
    (match ov_size overlay with
     | Some size =>
         sw <- index size 0 ;;
         sh <- index size 1 ;;
         ret (Resized clip (sw * fst (size_of W final_video))
                (sh * snd (size_of W final_video)))
     | None => ret clip
     end) ;;
  p <- getitem "position" (ov_position overlay) ;;
  let position := parse_position (position_of_json p) (size_of W final_video) in
  let clip := WithPosition clip (PTuple (fst position) (snd position)) in
  let clip :=
    match ov_opacity overlay with
    | Some o => WithOpacity clip o
    | None => clip
    end in
  clip <-
    (match ov_effects overlay with
     | Some effects => apply_effects W clip effects
     | None => ret clip
     end) ;;
  clip <-
    (match ov_animation overlay with
     | Some animation => apply_animation W clip animation (size_of W final_video)
     | None => ret clip
     end) ;;
  s <- getitem "start_time" (ov_start_time overlay) ;;
  let clip := WithStart clip s in
  print_duration (fun d => AddedOverlay d s) (duration clip) ;;;
  ret clip.

Definition overlay_label (overlay : overlay_entry) : string :=
  get_default (ov_asset overlay) (get_default (ov_text overlay) "N/A").

(** One iteration; [None] when the overlay is skipped. *)
Definition overlay_step (W : world) (C : catalogs) (final_video : Clip)
    (overlay : overlay_entry) : M (option Clip) :=
  type <- getitem "type" (ov_type overlay) ;;
  print (ProcessingOverlay type (overlay_label overlay)) ;;;
  base <- overlay_base W C overlay type ;;
  match base with
  | None => ret None
  | Some clip =>
      clip <- overlay_finish W final_video overlay clip ;;
      ret (Some clip)
  end.

Fixpoint overlay_loop (W : world) (C : catalogs) (final_video : Clip)
    (overlays : list overlay_entry) (overlay_clips : list Clip) : M (list Clip) :=
  match overlays with
  | [] => ret overlay_clips
  | overlay :: rest =>
      r <- overlay_step W C final_video overlay ;;
      match r with
      | None => overlay_loop W C final_video rest overlay_clips
      | Some clip => overlay_loop W C final_video rest (overlay_clips ++ [clip])
      end
  end.

Definition composite_overlays (final_video : Clip) (overlay_clips : list Clip)
  : M Clip :=
  match overlay_clips with
  | [] => ret final_video
  | _ =>
      let final_video := CompositeVideoClip (final_video :: overlay_clips) in
      print_duration FinalWithOverlays (duration final_video) ;;;
      ret final_video
  end.

(** ** The audio loop *)

(** One iteration up to the track it resolves, together with the message
    printed once the track is in the mix; [None] when the entry is
    skipped.  [audio_clip * volume] is the library's [*] on clips, which
    loops the clip. *)
Definition audio_step (audio_assets : catalog) (audio : audio_entry)
  : M (option (Clip * event)) :=
  match au_asset audio with
  | None => print WarnAudioMissingAsset ;;; ret None
  | Some asset_name =>
      match assoc asset_name audio_assets with
      | Some original_clip =>
          s <- getitem "start_time" (au_start_time audio) ;;
          end_time <-
            (match au_end_time audio with
             | Some e => ret e
             | None => duration_num original_clip
             end) ;;
          audio_clip <- safe_subclip original_clip s end_time ;;
          match audio_clip with
          | None => print (WarnInvalidAudioRange asset_name) ;;; ret None
          | Some audio_clip =>
              let volume := get_default (au_volume audio) 1 in
              let audio_clip := Looped audio_clip volume in
              ret (Some (audio_clip, AddedAudio asset_name s end_time volume))
          end
      | None => print (WarnAudioAssetNotFound asset_name) ;;; ret None
      end
  end.

(** The first track that resolves becomes [final_audio]; for every later
    one the script calls [final_audio.overlay(audio_clip)], and the lookup
    of [overlay] on an audio clip raises. *)
Fixpoint audio_loop (audio_assets : catalog) (entries : list audio_entry)
    (final_audio : option Clip) : M (option Clip) :=
  match entries with
  | [] => ret final_audio
  | audio :: rest =>
      r <- audio_step audio_assets audio ;;
      match r with
      | None => audio_loop audio_assets rest final_audio
      | Some (audio_clip, added) =>
          match final_audio with
          | None => print added ;;; audio_loop audio_assets rest (Some audio_clip)
          | Some _ => raise (AttributeError "overlay")
          end
      end
  end.

(** ** The whole script *)

(** The main track and the overlays composed, as the script does between
    the two loops. *)
Definition compose (W : world) (C : catalogs) (final_video : Clip)
    (overlays : list overlay_entry) : M Clip :=
  overlay_clips <- overlay_loop W C final_video overlays [] ;;
  composite_overlays final_video overlay_clips.

(** [final_video.write_videofile(output_path, fps=24, codec="libx264",
    audio_codec="aac")]: the write begins, and raises when rendering
    does. *)
Definition write_videofile (W : world) (clip : Clip) (path : string) (fps : Z)
    (codec audio_codec : string) : M unit :=
  print (WriteVideofile clip path fps codec audio_codec) ;;;
  match render W clip with
  | Some e => raise e
  | None => ret tt
  end.

(** [clip.close()]. *)
Definition close_clip (W : world) (clip : Clip) : M unit :=
  print (CloseClip clip) ;;;
  match close W clip with
  | Some e => raise e
  | None => ret tt
  end.

(** The clean-up loop over the four catalogs. *)
Fixpoint close_each (W : world) (clips : list Clip) : M unit :=
  match clips with
  | [] => ret tt
  | clip :: rest => close_clip W clip ;;; close_each W rest
  end.

Definition close_all (W : world) (C : catalogs) : M unit :=
  close_each W
    (map snd (video_assets C ++ gif_assets C ++ image_assets C ++ audio_assets C)).

(** [plan] is [None] when the plan file cannot be opened or parsed. *)
Definition main (W : world) (plan : option config) : M Clip :=
  match plan with
  | None => raise PlanUnreadable
  | Some cfg =>
      C <- load_all W cfg ;;
      editing <- getitem "editing" (cfg_editing cfg) ;;
      total <- total_duration_loop (video_assets C) editing 0 ;;
      print (CalculatedTotal total) ;;;
      editing <- getitem "editing" (cfg_editing cfg) ;;
      mc <- main_loop W (video_assets C) editing [] 0 ;;
      final_video <- make_final_video (fst mc) ;;
      overlays <- getitem "overlays" (cfg_overlays cfg) ;;
      final_video <- compose W C final_video overlays ;;
      audio <- getitem "audio" (cfg_audio cfg) ;;
      final_audio <- audio_loop (audio_assets C) audio None ;;
      let final_video :=
        match final_audio with
        | Some a => WithAudio final_video a
        | None => final_video
        end in
      let output_path := path_join W (script_dir W) "output_overlays.mp4" in
      print (Rendering output_path) ;;;
      print_duration FinalDuration (duration final_video) ;;;
      write_videofile W final_video output_path 24 "libx264" "aac" ;;;
      print CleaningUp ;;;
      close_all W C ;;;
      print Done ;;;
      ret final_video
  end.

(** ** Position functions at render time

    A position function is called by the compositor with the local time
    [t] of the layer, a real number. *)

Inductive rcoord : Type :=
| RNum (r : R)
| RCenter.

Definition rcoord_of (c : coord) : rcoord :=
  match c with
  | Num q => RNum (Q2R q)
  | Center => RCenter
  end.

(** [int(x)] on a real number: truncation toward zero. *)
Definition int_R (x : R) : Z :=
  if Rle_dec 0 x then Int_part x else (- Int_part (- x))%Z.

(** [int(bounce_height * np.abs(np.sin(t * np.pi / duration)))]. *)
Definition bounce_offset (bounce_height d : Q) (t : R) : Z :=
  int_R (Q2R bounce_height * Rabs (sin (t * PI / Q2R d)))%R.

(** The closure [bounce_pos] of [apply_animation]. *)
Definition bounce_pos (position : coord * coord) (video_h : Q)
    (animation : animation_cfg) (t : R) : result (rcoord * rcoord) :=
  let y_pos :=
    match snd position with
    | Num y => Q2R y
    | Center => (Q2R video_h * (1 / 2))%R
    end in
  let bounce_height := get_default (an_height animation) 20 in
  match an_duration animation with
  | None => Raise (KeyError "duration")
  | Some d =>
      if Qeq_bool d 0 then Raise ZeroDivisionError
      else
        let offset := bounce_offset bounce_height d t in
        Ok (rcoord_of (fst position), RNum (y_pos - IZR offset)%R)
  end.

(** The two [lambda t: ...] of the scroll branch. *)
Definition scroll_pos (left_to_right : bool) (video_w clip_w : Q)
    (animation : animation_cfg) (original_y : Q) (t : R) : result (rcoord * rcoord) :=
  match an_duration animation with
  | None => Raise (KeyError "duration")
  | Some d =>
      if Qeq_bool d 0 then Raise ZeroDivisionError
      else if left_to_right then
        Ok (RNum (- Q2R clip_w + t * Q2R clip_w / Q2R d)%R, RNum (Q2R original_y))
      else
        Ok (RNum (Q2R video_w + Q2R clip_w - t * Q2R clip_w / Q2R d)%R,
            RNum (Q2R original_y))
  end.

Definition call_posfun (f : posfun) (t : R) : result (rcoord * rcoord) :=
  match f with
  | BouncePos position video_h animation => bounce_pos position video_h animation t
  | ScrollLeftToRight clip_w animation original_y =>
      scroll_pos true 0 clip_w animation original_y t
  | ScrollRightToLeft video_w clip_w animation original_y =>
      scroll_pos false video_w clip_w animation original_y t
  end.

(** ** Audio tracks *)

(** The tracks of an audio plan that resolve, in declaration order. *)
Definition resolved_tracks (audio_assets : catalog) (entries : list audio_entry)
  : list Clip :=
  flat_map (fun a => match value (audio_step audio_assets a) with
                     | Ok (Some (c, _)) => [c]
                     | _ => []
                     end) entries.

(** What the audio loop comes to, from the accumulated track and the
    tracks that resolve after it. *)
Definition mixed (final_audio : option Clip) (tracks : list Clip)
  : result (option Clip) :=
  match tracks, final_audio with
  | [], _ => Ok final_audio
  | [c], None => Ok (Some c)
  | _, _ => Raise (AttributeError "overlay")
  end.

(** ** Draw order

    A composite paints its layers in list order, each over what is already
    painted. [covers c] tells whether layer [c] has a pixel at the instant
    and point under consideration; [top_layer] is the index of the layer
    seen there. *)

Fixpoint top_layer_from (covers : Clip -> bool) (layers : list Clip) (i : nat)
    (seen : option nat) : option nat :=
  match layers with
  | [] => seen
  | c :: rest =>
      top_layer_from covers rest (S i) (if covers c then Some i else seen)
  end.

Definition top_layer (covers : Clip -> bool) (layers : list Clip) : option nat :=
  top_layer_from covers layers 0 None.

(** The overlays that survive, in declaration order. *)
Definition surviving (W : world) (C : catalogs) (final_video : Clip)
    (overlays : list overlay_entry) : list Clip :=
  flat_map (fun o => match value (overlay_step W C final_video o) with
                     | Ok (Some c) => [c]
                     | _ => []
                     end) overlays.

(** ** Entries that yield no segment *)

(** An editing entry names an asset that is absent from the catalog, or
    names one whose clamped time range is empty. *)
Definition no_segment (video_assets : catalog) (edit : edit_entry) : Prop :=
  exists name, ed_asset edit = Some name /\
    (assoc name video_assets = None \/
     exists orig d s e,
       assoc name video_assets = Some orig /\ duration orig = Some d /\
       ed_start_time edit = Some s /\ ed_end_time edit = Some e /\
       Py.min e d <= Py.min s (d - (1 # 10))).

(** The main track of a plan: the editing loop, then the final video. *)
Definition main_track (W : world) (video_assets : catalog)
    (editing : list edit_entry) : M Clip :=
  mc <- main_loop W video_assets editing [] 0 ;;
  make_final_video (fst mc).

(** ** Overlays that cannot be built *)

(** The catalog an overlay type draws its asset from. *)
Definition asset_catalog (C : catalogs) (type : string) : option catalog :=
  if (type =? "video")%string then Some (video_assets C)
  else if (type =? "gif")%string then Some (gif_assets C)
  else if (type =? "image")%string then Some (image_assets C)
  else None.

(** A video, gif or image overlay without the [asset] field, or naming an
    asset that is absent from its catalog. *)
Definition unresolvable (C : catalogs) (o : overlay_entry) : Prop :=
  exists type cat,
    ov_type o = Some type /\ asset_catalog C type = Some cat /\
    (ov_asset o = None \/
     exists name, ov_asset o = Some name /\ assoc name cat = None).

(** A text overlay with both times that lacks [color], [text] or
    [font_size]. *)
Definition text_incomplete (o : overlay_entry) : Prop :=
  ov_type o = Some "text" /\
  (exists s, ov_start_time o = Some s) /\ (exists e, ov_end_time o = Some e) /\
  (ov_color o = None \/ ov_text o = None \/ ov_font_size o = None).

(** The events that tell of a skipped overlay. *)
Definition skip_warning (e : event) : Prop :=
  match e with
  | WarnOverlayMissingAsset _ | WarnOverlayAssetNotFound _ _
  | ErrorCreatingText _ => True
  | _ => False
  end.

(** ** Effects that need a text clip *)



(** [clip.pos] holds a tuple. *)
Definition tuple_pos (c : Clip) : Prop := exists x y, pos c = PTuple x y.

(** The clip of an overlay once sized, positioned and made translucent,
    before its effects. *)
Definition placed (W : world) (final_video : Clip) (overlay : overlay_entry)
    (sized : Clip) (p : json_position) : Clip :=
  let position := parse_position (position_of_json p) (size_of W final_video) in
  let clip := WithPosition sized (PTuple (fst position) (snd position)) in
  match ov_opacity overlay with
  | Some o => WithOpacity clip o
  | None => clip
  end.

(** ** Well-formed editing entries *)

(** An editing entry without effects that names a loaded video of
    duration [d] with [0 <= start_time <= d - 0.1] and
    [start_time < end_time]. *)
Definition plain_edit (video_assets : catalog) (edit : edit_entry) : Prop :=
  exists name orig d s e,
    ed_asset edit = Some name /\ assoc name video_assets = Some orig /\
    duration orig = Some d /\
    ed_start_time edit = Some s /\ ed_end_time edit = Some e /\
    0 <= s /\ s <= d - (1 # 10) /\ s < e /\
    (ed_effects edit = None \/ ed_effects edit = Some []).

(** What the advisory pass needs of an entry to get past it. *)
Definition readable_edit (video_assets : catalog) (edit : edit_entry) : Prop :=
  exists name, ed_asset edit = Some name /\
    (assoc name video_assets = None \/
     exists orig d s e,
       assoc name video_assets = Some orig /\ duration orig = Some d /\
       ed_start_time edit = Some s /\ ed_end_time edit = Some e).

(** ** Entries the loops pass over *)

(** An audio entry without the [asset] key, naming an asset that is not
    loaded, or whose start is not before the end of its clamped range. *)
Definition audio_skipped (audio_assets : catalog) (a : audio_entry) : Prop :=
  au_asset a = None \/
  (exists name, au_asset a = Some name /\ assoc name audio_assets = None) \/
  (exists name orig d s,
     au_asset a = Some name /\ assoc name audio_assets = Some orig /\
     duration orig = Some d /\ au_start_time a = Some s /\
     (d <= s \/ Py.min (get_default (au_end_time a) d) d <= s)).

(** An overlay of a type the loop does not know, a video overlay of a
    loaded asset whose start is not before the end of its clamped range,
    or a gif overlay of a loaded asset of positive duration whose requested
    duration is not positive. *)
Definition overlay_without_clip (C : catalogs) (o : overlay_entry) : Prop :=
  (exists type, ov_type o = Some type /\
     type <> "video" /\ type <> "gif" /\ type <> "image" /\ type <> "text") \/
  (exists name orig d s e,
     ov_type o = Some "video" /\ ov_asset o = Some name /\
     assoc name (video_assets C) = Some orig /\ duration orig = Some d /\
     ov_start_time o = Some s /\ ov_end_time o = Some e /\
     (d <= s \/ Py.min e d <= s)) \/
  (exists name orig d s e,
     ov_type o = Some "gif" /\ ov_asset o = Some name /\
     assoc name (gif_assets C) = Some orig /\ duration orig = Some d /\
     ov_start_time o = Some s /\ ov_end_time o = Some e /\
     0 < d /\ e - s <= 0).

(** ** What a run leaves behind *)

(** Events other than writing the output file and closing a clip. *)
Definition quiet (e : event) : Prop :=
  match e with
  | WriteVideofile _ _ _ _ _ | CloseClip _ => False
  | _ => True
  end.

(** The clips of all four catalogs, in the order they are closed. *)
Definition loaded_clips (C : catalogs) : list Clip :=
  map snd (video_assets C ++ gif_assets C ++ image_assets C ++ audio_assets C).

(** The events that end a run which returns [final]: the output file is
    written, then every loaded clip is closed. *)
Definition closing_events (W : world) (C : catalogs) (final : Clip) : list event :=
  [WriteVideofile final (path_join W (script_dir W) "output_overlays.mp4")
     24 "libx264" "aac"; CleaningUp] ++
  map CloseClip (loaded_clips C) ++ [Done].

(** How a run that gets as far as writing [final] ends, with the events
    from the write on: the write raises, and no clip is closed; or the
    write succeeds and closing raises at one of the loaded clips, those
    after it left open; or every clip is closed and the run returns
    [final]. *)
Inductive ending (W : world) (C : catalogs) (final : Clip)
  : list event -> result Clip -> Prop :=
| WriteRaised (e : exn) :
    render W final = Some e ->
    ending W C final
      [WriteVideofile final (path_join W (script_dir W) "output_overlays.mp4")
         24 "libx264" "aac"]
      (Raise e)
| CloseRaised (closed : list Clip) (c : Clip) (rest : list Clip) (e : exn) :
    render W final = None ->
    loaded_clips C = closed ++ c :: rest ->
    Forall (fun c => close W c = None) closed ->
    close W c = Some e ->
    ending W C final
      ([WriteVideofile final (path_join W (script_dir W) "output_overlays.mp4")
          24 "libx264" "aac"; CleaningUp] ++ map CloseClip (closed ++ [c]))
      (Raise e)
| Completed :
    render W final = None ->
    Forall (fun c => close W c = None) (loaded_clips C) ->
    ending W C final (closing_events W C final) (Ok final).

(** A run that raises before the write, having logged only quiet events,
    or that logs quiet events and then ends as [ending] tells. *)
Definition run_ends (W : world) (C : catalogs) (m : M Clip) : Prop :=
  (exists e, value m = Raise e /\ Forall quiet (log m)) \/
  (exists final before tail,
     Forall quiet before /\ log m = before ++ tail /\
     ending W C final tail (value m)).

(** ** Sample inputs *)

Module Sample.

(** A machine on which no media file exists. *)
Definition empty_world : world := {|
  script_dir := "/srv/editor";
  path_exists := fun _ => false;
  path_join := fun a b => (a ++ "/" ++ b)%string;
  path_splitext := fun p => (p, EmptyString);
  decode := fun _ _ => None;
  size_of := fun _ => (1920, 1080);
  blur_available := false;
  render := fun _ => None;
  close := fun _ => None
|}.

Definition no_assets : assets_cfg := {|
  videos := Some []; gifs := Some []; images := Some []; audios := Some []
|}.

Definition edit (asset : string) (s e : Q) : edit_entry := {|
  ed_asset := Some asset; ed_start_time := Some s; ed_end_time := Some e;
  ed_effects := None
|}.

Definition track (asset : string) (s e : Q) : audio_entry := {|
  au_asset := Some asset; au_start_time := Some s; au_end_time := Some e;
  au_volume := None
|}.

Definition plan (editing : list edit_entry) (overlays : list overlay_entry)
    (audio : list audio_entry) : config := {|
  cfg_assets := Some no_assets; cfg_editing := Some editing;
  cfg_overlays := Some overlays; cfg_audio := Some audio
|}.

Definition no_catalogs : catalogs := {|
  video_assets := []; gif_assets := []; image_assets := []; audio_assets := []
|}.

Definition typewriter (d : Q) : animation_cfg := {|
  an_type := Some "typewriter"; an_duration := Some d;
  an_height := None; an_direction := None
|}.

Definition bounce (height d : Q) : animation_cfg := {|
  an_type := Some "bounce"; an_duration := Some d;
  an_height := Some height; an_direction := None
|}.

Definition label (text : string) : text_attrs := {|
  txt := text; font := None; fontsize := 48; color := (255, 255, 255)%Z
|}.

Definition caption (text : string) (s e : Q) (position : json_position)
  : overlay_entry := {|
  ov_type := Some "text"; ov_asset := None; ov_text := Some text;
  ov_start_time := Some s; ov_end_time := Some e;
  ov_position := Some position; ov_size := None; ov_opacity := None;
  ov_effects := None; ov_animation := None; ov_font := None;
  ov_font_size := Some 48; ov_color := Some "white"; ov_background := None
|}.

Definition video_overlay (asset : option string) (s e : Q)
    (position : option json_position) : overlay_entry := {|
  ov_type := Some "video"; ov_asset := asset; ov_text := None;
  ov_start_time := Some s; ov_end_time := Some e;
  ov_position := position; ov_size := None; ov_opacity := None;
  ov_effects := None; ov_animation := None; ov_font := None;
  ov_font_size := None; ov_color := None; ov_background := None
|}.

(** A text overlay that gives no [position]. *)
Definition unplaced_caption (text : string) (s e : Q) : overlay_entry := {|
  ov_type := Some "text"; ov_asset := None; ov_text := Some text;
  ov_start_time := Some s; ov_end_time := Some e;
  ov_position := None; ov_size := None; ov_opacity := None;
  ov_effects := None; ov_animation := None; ov_font := None;
  ov_font_size := Some 48; ov_color := Some "white"; ov_background := None
|}.

(** A machine with one decodable video file of ten seconds. *)
Definition studio : world := {|
  script_dir := "/srv/editor";
  path_exists := fun p => (p =? "/srv/editor/a.mp4")%string;
  path_join := fun a b => (a ++ "/" ++ b)%string;
  path_splitext := fun p => (p, EmptyString);
  decode := fun _ _ => Some 10;
  size_of := fun _ => (1920, 1080);
  blur_available := true;
  render := fun _ => None;
  close := fun _ => None
|}.

Definition asset (name path : string) : asset_entry := {|
  ae_name := Some name; ae_path := Some path
|}.


Definition scroll (direction : string) (d : Q) : animation_cfg := {|
  an_type := Some "scroll"; an_duration := Some d;
  an_height := None; an_direction := Some direction
|}.

(** A text overlay on a dark box, revealed by a typewriter animation. *)
Definition boxed_caption : overlay_entry := {|
  ov_type := Some "text"; ov_asset := None; ov_text := Some "AB";
  ov_start_time := Some 1; ov_end_time := Some 3;
  ov_position := Some (JStr "center"); ov_size := None; ov_opacity := None;
  ov_effects := None; ov_animation := Some (typewriter 2); ov_font := None;
  ov_font_size := Some 48; ov_color := Some "white";
  ov_background := Some {| bg_color := Some "black"; bg_opacity := Some (1 # 2) |}
|}.

Definition gif_overlay (asset : string) (s e : Q) : overlay_entry := {|
  ov_type := Some "gif"; ov_asset := Some asset; ov_text := None;
  ov_start_time := Some s; ov_end_time := Some e;
  ov_position := Some (JStr "center"); ov_size := None; ov_opacity := None;
  ov_effects := None; ov_animation := None; ov_font := None;
  ov_font_size := None; ov_color := None; ov_background := None
|}.

Definition spinner : Clip := VideoFileClip "spin.gif" 2.

Definition gif_catalogs : catalogs := {|
  video_assets := []; gif_assets := [("spin", spinner)]; image_assets := [];
  audio_assets := []
|}.

Definition clip_a : Clip := VideoFileClip "a.mp4" 10.

Definition video_catalogs : catalogs := {|
  video_assets := [("a", clip_a)]; gif_assets := []; image_assets := [];
  audio_assets := []
|}.

Definition song : Clip := AudioFileClip "song.wav" 10.

Definition one_audio : catalog := [("song", song)].

Definition one_video : catalog := [("a", clip_a)].

(** An editing entry without the [asset] key. *)
Definition unnamed_edit : edit_entry := {|
  ed_asset := None; ed_start_time := Some 0; ed_end_time := Some 5;
  ed_effects := None
|}.

(** A bounce animation that gives no [duration]. *)
Definition endless_bounce : animation_cfg := {|
  an_type := Some "bounce"; an_duration := None;
  an_height := Some 20; an_direction := None
|}.

End Sample.

(** * Properties *)

Unset Implicit Arguments.

(** ** Numbers *)

Module PyFacts.

Lemma ltb_lt a b : Py.ltb a b = true <-> a < b.
Proof.
  unfold Py.ltb. rewrite negb_true_iff. split; intros H.
  - apply Qnot_le_lt. intros Hle. apply Qle_bool_iff in Hle. congruence.
  - destruct (Qle_bool b a) eqn:E; [|reflexivity].
    apply Qle_bool_iff in E. exfalso. apply (Qlt_not_le _ _ H E).
Qed.

Lemma ltb_ge a b : Py.ltb a b = false <-> b <= a.
Proof.
  unfold Py.ltb. rewrite negb_false_iff. apply Qle_bool_iff.
Qed.

Lemma geb_le a b : Py.geb a b = true <-> b <= a.
Proof. apply Qle_bool_iff. Qed.

Lemma geb_lt a b : Py.geb a b = false <-> a < b.
Proof.
  unfold Py.geb. split; intros H.
  - apply Qnot_le_lt. intros Hle. apply Qle_bool_iff in Hle. congruence.
  - destruct (Qle_bool b a) eqn:E; [|reflexivity].
    apply Qle_bool_iff in E. exfalso. apply (Qlt_not_le _ _ H E).
Qed.

Lemma gtb_lt a b : Py.gtb a b = true <-> b < a.
Proof. apply ltb_lt. Qed.

Lemma gtb_le a b : Py.gtb a b = false <-> a <= b.
Proof. apply ltb_ge. Qed.

Lemma min_le_l a b : Py.min a b <= a.
Proof.
  unfold Py.min. destruct (Py.ltb b a) eqn:E.
  - apply ltb_lt in E. lra.
  - lra.
Qed.

Lemma min_le_r a b : Py.min a b <= b.
Proof.
  unfold Py.min. destruct (Py.ltb b a) eqn:E.
  - lra.
  - apply ltb_ge in E. lra.
Qed.

Lemma min_cases a b : (b < a /\ Py.min a b = b) \/ (a <= b /\ Py.min a b = a).
Proof.
  unfold Py.min. destruct (Py.ltb b a) eqn:E.
  - left. apply ltb_lt in E. auto.
  - right. apply ltb_ge in E. auto.
Qed.

(** For a non-negative number [int] is the floor. *)
Lemma int_floor x : 0 <= x -> Py.int x = Qfloor x.
Proof.
  destruct x as [n d]. unfold Qle, Py.int, Qfloor. simpl. intros H.
  rewrite Z.mul_1_r in H. apply Z.quot_div_nonneg; lia.
Qed.


Lemma ltb_false_of_le a b : b <= a -> Py.ltb a b = false.
Proof. intros. apply ltb_ge. assumption. Qed.

Lemma ltb_true_of_lt a b : a < b -> Py.ltb a b = true.
Proof. intros. apply ltb_lt. assumption. Qed.

Lemma geb_true_of_le a b : b <= a -> Py.geb a b = true.
Proof. intros. apply geb_le. assumption. Qed.

Lemma geb_false_of_lt a b : a < b -> Py.geb a b = false.
Proof. intros. apply geb_lt. assumption. Qed.

Lemma gtb_true_of_lt a b : b < a -> Py.gtb a b = true.
Proof. intros. apply gtb_lt. assumption. Qed.

Lemma gtb_false_of_le a b : a <= b -> Py.gtb a b = false.
Proof. intros. apply gtb_le. assumption. Qed.

End PyFacts.

(** ** The monad *)

Lemma value_bind {A B} (m : M A) (f : A -> M B) :
  value (bind m f) =
  match value m with
  | Ok a => value (f a)
  | Raise e => Raise e
  end.
Proof.
  destruct m as [l [a|e]]; simpl; [|reflexivity].
  destruct (f a); reflexivity.
Qed.

Lemma log_bind_ok {A B} (m : M A) (f : A -> M B) a :
  value m = Ok a -> log (bind m f) = log m ++ log (f a).
Proof.
  destruct m as [l [a'|e]]; simpl; intros H; inversion H; subst.
  destruct (f a); reflexivity.
Qed.

Lemma log_bind {A B} (m : M A) (f : A -> M B) :
  log (bind m f) =
  log m ++ match value m with
           | Ok a => log (f a)
           | Raise _ => []
           end.
Proof.
  destruct m as [l [a|e]]; simpl.
  - destruct (f a); reflexivity.
  - rewrite app_nil_r. reflexivity.
Qed.

Lemma log_bind_in {A B} (m : M A) (f : A -> M B) (e : event) :
  In e (log m) -> In e (log (bind m f)).
Proof.
  intros H. rewrite log_bind. apply in_or_app. left. assumption.
Qed.

Lemma log_bind_in_r {A B} (m : M A) (f : A -> M B) (a : A) (e : event) :
  value m = Ok a -> In e (log (f a)) -> In e (log (bind m f)).
Proof.
  intros V H. rewrite (log_bind_ok m f a V). apply in_or_app. right. assumption.
Qed.

Lemma value_bind_ok {A B} (m : M A) (f : A -> M B) (b : B) :
  value (bind m f) = Ok b -> exists a, value m = Ok a /\ value (f a) = Ok b.
Proof.
  rewrite value_bind. destruct (value m) as [a|e]; [|discriminate].
  intros H. exists a. split; [reflexivity | exact H].
Qed.

Lemma bind_ret_l {A B} (a : A) (f : A -> M B) : bind (ret a) f = f a.
Proof. unfold bind, ret. destruct (f a). reflexivity. Qed.

Lemma bind_assoc {A B D} (m : M A) (f : A -> M B) (g : B -> M D) :
  bind (bind m f) g = bind m (fun a => bind (f a) g).
Proof.
  destruct m as [l [a|e]]; cbn [bind]; [|reflexivity].
  destruct (f a) as [l' [b|e']]; cbn [bind]; [|reflexivity].
  destruct (g b) as [l'' r]. rewrite app_assoc. reflexivity.
Qed.

Lemma bind_ext {A B} (m : M A) (f g : A -> M B) :
  (forall a, f a = g a) -> bind m f = bind m g.
Proof.
  intros H. destruct m as [l [a|e]]; cbn [bind]; [|reflexivity].
  rewrite H. reflexivity.
Qed.

Lemma value_ret {A} (a : A) : value (ret a) = Ok a.
Proof. reflexivity. Qed.

Lemma value_print_then {A} (e : event) (k : M A) :
  value (print e ;;; k) = value k.
Proof. rewrite value_bind. reflexivity. Qed.

(** ** Segment resolution *)

Lemma from_end_nonneg d t : 0 <= t -> from_end d t = t.
Proof.
  intros H. unfold from_end. rewrite PyFacts.ltb_false_of_le; auto.
Qed.

Lemma from_end_lt d t : t < d -> from_end d t < d.
Proof.
  intros H. unfold from_end. destruct (Py.ltb t 0) eqn:E; [|assumption].
  apply PyFacts.ltb_lt in E. lra.
Qed.

Lemma from_end_le d t : t <= d -> from_end d t - d <= 0.
Proof.
  intros H. unfold from_end. destruct (Py.ltb t 0) eqn:E.
  - apply PyFacts.ltb_lt in E. lra.
  - lra.
Qed.

(** A call of [subclipped] with a start before the end of the clip and an
    end not beyond it never raises. *)
Lemma subclipped_ok clip d s e :
  duration clip = Some d -> s < d -> e <= d ->
  subclipped clip s e = ret (Subclipped clip (from_end d s) (from_end d e)).
Proof.
  intros Hd Hs He. unfold subclipped. rewrite Hd.
  rewrite PyFacts.geb_false_of_lt by (apply from_end_lt; assumption).
  rewrite PyFacts.gtb_false_of_le; [reflexivity|].
  pose proof (from_end_le d e He). lra.
Qed.

Lemma subclipped_inside clip d s e :
  duration clip = Some d -> 0 <= s -> s < d -> s < e -> e <= d ->
  subclipped clip s e = ret (Subclipped clip s e).
Proof.
  intros Hd H0 Hs Hse He.
  rewrite (subclipped_ok clip d s e Hd Hs He).
  rewrite !from_end_nonneg by lra. reflexivity.
Qed.

Lemma safe_subclip_value clip d s e :
  duration clip = Some d ->
  value (safe_subclip clip s e) =
    if Py.geb s d then Ok None
    else if Py.geb s (Py.min e d) then Ok None
    else value (c <- subclipped clip s (Py.min e d) ;; ret (Some c)).
Proof.
  intros Hd. unfold safe_subclip, Py.min, Py.gtb. rewrite Hd.
  rewrite value_bind.
  destruct (Py.ltb d e); cbn [value snd print ret bind];
    destruct (Py.geb s d); try reflexivity.
  destruct (Py.geb s e); reflexivity.
Qed.

Lemma safe_subclip_warns clip d s e :
  duration clip = Some d -> d < e ->
  In (WarnEndExceeds e d) (log (safe_subclip clip s e)).
Proof.
  intros Hd H. unfold safe_subclip. rewrite Hd.
  rewrite PyFacts.gtb_true_of_lt by assumption.
  apply log_bind_in. left. reflexivity.
Qed.

(** C1 (as amended). For a clip of duration [d] and a requested range [s, e):
    [safe_subclip] returns [None] when [s >= d]; otherwise an end beyond
    the source is clamped to [d] with a warning, never an error; when
    [s >= e] after clamping it returns [None]; otherwise it returns what
    [subclipped] gives for the start [s] and the clamped end, which for
    [s >= 0] is exactly the sub-range from [s] to the clamped end, of
    positive length and within the source. *)
Theorem safe_subclip_resolves (clip : Clip) (d s e : Q) :
  duration clip = Some d ->
  let e' := Py.min e d in
  (e <= d -> e' = e) /\
  (d < e -> e' = d /\ In (WarnEndExceeds e d) (log (safe_subclip clip s e))) /\
  e' <= d /\
  (d <= s -> value (safe_subclip clip s e) = Ok None) /\
  (s < d -> e' <= s -> value (safe_subclip clip s e) = Ok None) /\
  (s < d -> s < e' ->
     value (safe_subclip clip s e) =
       value (c <- subclipped clip s e' ;; ret (Some c)) /\
     value (safe_subclip clip s e) =
       Ok (Some (Subclipped clip (from_end d s) (from_end d e'))) /\
     (0 <= s ->
        value (safe_subclip clip s e) = Ok (Some (Subclipped clip s e')) /\
        duration (Subclipped clip s e') = Some (e' - s) /\
        0 < e' - s)).
Proof.
  intros Hd e'.
  assert (He'd : e' <= d) by (apply PyFacts.min_le_r).
  pose proof (safe_subclip_value clip d s e Hd) as V. fold e' in V.
  split; [|split; [|split; [|split; [|split]]]].
  - intros H. subst e'. unfold Py.min. rewrite PyFacts.ltb_false_of_le; auto.
  - intros H. split.
    + subst e'. unfold Py.min. rewrite PyFacts.ltb_true_of_lt; auto.
    + apply (safe_subclip_warns clip d s e Hd H).
  - assumption.
  - intros Hs. rewrite V, (PyFacts.geb_true_of_le _ _ Hs). reflexivity.
  - intros Hs Hes.
    rewrite V, (PyFacts.geb_false_of_lt _ _ Hs), (PyFacts.geb_true_of_le _ _ Hes).
    reflexivity.
  - intros Hs Hse.
    rewrite V, (PyFacts.geb_false_of_lt _ _ Hs), (PyFacts.geb_false_of_lt _ _ Hse).
    split; [reflexivity|]. split.
    + rewrite (subclipped_ok clip d s e' Hd Hs He'd). reflexivity.
    + intros H0. split; [|split].
      * rewrite (subclipped_inside clip d s e' Hd H0 Hs Hse He'd). reflexivity.
      * reflexivity.
      * lra.
Qed.

Lemma safe_subclip_resolves_witness :
  duration (VideoFileClip "clip.mp4" 10) = Some 10 /\
  value (safe_subclip (VideoFileClip "clip.mp4" 10) 8 12) =
    Ok (Some (Subclipped (VideoFileClip "clip.mp4" 10) 8 10)).
Proof.
  split; [reflexivity|].
  destruct (safe_subclip_resolves (VideoFileClip "clip.mp4" 10) 10 8 12 eq_refl)
    as (_ & _ & _ & _ & _ & H).
  destruct (H ltac:(reflexivity) ltac:(reflexivity)) as (_ & _ & H0).
  apply H0. discriminate.
Defined.

(** C1 as stated fails: for a start before 0 the clip returned is not the
    range from [s] to [e].  The library counts a negative start from the
    end of the source: asked for the range from -2 to 5 of a clip of 10
    seconds, [safe_subclip] returns the range from 8 to 5. *)
Lemma safe_subclip_counterexample :
  let clip := VideoFileClip "clip.mp4" 10 in
  duration clip = Some 10 /\ -2 < 10 /\ Py.min 5 10 = 5 /\ -2 < 5 /\
  safe_subclip clip (-2) 5 = ([], Ok (Some (Subclipped clip 8 5))) /\
  Subclipped clip 8 5 <> Subclipped clip (-2) 5 /\
  duration (Subclipped clip 8 5) = Some (5 - 8) /\ 5 - 8 < 0.
Proof.
  cbv zeta. repeat split. intros H. discriminate H.
Qed.

(** ** Looping *)

Lemma duration_repeat clip d n :
  duration clip = Some d ->
  exists q, duration (Concatenated (repeat clip n)) = Some q /\
            q == inject_Z (Z.of_nat n) * d.
Proof.
  intros Hd. induction n as [|n [q [Hq Eq]]].
  - exists 0. split; [reflexivity|]. simpl. ring.
  - exists (d + q). split.
    + simpl in *. rewrite Hd, Hq. reflexivity.
    + rewrite Eq. rewrite Nat2Z.inj_succ. unfold Z.succ.
      rewrite inject_Z_plus. ring.
Qed.

Lemma loops_cover d T :
  0 < d -> 0 <= T -> T < inject_Z (Qfloor (T / d) + 1) * d.
Proof.
  intros Hd HT.
  assert (H : T / d < inject_Z (Qfloor (T / d) + 1)) by apply Qlt_floor.
  assert (E : T == (T / d) * d) by (field; lra).
  rewrite E at 1. apply Qmult_lt_compat_r; assumption.
Qed.

Lemma loops_positive d T :
  0 < d -> 0 <= T -> (1 <= Qfloor (T / d) + 1)%Z.
Proof.
  intros Hd HT.
  assert (0 <= T / d) by (apply Qle_shift_div_l; lra).
  assert (H1 : (0 <= Qfloor (T / d))%Z).
  { change 0%Z with (Qfloor 0). apply Qfloor_resp_le. assumption. }
  lia.
Qed.

(** C2. For a clip of positive duration [d] and a target [T > 0],
    [loop_clip] returns a clip of duration exactly [T]: the leading
    sub-range of the source when [d >= T], and otherwise the leading
    sub-range of length [T] of [floor(T/d) + 1] concatenated copies of the
    source, which together last longer than [T]. *)
Theorem loop_clip_exact (clip : Clip) (d T : Q) :
  duration clip = Some d -> 0 < d -> 0 < T ->
  let loops := (Qfloor (T / d) + 1)%Z in
  let concatenated := Concatenated (repeat clip (Z.to_nat loops)) in
  (T <= d -> value (loop_clip clip T) = Ok (Subclipped clip 0 T)) /\
  (d < T ->
     value (loop_clip clip T) = Ok (Subclipped concatenated 0 T) /\
     List.length (repeat clip (Z.to_nat loops)) = Z.to_nat loops /\
     exists q, duration concatenated = Some q /\ q == inject_Z loops * d /\ T < q) /\
  (exists c q, value (loop_clip clip T) = Ok c /\ duration c = Some q /\ q == T).
Proof.
  intros Hd Hpos HT loops concatenated.
  assert (Hl : (1 <= loops)%Z) by (apply loops_positive; lra).
  assert (Hle : T <= d -> value (loop_clip clip T) = Ok (Subclipped clip 0 T)).
  { intros H. unfold loop_clip. rewrite Hd.
    rewrite (PyFacts.geb_true_of_le _ _ H).
    rewrite (subclipped_inside clip d 0 T Hd); try lra. reflexivity. }
  assert (Hgt : d < T ->
     value (loop_clip clip T) = Ok (Subclipped concatenated 0 T) /\
     List.length (repeat clip (Z.to_nat loops)) = Z.to_nat loops /\
     exists q, duration concatenated = Some q /\ q == inject_Z loops * d /\ T < q).
  { intros H.
    destruct (duration_repeat clip d (Z.to_nat loops) Hd) as [q [Hq Eq]].
    rewrite Z2Nat.id in Eq by lia.
    assert (Hcover : T < q).
    { rewrite Eq. apply loops_cover; lra. }
    split; [|split; [apply repeat_length | exists q; auto]].
    unfold loop_clip. rewrite Hd.
    rewrite (PyFacts.geb_false_of_lt _ _ H).
    assert (Hz : Qeq_bool d 0 = false).
    { destruct (Qeq_bool d 0) eqn:E; [|reflexivity].
      apply Qeq_bool_iff in E. lra. }
    rewrite Hz.
    assert (Hint : Py.int (T / d) = Qfloor (T / d)).
    { apply PyFacts.int_floor. apply Qle_shift_div_l; lra. }
    rewrite Hint. fold loops.
    subst concatenated.
    destruct (Z.to_nat loops) as [|k] eqn:Ek; [lia|].
    cbn [repeat concatenate_videoclips].
    rewrite value_bind. cbn [value snd ret].
    change (clip :: repeat clip k) with (repeat clip (S k)).
    rewrite (subclipped_inside _ q 0 T Hq); try lra. reflexivity. }
  split; [exact Hle|]. split; [exact Hgt|].
  destruct (Qlt_le_dec d T) as [H|H].
  - destruct (Hgt H) as (V & _ & _).
    exists (Subclipped concatenated 0 T), (T - 0). split; [exact V|].
    split; [reflexivity | ring].
  - exists (Subclipped clip 0 T), (T - 0). split; [exact (Hle H)|].
    split; [reflexivity | ring].
Qed.

Lemma loop_clip_exact_witness :
  duration (VideoFileClip "loop.gif" 2) = Some 2 /\ 0 < 2 /\ 0 < 5 /\
  value (loop_clip (VideoFileClip "loop.gif" 2) 5) =
    Ok (Subclipped
          (Concatenated [VideoFileClip "loop.gif" 2; VideoFileClip "loop.gif" 2;
                         VideoFileClip "loop.gif" 2]) 0 5).
Proof.
  split; [reflexivity|]. split; [reflexivity|]. split; [reflexivity|].
  destruct (loop_clip_exact (VideoFileClip "loop.gif" 2) 2 5 eq_refl
              ltac:(reflexivity) ltac:(reflexivity)) as (_ & H & _).
  destruct (H ltac:(reflexivity)) as (V & _).
  exact V.
Defined.

(** ** The main editing loop *)

Lemma value_print_duration mk d :
  value (print_duration mk (Some d)) = Ok tt.
Proof. reflexivity. Qed.

Lemma edit_step_value W vids edit name orig d s e :
  ed_asset edit = Some name -> assoc name vids = Some orig ->
  duration orig = Some d ->
  ed_start_time edit = Some s -> ed_end_time edit = Some e ->
  value (edit_step W vids edit) =
    match value (safe_subclip orig (Py.min s (d - (1 # 10))) (Py.min e d)) with
    | Ok None => Ok None
    | Ok (Some clip) =>
        match duration clip with
        | Some _ =>
            value (clip <- apply_effects W clip (get_default (ed_effects edit) []) ;;
                   ret (Some clip))
        | None => Raise (TypeError "format")
        end
    | Raise x => Raise x
    end.
Proof.
  intros Ha Hc Hd Hs He. unfold edit_step. rewrite Ha, Hc, Hs, He.
  unfold duration_num. rewrite Hd.
  cbn [getitem].
  repeat (rewrite value_bind; cbn [value snd ret print]).
  rewrite value_print_duration.
  destruct (value (safe_subclip orig _ _)) as [[clip|]|x]; try reflexivity.
  rewrite value_bind.
  destruct (duration clip); reflexivity.
Qed.

Lemma min_idem_r e d : Py.min (Py.min e d) d = Py.min e d.
Proof.
  unfold Py.min at 1. rewrite PyFacts.ltb_false_of_le; [reflexivity|].
  apply PyFacts.min_le_r.
Qed.

Lemma clamped_start_lt s d : Py.min s (d - (1 # 10)) < d.
Proof.
  pose proof (PyFacts.min_le_r s (d - (1 # 10))). lra.
Qed.

Lemma safe_subclip_clamped orig d s e :
  duration orig = Some d ->
  let s' := Py.min s (d - (1 # 10)) in
  let e' := Py.min e d in
  value (safe_subclip orig s' e') =
    if Py.geb s' e' then Ok None
    else value (c <- subclipped orig s' e' ;; ret (Some c)).
Proof.
  intros Hd s' e'. subst s' e'.
  rewrite (safe_subclip_value orig d _ _ Hd).
  rewrite (PyFacts.geb_false_of_lt _ _ (clamped_start_lt s d)).
  rewrite min_idem_r. reflexivity.
Qed.

Lemma edit_step_skipped W vids edit name orig d s e :
  ed_asset edit = Some name -> assoc name vids = Some orig ->
  duration orig = Some d ->
  ed_start_time edit = Some s -> ed_end_time edit = Some e ->
  Py.min e d <= Py.min s (d - (1 # 10)) ->
  value (edit_step W vids edit) = Ok None.
Proof.
  intros Ha Hc Hd Hs He H.
  rewrite (edit_step_value W vids edit name orig d s e Ha Hc Hd Hs He).
  rewrite (safe_subclip_clamped orig d s e Hd).
  rewrite (PyFacts.geb_true_of_le _ _ H). reflexivity.
Qed.

(** C5 (as amended). For an editing entry whose asset is in the catalog,
    with duration [d]: the clamped start lies before the end of the source
    and the clamped end not beyond it, so the entry is never skipped for a
    start beyond the source; the entry is skipped for an invalid time range
    exactly when the clamped end is not after the clamped start (it is
    skipped then, and not skipped otherwise), which cannot happen when
    [start_time < end_time]; otherwise, for a
    non-negative clamped start, resolution succeeds with the sub-range
    between the clamped times, of positive length, and the entry goes on to
    its effects. *)
Theorem edit_clamp_resolves (W : world) (vids : catalog) (edit : edit_entry)
    (name : string) (orig : Clip) (d s e : Q) :
  ed_asset edit = Some name -> assoc name vids = Some orig ->
  duration orig = Some d ->
  ed_start_time edit = Some s -> ed_end_time edit = Some e ->
  let s' := Py.min s (d - (1 # 10)) in
  let e' := Py.min e d in
  s' < d /\ e' <= d /\
  (s < e -> s' < e') /\
  (e' <= s' -> value (edit_step W vids edit) = Ok None) /\
  (s' < e' -> value (edit_step W vids edit) <> Ok None) /\
  (s' < e' -> 0 <= s' ->
     value (safe_subclip orig s' e') = Ok (Some (Subclipped orig s' e')) /\
     0 < e' - s' /\
     value (edit_step W vids edit) =
       value (clip <- apply_effects W (Subclipped orig s' e')
                        (get_default (ed_effects edit) []) ;;
              ret (Some clip))).
Proof.
  intros Ha Hc Hd Hs He s' e'.
  assert (Hs'd : s' < d) by apply clamped_start_lt.
  assert (He'd : e' <= d) by apply PyFacts.min_le_r.
  pose proof (edit_step_value W vids edit name orig d s e Ha Hc Hd Hs He) as V.
  fold s' e' in V.
  pose proof (safe_subclip_clamped orig d s e Hd) as S. cbv zeta in S.
  fold s' e' in S.
  split; [exact Hs'd|]. split; [exact He'd|]. split; [|split; [|split]].
  - intros Hse.
    pose proof (PyFacts.min_le_l s (d - (1 # 10))).
    destruct (PyFacts.min_cases e d) as [[_ E]|[_ E]]; unfold e'; rewrite E.
    + exact Hs'd.
    + unfold s'. lra.
  - intros H. apply (edit_step_skipped W vids edit name orig d s e); assumption.
  - intros H. rewrite (PyFacts.geb_false_of_lt _ _ H) in S.
    rewrite (subclipped_ok orig d s' e' Hd Hs'd He'd) in S.
    cbn [value snd bind ret app] in S.
    rewrite V, S. cbn [duration]. rewrite value_bind.
    destruct (value (apply_effects W _ _)); discriminate.
  - intros H H0. rewrite (PyFacts.geb_false_of_lt _ _ H) in S.
    rewrite (subclipped_inside orig d s' e' Hd H0 Hs'd H He'd) in S.
    cbn [value snd bind ret app] in S.
    split; [exact S|]. split; [lra|].
    rewrite V, S. reflexivity.
Qed.

Lemma edit_clamp_resolves_witness :
  value (edit_step Sample.empty_world Sample.one_video (Sample.edit "a" 8 12)) =
    Ok (Some (Subclipped Sample.clip_a 8 10)).
Proof.
  destruct (edit_clamp_resolves Sample.empty_world Sample.one_video
              (Sample.edit "a" 8 12) "a" Sample.clip_a 10 8 12
              eq_refl eq_refl eq_refl eq_refl eq_refl)
    as (_ & _ & _ & _ & _ & H).
  destruct (H ltac:(reflexivity) ltac:(discriminate)) as (_ & _ & V).
  exact V.
Defined.

(** C5 as stated fails: the asset is in the catalog, both times are
    clamped, and the entry is still skipped for an invalid time range. *)
Lemma edit_clamp_counterexample :
  assoc "a" Sample.one_video = Some Sample.clip_a /\
  duration Sample.clip_a = Some 10 /\
  Py.min 5 (10 - (1 # 10)) = 5 /\ Py.min 3 10 = 3 /\
  edit_step Sample.empty_world Sample.one_video (Sample.edit "a" 5 3) =
    ([ProcessingEdit "a" 5 3; OriginalDuration (Some 10);
      WarnStartNotLess 5 3; SkippingEdit "a"], Ok None).
Proof. repeat split. Qed.

(** ** The placeholder *)

Lemma edit_step_no_segment W vids edit :
  no_segment vids edit -> value (edit_step W vids edit) = Ok None.
Proof.
  intros (name & Ha & [Hc | (orig & d & s & e & Hc & Hd & Hs & He & Hr)]).
  - unfold edit_step. rewrite Ha, Hc. reflexivity.
  - apply (edit_step_skipped W vids edit name orig d s e); assumption.
Qed.

Lemma main_loop_no_segment W vids editing :
  Forall (no_segment vids) editing ->
  forall main_clips current_time,
    value (main_loop W vids editing main_clips current_time) =
      Ok (main_clips, current_time).
Proof.
  induction 1 as [|edit rest H _ IH]; intros main_clips current_time.
  - reflexivity.
  - cbn [main_loop]. rewrite value_bind.
    rewrite (edit_step_no_segment W vids edit H). apply IH.
Qed.

Lemma total_duration_no_segment vids editing :
  Forall (no_segment vids) editing ->
  forall total, exists total',
    value (total_duration_loop vids editing total) = Ok total'.
Proof.
  induction 1 as [|edit rest H _ IH]; intros total.
  - exists total. reflexivity.
  - cbn [total_duration_loop].
    destruct H as (name & Ha & [Hc | (orig & d & s & e & Hc & Hd & Hs & He & Hr)]);
      rewrite Ha; cbn [getitem]; rewrite value_bind; cbn [value snd ret];
      rewrite Hc.
    + apply IH.
    + rewrite He, Hs, Hd. cbn [getitem].
      repeat (rewrite value_bind; cbn [value snd ret]).
      destruct (Py.gtb _ 0); apply IH.
Qed.

(** ** The typewriter animation *)

Lemma create_typewriter_total clip d :
  exists c, create_typewriter_effect clip d = ret c.
Proof.
  unfold create_typewriter_effect.
  destruct (text_of clip) as [t|]; [|eexists; reflexivity].
  destruct (txt t =? EmptyString)%string; [eexists; reflexivity|].
  destruct (char_clips_from _ _ _ _ _); eexists; reflexivity.
Qed.

Lemma apply_animation_typewriter W clip animation d video_size :
  an_type animation = Some "typewriter" -> an_duration animation = Some d ->
  value (apply_animation W clip animation video_size) =
    value (create_typewriter_effect clip d).
Proof.
  intros Ht Hd. unfold apply_animation. rewrite Ht, Hd.
  cbn [getitem]. rewrite value_bind. cbn [value snd ret].
  change ("typewriter" =? "bounce")%string with false.
  change ("typewriter" =? "scroll")%string with false.
  change ("typewriter" =? "typewriter")%string with true.
  cbv iota.
  destruct (create_typewriter_total clip d) as [c Hc].
  cbn [bind ret]. rewrite Hc. reflexivity.
Qed.

(** C6. The typewriter animation never builds character layers.  The
    branch of [create_typewriter_effect] that cuts the text into one layer
    per character is taken for clips with an attribute [txt], and no clip
    has one: for a typewriter animation of duration [D] every clip, a text
    clip as any other, comes back whole with a fade-in of duration [D],
    and nothing is printed. *)
Theorem typewriter_is_fade_in (W : world) (clip : Clip) (animation : animation_cfg)
    (D : Q) (video_size : Q * Q) :
  an_type animation = Some "typewriter" -> an_duration animation = Some D ->
  text_of clip = None /\
  create_typewriter_effect clip D = ([], Ok (WithEffects clip (FadeIn D))) /\
  apply_animation W clip animation video_size =
    ([], Ok (WithEffects clip (FadeIn D))).
Proof.
  intros Ht Hd. split; [reflexivity|]. split; [reflexivity|].
  unfold apply_animation. rewrite Ht, Hd. reflexivity.
Qed.

Lemma typewriter_is_fade_in_witness :
  apply_animation Sample.empty_world (TextClip (Sample.label "AB"))
    (Sample.typewriter 2) (1920, 1080) =
    ([], Ok (WithEffects (TextClip (Sample.label "AB")) (FadeIn 2))).
Proof.
  destruct (typewriter_is_fade_in Sample.empty_world (TextClip (Sample.label "AB"))
              (Sample.typewriter 2) 2 (1920, 1080) eq_refl eq_refl) as (_ & _ & H).
  exact H.
Defined.

(** ** The bounce animation *)

Lemma int_R_IZR z : int_R (IZR z) = z.
Proof.
  unfold int_R. destruct (Rle_dec 0 (IZR z)) as [H|H].
  - symmetry. apply Int_part_spec. Lra.lra.
  - rewrite <- opp_IZR.
    rewrite <- (Int_part_spec (IZR (- z)) (- z)%Z) by Lra.lra. lia.
Qed.

Lemma int_R_0 : int_R 0 = 0%Z.
Proof. exact (int_R_IZR 0). Qed.

Lemma int_R_nonneg x : (0 <= x)%R -> (0 <= int_R x)%Z /\ (IZR (int_R x) <= x)%R.
Proof.
  intros H. unfold int_R. destruct (Rle_dec 0 x) as [_|N]; [|contradiction].
  destruct (base_Int_part x) as [H1 H2]. split; [|exact H1].
  assert (H3 : (IZR (-1) < IZR (Int_part x))%R) by Lra.lra.
  apply lt_IZR in H3. lia.
Qed.

Lemma Q2R_pos d : 0 < d -> (0 < Q2R d)%R.
Proof.
  intros H. apply Qreals.Qlt_Rlt in H. rewrite RMicromega.Q2R_0 in H. exact H.
Qed.

Lemma Q2R_inject_Z z : Q2R (inject_Z z) = IZR z.
Proof. unfold Q2R, inject_Z. simpl. field. Qed.

Lemma bounce_offset_start h d : bounce_offset h d 0 = 0%Z.
Proof.
  unfold bounce_offset.
  replace (0 * PI / Q2R d)%R with 0%R by (unfold Rdiv; ring).
  rewrite sin_0, Rabs_R0, Rmult_0_r. apply int_R_0.
Qed.

Lemma bounce_offset_peak h d :
  0 < d -> bounce_offset h d (Q2R d / 2) = int_R (Q2R h).
Proof.
  intros H. apply Q2R_pos in H. unfold bounce_offset.
  replace (Q2R d / 2 * PI / Q2R d)%R with (PI / 2)%R by (field; Lra.lra).
  rewrite sin_PI2, Rabs_R1, Rmult_1_r. reflexivity.
Qed.

Lemma bounce_offset_end h d :
  0 < d -> bounce_offset h d (Q2R d) = 0%Z.
Proof.
  intros H. apply Q2R_pos in H. unfold bounce_offset.
  replace (Q2R d * PI / Q2R d)%R with PI by (field; Lra.lra).
  rewrite sin_PI, Rabs_R0, Rmult_0_r. apply int_R_0.
Qed.

Lemma bounce_offset_nonneg h d t :
  0 <= h ->
  (0 <= bounce_offset h d t)%Z /\
  (IZR (bounce_offset h d t) <= Q2R h * Rabs (sin (t * PI / Q2R d)))%R.
Proof.
  intros H. apply int_R_nonneg.
  apply Rmult_le_pos; [|apply Rabs_pos].
  apply Qreals.Qle_Rle in H. rewrite RMicromega.Q2R_0 in H. exact H.
Qed.

(** Whatever position a layer was given in the overlay loop, the bounce
    branch reads it back as a tuple, which [parse_position] does not take
    for a position: the base of every bounce is the frame centre. *)
Lemma bounce_base_of_tuple x y video_size :
  parse_position (PTuple x y) video_size = (Center, Center).
Proof. reflexivity. Qed.

(** C7 (as amended). A bounce animation of height [height] (20 when the
    plan gives none) and duration [D > 0] attaches a position function
    whose horizontal coordinate and base height do not depend on time and
    whose height at time [t] is the base minus
    [offset(t) = int(height * |sin(t * pi / D)|)], the offset truncated to
    whole pixels; [offset(0) = 0], [offset(D/2) = int(height)], which is
    [height] itself for a whole number of pixels, [offset(D) = 0], and for
    [height >= 0] the offset is never negative and never above
    [height * |sin(t * pi / D)|]. *)
Theorem bounce_offset_truncated (W : world) (clip : Clip)
    (animation : animation_cfg) (D : Q) (video_size : Q * Q) :
  an_type animation = Some "bounce" -> an_duration animation = Some D ->
  0 < D ->
  let height := get_default (an_height animation) 20 in
  exists f x0 y0,
    value (apply_animation W clip animation video_size) =
      Ok (WithPosition clip (PFun f)) /\
    (forall t : R,
       call_posfun f t = Ok (x0, RNum (y0 - IZR (bounce_offset height D t))%R)) /\
    (forall t : R,
       bounce_offset height D t =
         int_R (Q2R height * Rabs (sin (t * PI / Q2R D)))%R) /\
    bounce_offset height D 0 = 0%Z /\
    bounce_offset height D (Q2R D / 2) = int_R (Q2R height) /\
    (forall z : Z, height == inject_Z z -> bounce_offset height D (Q2R D / 2) = z) /\
    bounce_offset height D (Q2R D) = 0%Z /\
    (0 <= height -> forall t : R,
       (0 <= bounce_offset height D t)%Z /\
       (IZR (bounce_offset height D t) <=
          Q2R height * Rabs (sin (t * PI / Q2R D)))%R).
Proof.
  intros Ht Hd Hpos height.
  set (position := parse_position (pos clip) video_size).
  exists (BouncePos position (snd video_size) animation).
  exists (rcoord_of (fst position)).
  exists (match snd position with
          | Num y => Q2R y
          | Center => (Q2R (snd video_size) * (1 / 2))%R
          end).
  split; [|split; [|split; [|split; [|split; [|split; [|split]]]]]].
  - unfold apply_animation. rewrite Ht. reflexivity.
  - intros t. cbn [call_posfun]. unfold bounce_pos. rewrite Hd.
    assert (Hz : Qeq_bool D 0 = false).
    { destruct (Qeq_bool D 0) eqn:E; [|reflexivity].
      apply Qeq_bool_iff in E. Lqa.lra. }
    rewrite Hz. reflexivity.
  - intros t. reflexivity.
  - apply bounce_offset_start.
  - apply bounce_offset_peak. exact Hpos.
  - intros z Hz. rewrite (bounce_offset_peak height D Hpos).
    rewrite (Qreals.Qeq_eqR _ _ Hz), Q2R_inject_Z. apply int_R_IZR.
  - apply bounce_offset_end. exact Hpos.
  - intros Hh t. apply bounce_offset_nonneg. exact Hh.
Qed.

Lemma bounce_offset_truncated_witness :
  exists f x0 y0,
    value (apply_animation Sample.empty_world (TextClip (Sample.label "AB"))
             (Sample.bounce 20 2) (1920, 1080)) =
      Ok (WithPosition (TextClip (Sample.label "AB")) (PFun f)) /\
    (forall t : R,
       call_posfun f t = Ok (x0, RNum (y0 - IZR (bounce_offset 20 2 t))%R)) /\
    bounce_offset 20 2 0 = 0%Z /\
    bounce_offset 20 2 (Q2R 2 / 2) = 20%Z /\
    bounce_offset 20 2 (Q2R 2) = 0%Z.
Proof.
  destruct (bounce_offset_truncated Sample.empty_world
              (TextClip (Sample.label "AB")) (Sample.bounce 20 2) 2 (1920, 1080)
              eq_refl eq_refl ltac:(reflexivity))
    as (f & x0 & y0 & V & P & _ & H0 & _ & Hp & HD & _).
  exists f, x0, y0. split; [exact V|]. split; [exact P|].
  split; [exact H0|]. split; [|exact HD].
  apply Hp. reflexivity.
Defined.

(** C7 as stated fails: with height 1 and duration 6 the offset at time 1
    is 0, not [1 * |sin(pi / 6)| = 1/2]. *)
Lemma bounce_counterexample :
  (Q2R 1 * Rabs (sin (1 * PI / Q2R 6)) = 1 / 2)%R /\
  bounce_offset 1 6 1 = 0%Z /\
  IZR (bounce_offset 1 6 1) <> (Q2R 1 * Rabs (sin (1 * PI / Q2R 6)))%R.
Proof.
  assert (E : (Q2R 1 * Rabs (sin (1 * PI / Q2R 6)) = 1 / 2)%R).
  { replace (1 * PI / Q2R 6)%R with (PI / 6)%R
      by (unfold Q2R; simpl; field).
    rewrite sin_PI6. rewrite Rabs_pos_eq by Lra.lra.
    unfold Q2R; simpl; field. }
  assert (O : bounce_offset 1 6 1 = 0%Z).
  { unfold bounce_offset. rewrite E. unfold int_R.
    destruct (Rle_dec 0 (1 / 2)) as [_|N]; [|exfalso; apply N; Lra.lra].
    symmetry. apply Int_part_spec. simpl. Lra.lra. }
  split; [exact E|]. split; [exact O|].
  rewrite O, E. simpl. Lra.lra.
Qed.

(** ** The audio loop *)

Lemma audio_loop_value cat entries :
  Forall (fun a => exists r, value (audio_step cat a) = Ok r) entries ->
  forall acc,
    value (audio_loop cat entries acc) = mixed acc (resolved_tracks cat entries).
Proof.
  induction 1 as [|a rest [r Hr] _ IH]; intros acc.
  - reflexivity.
  - cbn [audio_loop]. rewrite value_bind, Hr.
    unfold resolved_tracks. cbn [flat_map]. rewrite Hr.
    destruct r as [[c added]|]; cbn [app].
    + destruct acc as [acc|].
      * cbn [value snd raise mixed]. destruct (flat_map _ rest); reflexivity.
      * rewrite value_print_then, IH. unfold resolved_tracks.
        destruct (flat_map _ rest) as [|? [|? ?]]; reflexivity.
    + apply IH.
Qed.

Lemma audio_step_track cat a c added :
  value (audio_step cat a) = Ok (Some (c, added)) ->
  exists name orig d s,
    au_asset a = Some name /\ assoc name cat = Some orig /\
    duration orig = Some d /\ au_start_time a = Some s /\
    let e' := Py.min (get_default (au_end_time a) d) d in
    let volume := get_default (au_volume a) 1 in
    s < d /\ s < e' /\
    c = Looped (Subclipped orig (from_end d s) (from_end d e')) volume /\
    added = AddedAudio name s (get_default (au_end_time a) d) volume.
Proof.
  unfold audio_step. intros H.
  destruct (au_asset a) as [name|] eqn:Ha; [|discriminate].
  destruct (assoc name cat) as [orig|] eqn:Hc; [|discriminate].
  destruct (au_start_time a) as [s|] eqn:Hs; [|discriminate].
  cbn [getitem] in H. rewrite value_bind in H. cbn [value snd ret] in H.
  unfold duration_num in H.
  destruct (duration orig) as [d|] eqn:Hd.
  - exists name, orig, d, s.
    split; [reflexivity|]. split; [exact Hc|]. split; [exact Hd|].
    split; [reflexivity|].
    assert (E : value (e <- match au_end_time a with
                            | Some e => ret e
                            | None => ret d
                            end ;;
                       audio_clip <- safe_subclip orig s e ;;
                       match audio_clip with
                       | Some audio_clip =>
                           ret (Some (Looped audio_clip
                                        (get_default (au_volume a) 1),
                                      AddedAudio name s e
                                        (get_default (au_volume a) 1)))
                       | None => print (WarnInvalidAudioRange name) ;;; ret None
                       end) = Ok (Some (c, added))) by exact H.
    clear H. rewrite value_bind in E.
    assert (Ev : value (match au_end_time a with
                        | Some e => ret e
                        | None => ret d
                        end) = Ok (get_default (au_end_time a) d))
      by (destruct (au_end_time a); reflexivity).
    rewrite Ev in E. rewrite value_bind in E.
    set (e := get_default (au_end_time a) d) in *.
    pose proof (safe_subclip_value orig d s e Hd) as S.
    destruct (Py.geb s d) eqn:G1.
    { rewrite S in E. discriminate. }
    destruct (Py.geb s (Py.min e d)) eqn:G2.
    { rewrite S in E. discriminate. }
    apply PyFacts.geb_lt in G1. apply PyFacts.geb_lt in G2.
    rewrite (subclipped_ok orig d s (Py.min e d) Hd G1 (PyFacts.min_le_r e d)) in S.
    rewrite S in E. cbn [value snd bind ret print app] in E.
    injection E as <- <-.
    split; [exact G1|]. split; [exact G2|]. split; reflexivity.
  - destruct (au_end_time a) as [e|].
    + rewrite value_bind in H. cbn [value snd ret] in H.
      rewrite value_bind in H. unfold safe_subclip in H. rewrite Hd in H.
      discriminate.
    + discriminate.
Qed.

(** C8. The audio loop never mixes two tracks.  Over entries none of which
    raises on its own: with no resolved track there is no audio; a single
    resolved track is the audio of the output; from the second resolved
    track on, the loop asks the accumulated track for [overlay], which an
    audio clip does not have, and the run ends there with
    [AttributeError].  A resolved track is the asset's range looped
    [volume] times: for a volume other than 0 it lasts [volume] times the
    length of the range, and nothing scales its loudness. *)
Theorem audio_second_track_raises (cat : catalog) (entries : list audio_entry) :
  Forall (fun a => exists r, value (audio_step cat a) = Ok r) entries ->
  let tracks := resolved_tracks cat entries in
  (tracks = [] -> value (audio_loop cat entries None) = Ok None) /\
  (forall c, tracks = [c] -> value (audio_loop cat entries None) = Ok (Some c)) /\
  (forall c1 c2 rest, tracks = c1 :: c2 :: rest ->
     value (audio_loop cat entries None) = Raise (AttributeError "overlay")) /\
  Forall (fun c => exists a name orig d s range,
            In a entries /\
            au_asset a = Some name /\ assoc name cat = Some orig /\
            duration orig = Some d /\ au_start_time a = Some s /\
            let volume := get_default (au_volume a) 1 in
            range = Subclipped orig (from_end d s)
                      (from_end d (Py.min (get_default (au_end_time a) d) d)) /\
            c = Looped range volume /\
            exists length,
              duration range = Some length /\
              (~ volume == 0 -> duration c = Some (volume * length))) tracks.
Proof.
  intros HF tracks.
  pose proof (audio_loop_value cat entries HF None) as V. fold tracks in V.
  split; [|split; [|split]].
  - intros E. rewrite V, E. reflexivity.
  - intros c E. rewrite V, E. reflexivity.
  - intros c1 c2 rest E. rewrite V, E. reflexivity.
  - apply Forall_forall. intros c Hc.
    unfold tracks, resolved_tracks in Hc. apply in_flat_map in Hc.
    destruct Hc as (a & Ha & Hc).
    destruct (value (audio_step cat a)) as [[[c' added]|]|x] eqn:E; try contradiction.
    destruct Hc as [<-|[]].
    destruct (audio_step_track cat a c' added E)
      as (name & orig & d & s & H1 & H2 & H3 & H4 & _ & _ & H5 & _).
    exists a, name, orig, d, s. eexists.
    split; [exact Ha|]. split; [exact H1|]. split; [exact H2|].
    split; [exact H3|]. split; [exact H4|].
    cbv zeta. split; [reflexivity|]. split; [exact H5|].
    eexists. split; [reflexivity|].
    intros Hv. rewrite H5. cbn [duration].
    destruct (Qeq_bool (get_default (au_volume a) 1) 0) eqn:Z; [|reflexivity].
    apply Qeq_bool_iff in Z. contradiction.
Qed.

Lemma audio_second_track_raises_witness :
  resolved_tracks Sample.one_audio
    [Sample.track "song" 0 10; Sample.track "song" 5 8] =
    [Looped (Subclipped Sample.song 0 10) 1; Looped (Subclipped Sample.song 5 8) 1] /\
  value (audio_loop Sample.one_audio
           [Sample.track "song" 0 10; Sample.track "song" 5 8] None) =
    Raise (AttributeError "overlay").
Proof.
  split; [reflexivity|].
  destruct (audio_second_track_raises Sample.one_audio
              [Sample.track "song" 0 10; Sample.track "song" 5 8])
    as (_ & _ & H & _).
  - repeat constructor; eexists; reflexivity.
  - exact (H _ _ [] eq_refl).
Defined.

(** ** The overlay loop and the draw order *)

Lemma print_duration_ok mk d :
  value (print_duration mk d) = Ok tt -> exists q, d = Some q.
Proof.
  destruct d as [q|]; [|discriminate]. intros _. exists q. reflexivity.
Qed.

(** A finished overlay layer is anchored at the overlay's [start_time] and
    has a duration. *)
Lemma overlay_finish_shape W fv o base c :
  value (overlay_finish W fv o base) = Ok c ->
  exists inner s d,
    c = WithStart inner s /\ ov_start_time o = Some s /\
    duration c = Some d /\ start c = s.
Proof.
  unfold overlay_finish. intros H.
  apply value_bind_ok in H. destruct H as (c1 & _ & H).
  apply value_bind_ok in H. destruct H as (p & _ & H).
  apply value_bind_ok in H. destruct H as (c2 & _ & H).
  apply value_bind_ok in H. destruct H as (c3 & _ & H).
  apply value_bind_ok in H. destruct H as (s & Hs & H).
  apply value_bind_ok in H. destruct H as ([] & Hd & H).
  cbn [value snd ret] in H. injection H as <-.
  apply print_duration_ok in Hd. destruct Hd as [d Hd].
  destruct (ov_start_time o) as [s'|]; [|discriminate].
  cbn [getitem value snd ret] in Hs. injection Hs as ->.
  eexists _, s, d. repeat split. exact Hd.
Qed.

Lemma overlay_step_shape W C fv o c :
  value (overlay_step W C fv o) = Ok (Some c) ->
  exists type base,
    ov_type o = Some type /\
    value (overlay_base W C o type) = Ok (Some base) /\
    value (overlay_finish W fv o base) = Ok c.
Proof.
  unfold overlay_step. intros H.
  apply value_bind_ok in H. destruct H as (type & Ht & H).
  rewrite value_print_then in H.
  apply value_bind_ok in H. destruct H as (base & Hb & H).
  destruct base as [base|]; [|discriminate].
  apply value_bind_ok in H. destruct H as (c' & Hf & H).
  cbn [value snd ret] in H. injection H as ->.
  destruct (ov_type o) as [type'|]; [|discriminate].
  cbn [getitem value snd ret] in Ht. injection Ht as ->.
  exists type, base. auto.
Qed.

Lemma overlay_loop_value W C fv overlays :
  Forall (fun o => exists r, value (overlay_step W C fv o) = Ok r) overlays ->
  forall overlay_clips,
    value (overlay_loop W C fv overlays overlay_clips) =
      Ok (overlay_clips ++ surviving W C fv overlays).
Proof.
  induction 1 as [|o rest [r Hr] _ IH]; intros acc.
  - cbn. rewrite app_nil_r. reflexivity.
  - cbn [overlay_loop]. rewrite value_bind, Hr.
    unfold surviving. cbn [flat_map]. rewrite Hr.
    destruct r as [c|]; rewrite IH.
    + rewrite <- app_assoc. reflexivity.
    + reflexivity.
Qed.

Lemma surviving_app W C fv l1 l2 :
  surviving W C fv (l1 ++ l2) = surviving W C fv l1 ++ surviving W C fv l2.
Proof. unfold surviving. apply flat_map_app. Qed.

Lemma surviving_cons_some W C fv o rest c :
  value (overlay_step W C fv o) = Ok (Some c) ->
  surviving W C fv (o :: rest) = c :: surviving W C fv rest.
Proof. intros H. unfold surviving. cbn [flat_map]. rewrite H. reflexivity. Qed.

Lemma surviving_duration W C fv overlays :
  Forall (fun c => exists d, duration c = Some d) (surviving W C fv overlays).
Proof.
  apply Forall_forall. intros c Hc. unfold surviving in Hc.
  apply in_flat_map in Hc. destruct Hc as (o & _ & Hc).
  destruct (value (overlay_step W C fv o)) as [[c'|]|x] eqn:E; try contradiction.
  destruct Hc as [<-|[]].
  destruct (overlay_step_shape W C fv o c' E) as (type & base & _ & _ & Hf).
  destruct (overlay_finish_shape W fv o base c' Hf) as (_ & _ & d & _ & _ & Hd & _).
  exists d. exact Hd.
Qed.

Lemma opt_max_fold e es :
  (exists q, e = Some q) -> Forall (fun x => exists q, x = Some q) es ->
  exists q, fold_right opt_max e es = Some q.
Proof.
  intros He HF. induction HF as [|x rest [q Hq] _ [q' IH]]; [exact He|].
  cbn [fold_right]. rewrite IH, Hq. cbn. eexists. reflexivity.
Qed.

Lemma composite_duration l :
  l <> [] -> Forall (fun c => exists d, duration c = Some d) l ->
  exists d, duration (CompositeVideoClip l) = Some d.
Proof.
  intros Hne HF. destruct l as [|c rest]; [congruence|].
  inversion HF as [|? ? [d Hd] HR]; subst.
  cbn [duration map]. apply opt_max_fold.
  - rewrite Hd. cbn. eexists. reflexivity.
  - apply Forall_forall. intros x Hx. apply in_map_iff in Hx.
    destruct Hx as (c' & <- & Hc').
    rewrite Forall_forall in HR. destruct (HR c' Hc') as [d' Hd'].
    rewrite Hd'. cbn. eexists. reflexivity.
Qed.

Lemma top_layer_from_seen covers l : forall i k0,
  exists k, top_layer_from covers l i (Some k0) = Some k /\
            (k = k0 \/ (i <= k)%nat).
Proof.
  induction l as [|c rest IH]; intros i k0; cbn [top_layer_from].
  - exists k0. auto.
  - destruct (covers c).
    + destruct (IH (S i) i) as (k & Hk & [E|H]); exists k; split; auto; right; lia.
    + destruct (IH (S i) k0) as (k & Hk & [E|H]); exists k; split; auto; right; lia.
Qed.

Lemma top_layer_from_covered covers l : forall i seen j c,
  nth_error l j = Some c -> covers c = true ->
  exists k, top_layer_from covers l i seen = Some k /\ (i + j <= k)%nat.
Proof.
  induction l as [|x rest IH]; intros i seen j c Hn Hc.
  - destruct j; discriminate.
  - cbn [top_layer_from]. destruct j as [|j].
    + cbn in Hn. injection Hn as ->. rewrite Hc.
      destruct (top_layer_from_seen covers rest (S i) i) as (k & Hk & [E|H]);
        exists k; split; auto; lia.
    + cbn in Hn.
      destruct (IH (S i) (if covers x then Some i else seen) j c Hn Hc)
        as (k & Hk & H).
      exists k. split; [exact Hk | lia].
Qed.

Lemma compose_value W C fv dv overlays :
  duration fv = Some dv ->
  Forall (fun o => exists r, value (overlay_step W C fv o) = Ok r) overlays ->
  value (compose W C fv overlays) =
    Ok (match surviving W C fv overlays with
        | [] => fv
        | clips => CompositeVideoClip (fv :: clips)
        end).
Proof.
  intros Hd HF. unfold compose. rewrite value_bind.
  rewrite (overlay_loop_value W C fv overlays HF []). cbn [app].
  pose proof (surviving_duration W C fv overlays) as HS.
  destruct (surviving W C fv overlays) as [|c rest]; [reflexivity|].
  unfold composite_overlays.
  destruct (composite_duration (fv :: c :: rest)) as [d Hc].
  - discriminate.
  - constructor; [exists dv; exact Hd | exact HS].
  - rewrite Hc. reflexivity.
Qed.

(** ** A run that gets to the end *)

Lemma make_final_video_duration clips fv :
  value (make_final_video clips) = Ok fv -> exists d, duration fv = Some d.
Proof.
  unfold make_final_video. destruct clips as [|c rest].
  - rewrite value_print_then. cbn [value snd ret]. intros H. injection H as <-.
    exists 30. reflexivity.
  - intros H. apply value_bind_ok in H. destruct H as (v & _ & H).
    apply value_bind_ok in H. destruct H as ([] & Hd & H).
    cbn [value snd ret] in H. injection H as <-.
    apply print_duration_ok in Hd. exact Hd.
Qed.

Lemma compose_duration W C fv overlays video :
  (exists d, duration fv = Some d) ->
  value (compose W C fv overlays) = Ok video -> exists d, duration video = Some d.
Proof.
  intros Hd H. unfold compose in H.
  apply value_bind_ok in H. destruct H as (clips & _ & H).
  unfold composite_overlays in H. destruct clips as [|c rest].
  - cbn [value snd ret] in H. injection H as <-. exact Hd.
  - apply value_bind_ok in H. destruct H as ([] & Hp & H).
    cbn [value snd ret] in H. injection H as <-.
    apply print_duration_ok in Hp. exact Hp.
Qed.

Lemma write_videofile_value W clip path fps codec audio_codec :
  render W clip = None ->
  value (write_videofile W clip path fps codec audio_codec) = Ok tt.
Proof.
  intros H. unfold write_videofile. rewrite value_print_then, H. reflexivity.
Qed.

Lemma close_each_value W clips :
  Forall (fun c => close W c = None) clips -> value (close_each W clips) = Ok tt.
Proof.
  induction 1 as [|c rest H _ IH]; [reflexivity|].
  cbn [close_each]. rewrite value_bind. unfold close_clip.
  rewrite value_print_then, H. cbn [value snd ret]. exact IH.
Qed.

(** When every stage of a run returns, rendering does not raise and every
    clip closes, the run writes and returns the composed video, with the
    audio track when there is one. *)
Lemma main_run W cfg C editing total mc fv overlays video audio fa :
  value (load_all W cfg) = Ok C ->
  cfg_editing cfg = Some editing ->
  value (total_duration_loop (video_assets C) editing 0) = Ok total ->
  value (main_loop W (video_assets C) editing [] 0) = Ok mc ->
  value (make_final_video (fst mc)) = Ok fv ->
  cfg_overlays cfg = Some overlays ->
  value (compose W C fv overlays) = Ok video ->
  cfg_audio cfg = Some audio ->
  value (audio_loop (audio_assets C) audio None) = Ok fa ->
  let final := match fa with Some a => WithAudio video a | None => video end in
  render W final = None ->
  Forall (fun c => close W c = None) (loaded_clips C) ->
  value (main W (Some cfg)) = Ok final /\
  In (WriteVideofile final (path_join W (script_dir W) "output_overlays.mp4")
        24 "libx264" "aac")
     (log (main W (Some cfg))).
Proof.
  intros HL He HT HM HF Ho HC Ha HA final HR HCl.
  destruct (make_final_video_duration _ _ HF) as [dv Hdv].
  destruct (compose_duration W C fv overlays video (ex_intro _ dv Hdv) HC)
    as [d Hd].
  assert (Hfd : duration final = Some d) by (unfold final; destruct fa; exact Hd).
  pose proof (write_videofile_value W final
                (path_join W (script_dir W) "output_overlays.mp4")
                24 "libx264" "aac" HR) as HW.
  pose proof (close_each_value W (loaded_clips C) HCl) as HX.
  unfold main. rewrite He, Ho, Ha. cbn [getitem].
  split.
  - rewrite value_bind, HL, bind_ret_l, value_bind, HT, value_print_then.
    rewrite bind_ret_l, value_bind, HM, value_bind, HF, bind_ret_l.
    rewrite value_bind, HC, bind_ret_l, value_bind, HA.
    cbv beta iota zeta. fold final.
    rewrite value_print_then, value_bind, Hfd. cbn [print_duration value snd print].
    rewrite value_bind, HW, value_print_then, value_bind.
    unfold close_all. fold (loaded_clips C). rewrite HX.
    reflexivity.
  - eapply log_bind_in_r; [exact HL|]. rewrite bind_ret_l.
    eapply log_bind_in_r; [exact HT|].
    eapply log_bind_in_r; [reflexivity|]. rewrite bind_ret_l.
    eapply log_bind_in_r; [exact HM|].
    eapply log_bind_in_r; [exact HF|]. rewrite bind_ret_l.
    eapply log_bind_in_r; [exact HC|]. rewrite bind_ret_l.
    eapply log_bind_in_r; [exact HA|].
    cbv beta iota zeta. fold final.
    eapply log_bind_in_r; [reflexivity|].
    eapply log_bind_in_r; [rewrite Hfd; reflexivity|].
    apply log_bind_in. unfold write_videofile. apply log_bind_in.
    left. reflexivity.
Qed.

Lemma nth_error_middle {A} (l1 l2 : list A) (x : A) :
  nth_error (l1 ++ x :: l2) (List.length l1) = Some x.
Proof.
  rewrite nth_error_app2 by lia. rewrite Nat.sub_diag. reflexivity.
Qed.

(** C9. When no overlay raises, the final composite has the main track as
    its first layer and the surviving overlays after it in declaration
    order: for surviving overlays O1 declared before O2, the layer of O1
    comes before the layer of O2, both after the main track, the same
    list for the whole run; wherever the layer of O2 has a pixel, the
    layer seen is that of O2 or of a later overlay, never that of O1; and
    a run whose other stages return writes and returns that composite,
    with the audio track when there is one. *)
Theorem draw_order_is_declaration_order (W : world) (C : catalogs)
    (final_video : Clip) (dv : Q) (overlays : list overlay_entry) :
  duration final_video = Some dv ->
  Forall (fun o => exists r, value (overlay_step W C final_video o) = Ok r)
    overlays ->
  let clips := surviving W C final_video overlays in
  let layers := final_video :: clips in
  (clips = [] -> value (compose W C final_video overlays) = Ok final_video) /\
  (clips <> [] ->
     value (compose W C final_video overlays) = Ok (CompositeVideoClip layers)) /\
  (forall cfg editing total mc audio fa,
     value (load_all W cfg) = Ok C -> cfg_editing cfg = Some editing ->
     value (total_duration_loop (video_assets C) editing 0) = Ok total ->
     value (main_loop W (video_assets C) editing [] 0) = Ok mc ->
     value (make_final_video (fst mc)) = Ok final_video ->
     cfg_overlays cfg = Some overlays -> cfg_audio cfg = Some audio ->
     value (audio_loop (audio_assets C) audio None) = Ok fa ->
     let video :=
       match clips with [] => final_video | _ => CompositeVideoClip layers end in
     let written := match fa with Some a => WithAudio video a | None => video end in
     render W written = None ->
     Forall (fun c => close W c = None) (loaded_clips C) ->
     value (main W (Some cfg)) = Ok written /\
     In (WriteVideofile written (path_join W (script_dir W) "output_overlays.mp4")
           24 "libx264" "aac")
        (log (main W (Some cfg)))) /\
  forall pre o1 mid o2 post c1 c2,
    overlays = pre ++ o1 :: mid ++ o2 :: post ->
    value (overlay_step W C final_video o1) = Ok (Some c1) ->
    value (overlay_step W C final_video o2) = Ok (Some c2) ->
    let i1 := S (List.length (surviving W C final_video pre)) in
    let i2 := (i1 + S (List.length (surviving W C final_video mid)))%nat in
    value (compose W C final_video overlays) = Ok (CompositeVideoClip layers) /\
    layers = final_video :: surviving W C final_video pre ++ c1 ::
               surviving W C final_video mid ++ c2 ::
               surviving W C final_video post /\
    nth_error layers 0 = Some final_video /\
    nth_error layers i1 = Some c1 /\
    nth_error layers i2 = Some c2 /\
    (0 < i1 < i2)%nat /\
    forall covers : Clip -> bool, covers c2 = true ->
      exists k, top_layer covers layers = Some k /\ (i2 <= k)%nat.
Proof.
  intros Hd HF clips layers.
  pose proof (compose_value W C final_video dv overlays Hd HF) as V.
  fold clips in V.
  split; [|split; [|split]].
  - intros E. rewrite V, E. reflexivity.
  - intros N. rewrite V. destruct clips; [congruence | reflexivity].
  - intros cfg editing total mc audio fa HL He HT HM HV Ho Ha HA video written
      HR HC.
    apply (main_run W cfg C editing total mc final_video overlays video audio fa);
      try assumption.
    rewrite V. unfold video, layers. destruct clips; reflexivity.
  - intros pre o1 mid o2 post c1 c2 Eo H1 H2 i1 i2.
    assert (EL : layers =
                 final_video :: surviving W C final_video pre ++ c1 ::
                   surviving W C final_video mid ++ c2 ::
                   surviving W C final_video post).
    { unfold layers, clips. rewrite Eo.
      rewrite surviving_app, (surviving_cons_some W C final_video o1 _ c1 H1).
      rewrite surviving_app, (surviving_cons_some W C final_video o2 _ c2 H2).
      reflexivity. }
    assert (N1 : nth_error layers i1 = Some c1).
    { rewrite EL. unfold i1. cbn [nth_error]. apply nth_error_middle. }
    assert (N2 : nth_error layers i2 = Some c2).
    { rewrite EL. unfold i2, i1. cbn [nth_error Nat.add].
      rewrite nth_error_app2 by lia.
      replace (List.length (surviving W C final_video pre) +
               S (List.length (surviving W C final_video mid)) -
               List.length (surviving W C final_video pre))%nat
        with (S (List.length (surviving W C final_video mid))) by lia.
      cbn [nth_error]. apply nth_error_middle. }
    split; [|split; [exact EL|split; [reflexivity|split; [exact N1|split;
      [exact N2|split; [unfold i2, i1; lia|]]]]]].
    + rewrite V. unfold layers in EL. injection EL as EL.
      destruct clips; [|reflexivity].
      destruct (surviving W C final_video pre); discriminate.
    + intros covers Hc.
      destruct (top_layer_from_covered covers layers 0 None i2 c2 N2 Hc)
        as (k & Hk & Hle).
      exists k. split; [exact Hk | lia].
Qed.

Lemma draw_order_is_declaration_order_witness :
  exists c1 c2,
    value (overlay_step Sample.empty_world Sample.no_catalogs black_background
             (Sample.caption "first" 0 5 (JStr "center"))) = Ok (Some c1) /\
    value (overlay_step Sample.empty_world Sample.no_catalogs black_background
             (Sample.caption "second" 2 7 (JStr "center"))) = Ok (Some c2) /\
    value (compose Sample.empty_world Sample.no_catalogs black_background
             [Sample.caption "first" 0 5 (JStr "center");
              Sample.caption "second" 2 7 (JStr "center")]) =
      Ok (CompositeVideoClip [black_background; c1; c2]) /\
    value (main Sample.empty_world
             (Some (Sample.plan []
                      [Sample.caption "first" 0 5 (JStr "center");
                       Sample.caption "second" 2 7 (JStr "center")] []))) =
      Ok (CompositeVideoClip [black_background; c1; c2]) /\
    forall covers : Clip -> bool, covers c2 = true ->
      exists k, top_layer covers [black_background; c1; c2] = Some k /\
                (2 <= k)%nat.
Proof.
  eexists _, _.
  split; [reflexivity|]. split; [reflexivity|].
  destruct (draw_order_is_declaration_order Sample.empty_world
              Sample.no_catalogs black_background 30
              [Sample.caption "first" 0 5 (JStr "center");
               Sample.caption "second" 2 7 (JStr "center")] eq_refl)
    as (_ & _ & R & H).
  - repeat constructor; eexists; reflexivity.
  - destruct (H [] (Sample.caption "first" 0 5 (JStr "center")) []
                (Sample.caption "second" 2 7 (JStr "center")) [] _ _
                eq_refl eq_refl eq_refl) as (V & _ & _ & _ & _ & _ & T).
    split; [exact V|]. split; [|exact T].
    destruct (R (Sample.plan []
                   [Sample.caption "first" 0 5 (JStr "center");
                    Sample.caption "second" 2 7 (JStr "center")] [])
                [] 0 ([], 0) [] None
                eq_refl eq_refl eq_refl eq_refl eq_refl eq_refl eq_refl eq_refl
                eq_refl ltac:(constructor)) as [M _].
    exact M.
Defined.

(** ** The two uses of an overlay's start time *)

Lemma safe_subclip_some clip s e c :
  value (safe_subclip clip s e) = Ok (Some c) ->
  exists d, duration clip = Some d /\ s < d /\ s < Py.min e d /\
            c = Subclipped clip (from_end d s) (from_end d (Py.min e d)).
Proof.
  intros H. destruct (duration clip) as [d|] eqn:Hd.
  - exists d. split; [reflexivity|].
    rewrite (safe_subclip_value clip d s e Hd) in H.
    destruct (Py.geb s d) eqn:G1; [discriminate|].
    destruct (Py.geb s (Py.min e d)) eqn:G2; [discriminate|].
    apply PyFacts.geb_lt in G1. apply PyFacts.geb_lt in G2.
    rewrite (subclipped_ok clip d s (Py.min e d) Hd G1 (PyFacts.min_le_r e d)) in H.
    cbn [value snd bind ret app] in H. injection H as <-. auto.
  - unfold safe_subclip in H. rewrite Hd in H. discriminate.
Qed.

Lemma subclipped_from_zero clip e c :
  value (subclipped clip 0 e) = Ok c -> exists e', c = Subclipped clip 0 e'.
Proof.
  unfold subclipped, from_end. change (Py.ltb 0 0) with false. cbv iota.
  destruct (duration clip) as [d|].
  - destruct (Py.geb 0 d); [discriminate|].
    destruct (Py.gtb _ _); [discriminate|].
    cbn [value snd ret]. intros H. injection H as <-. eexists. reflexivity.
  - cbn [value snd ret]. intros H. injection H as <-. eexists. reflexivity.
Qed.

Lemma loop_clip_from_zero clip target c :
  value (loop_clip clip target) = Ok c ->
  exists source e',
    c = Subclipped source 0 e' /\
    (source = clip \/ exists n, source = Concatenated (repeat clip n)).
Proof.
  unfold loop_clip. destruct (duration clip) as [d|]; [|discriminate].
  destruct (Py.geb d target).
  - intros H. destruct (subclipped_from_zero clip target c H) as [e' ->].
    exists clip, e'. auto.
  - destruct (Qeq_bool d 0); [discriminate|].
    intros H. apply value_bind_ok in H. destruct H as (conc & Hc & H).
    destruct (subclipped_from_zero conc target c H) as [e' ->].
    exists conc, e'. split; [reflexivity|]. right.
    exists (Z.to_nat (Py.int (target / d) + 1)).
    unfold concatenate_videoclips in Hc.
    destruct (repeat clip _) eqn:E; [discriminate|].
    cbn [value snd ret] in Hc. injection Hc as <-. reflexivity.
Qed.

(** C10 (as amended). A video overlay that survives is the range of its asset that
    [subclipped] gives for the overlay's [start_time] and the clamped
    [end_time] (from [start_time] itself when it is not negative), and the
    finished layer is anchored at that same [start_time]; a gif overlay
    that survives is always a range starting at offset 0 of its asset or
    of repeated copies of it, and is anchored at its [start_time] too. *)
Theorem overlay_start_time_two_uses (W : world) (C : catalogs)
    (final_video : Clip) (o : overlay_entry) (c : Clip) :
  value (overlay_step W C final_video o) = Ok (Some c) ->
  (ov_type o = Some "video" ->
   exists name orig d s e base inner,
     ov_asset o = Some name /\ assoc name (video_assets C) = Some orig /\
     duration orig = Some d /\
     ov_start_time o = Some s /\ ov_end_time o = Some e /\
     value (overlay_base W C o "video") = Ok (Some base) /\
     value (subclipped orig s (Py.min e d)) = Ok base /\
     base = Subclipped orig (from_end d s) (from_end d (Py.min e d)) /\
     (0 <= s -> base = Subclipped orig s (Py.min e d)) /\
     value (overlay_finish W final_video o base) = Ok c /\
     c = WithStart inner s /\ start c = s) /\
  (ov_type o = Some "gif" ->
   exists name orig s base source e' inner,
     ov_asset o = Some name /\ assoc name (gif_assets C) = Some orig /\
     ov_start_time o = Some s /\
     value (overlay_base W C o "gif") = Ok (Some base) /\
     base = Subclipped source 0 e' /\
     (source = orig \/ exists n, source = Concatenated (repeat orig n)) /\
     value (overlay_finish W final_video o base) = Ok c /\
     c = WithStart inner s /\ start c = s).
Proof.
  intros H.
  destruct (overlay_step_shape W C final_video o c H)
    as (type & base & Ht & Hb & Hf).
  destruct (overlay_finish_shape W final_video o base c Hf)
    as (inner & s & dc & Hc & Hs & _ & Hst).
  split.
  - intros Hv. rewrite Hv in Ht. injection Ht as <-.
    unfold overlay_base in Hb.
    change ("video" =? "video")%string with true in Hb. cbv iota in Hb.
    destruct (ov_asset o) as [name|] eqn:Ha; [|discriminate].
    destruct (assoc name (video_assets C)) as [orig|] eqn:Hcat; [|discriminate].
    rewrite Hs in Hb. cbn [getitem] in Hb.
    rewrite value_bind in Hb. cbn [value snd ret] in Hb.
    destruct (ov_end_time o) as [e|] eqn:He; [|discriminate].
    cbn [getitem] in Hb. rewrite value_bind in Hb. cbn [value snd ret] in Hb.
    apply value_bind_ok in Hb. destruct Hb as (r & Hr & Hb).
    destruct r as [clip|]; [|discriminate].
    cbn [value snd ret] in Hb. injection Hb as ->.
    destruct (safe_subclip_some orig s e base Hr) as (d & Hd & Hsd & Hse & Eb).
    exists name, orig, d, s, e, base, inner.
    split; [reflexivity|]. split; [exact Hcat|]. split; [exact Hd|].
    split; [exact Hs|]. split; [reflexivity|].
    split.
    { unfold overlay_base.
      change ("video" =? "video")%string with true. cbv iota.
      rewrite Ha, Hcat, Hs, He. cbn [getitem].
      rewrite value_bind. cbn [value snd ret].
      rewrite value_bind. cbn [value snd ret].
      rewrite value_bind, Hr. reflexivity. }
    split.
    { rewrite (subclipped_ok orig d s (Py.min e d) Hd Hsd (PyFacts.min_le_r e d)).
      rewrite Eb. reflexivity. }
    split; [exact Eb|]. split.
    { intros H0. rewrite Eb. rewrite !from_end_nonneg by lra. reflexivity. }
    split; [exact Hf|]. split; [exact Hc | exact Hst].
  - intros Hg. rewrite Hg in Ht. injection Ht as <-.
    pose proof Hb as Hb0.
    unfold overlay_base in Hb.
    change ("gif" =? "video")%string with false in Hb.
    change ("gif" =? "gif")%string with true in Hb. cbv iota in Hb.
    destruct (ov_asset o) as [name|] eqn:Ha; [|discriminate].
    destruct (assoc name (gif_assets C)) as [orig|] eqn:Hcat; [|discriminate].
    apply value_bind_ok in Hb. destruct Hb as (e & _ & Hb).
    apply value_bind_ok in Hb. destruct Hb as (s' & _ & Hb).
    apply value_bind_ok in Hb. destruct Hb as (od & _ & Hb).
    apply value_bind_ok in Hb. destruct Hb as (r & Hr & Hb).
    destruct r as [clip|]; [|discriminate].
    cbn [value snd ret] in Hb. injection Hb as ->.
    assert (Hz : exists source e',
               base = Subclipped source 0 e' /\
               (source = orig \/ exists n, source = Concatenated (repeat orig n))).
    { destruct (Py.gtb (e - s') od).
      - rewrite value_print_then in Hr.
        apply value_bind_ok in Hr. destruct Hr as (lc & Hl & Hr).
        cbn [value snd ret] in Hr. injection Hr as ->.
        apply (loop_clip_from_zero orig (e - s') base Hl).
      - destruct (safe_subclip_some orig 0 (e - s') base Hr)
          as (d & _ & _ & _ & Eb).
        exists orig. eexists. split; [exact Eb | left; reflexivity]. }
    destruct Hz as (source & e' & Eb & Hsrc).
    exists name, orig, s, base, source, e', inner.
    split; [reflexivity|]. split; [exact Hcat|]. split; [exact Hs|].
    split; [exact Hb0|]. split; [exact Eb|]. split; [exact Hsrc|].
    split; [exact Hf|]. split; [exact Hc | exact Hst].
Qed.

Lemma overlay_start_time_two_uses_witness :
  exists base inner,
    value (overlay_step Sample.empty_world Sample.video_catalogs black_background
             (Sample.video_overlay (Some "a") 2 6 (Some (JStr "center")))) =
      Ok (Some (WithStart inner 2)) /\
    value (overlay_base Sample.empty_world Sample.video_catalogs
             (Sample.video_overlay (Some "a") 2 6 (Some (JStr "center"))) "video") =
      Ok (Some base) /\
    base = Subclipped Sample.clip_a 2 6.
Proof.
  destruct (overlay_start_time_two_uses Sample.empty_world Sample.video_catalogs
              black_background
              (Sample.video_overlay (Some "a") 2 6 (Some (JStr "center"))) _
              eq_refl) as [H _].
  destruct (H eq_refl)
    as (name & orig & d & s & e & base & inner & Ha & Hc & Hd & Hs & He & Hb
        & _ & _ & Eb & _).
  injection Ha as <-. injection Hc as <-. injection Hd as <-.
  injection Hs as <-. injection He as <-.
  exists base. eexists. split; [reflexivity|]. split; [exact Hb|].
  apply Eb. discriminate.
Defined.

(** C10 as stated fails: a video overlay whose [start_time] is before 0 is
    anchored at its [start_time], but the range it shows does not start at
    that offset of the source, because the library counts a negative time
    from the end.  With start -4 and end -1 on an asset of 10 seconds the
    layer is anchored at -4 and shows the source from 6 to 9. *)
Lemma overlay_start_time_counterexample :
  let o := Sample.video_overlay (Some "a") (-4) (-1) (Some (JStr "center")) in
  duration Sample.clip_a = Some 10 /\
  value (overlay_base Sample.empty_world Sample.video_catalogs o "video") =
    Ok (Some (Subclipped Sample.clip_a 6 9)) /\
  Subclipped Sample.clip_a 6 9 <> Subclipped Sample.clip_a (-4) (-1) /\
  exists inner,
    value (overlay_step Sample.empty_world Sample.video_catalogs
             black_background o) = Ok (Some (WithStart inner (-4))) /\
    start (WithStart inner (-4)) = -4.
Proof.
  cbv zeta. split; [reflexivity|]. split; [reflexivity|].
  split; [intros H; discriminate H|].
  eexists. split; reflexivity.
Qed.

(** ** Skipped overlays and fatal conditions *)

Lemma overlay_base_unresolvable W C o type cat :
  asset_catalog C type = Some cat ->
  (ov_asset o = None \/
   exists name, ov_asset o = Some name /\ assoc name cat = None) ->
  exists w, overlay_base W C o type = ([w], Ok None) /\ skip_warning w.
Proof.
  unfold asset_catalog, overlay_base. intros Hcat Hun.
  destruct (type =? "video")%string.
  { injection Hcat as <-.
    destruct Hun as [Ha | (name & Ha & Hn)]; rewrite Ha; [|rewrite Hn];
      eexists; split; [reflexivity | exact I | reflexivity | exact I]. }
  destruct (type =? "gif")%string.
  { injection Hcat as <-.
    destruct Hun as [Ha | (name & Ha & Hn)]; rewrite Ha; [|rewrite Hn];
      eexists; split; [reflexivity | exact I | reflexivity | exact I]. }
  destruct (type =? "image")%string; [|discriminate].
  injection Hcat as <-.
  destruct Hun as [Ha | (name & Ha & Hn)]; rewrite Ha; [|rewrite Hn];
    eexists; split; [reflexivity | exact I | reflexivity | exact I].
Qed.

Lemma text_clip_incomplete W o d :
  (ov_color o = None \/ ov_text o = None \/ ov_font_size o = None) ->
  exists l ex, text_clip W o d = (l, Raise ex).
Proof.
  intros H. unfold text_clip.
  destruct (find_font_file W (get_default (ov_font o) "Arial.ttf")) as [fp|];
    cbn [bind print].
  - destruct (ov_color o) as [c|]; [|eexists _, _; reflexivity].
    cbn [getitem bind ret].
    destruct (color_string_to_rgb c) as [lc [col|ex]]; [|eexists _, _; reflexivity].
    destruct (ov_text o) as [t|]; [|eexists _, _; reflexivity].
    destruct (ov_font_size o) as [fs|]; [|eexists _, _; reflexivity].
    destruct H as [H|[H|H]]; discriminate.
  - destruct (ov_color o) as [c|]; [|eexists _, _; reflexivity].
    cbn [getitem bind ret].
    destruct (color_string_to_rgb c) as [lc [col|ex]]; [|eexists _, _; reflexivity].
    destruct (ov_text o) as [t|]; [|eexists _, _; reflexivity].
    destruct (ov_font_size o) as [fs|]; [|eexists _, _; reflexivity].
    destruct H as [H|[H|H]]; discriminate.
Qed.

Lemma overlay_base_text_incomplete W C o :
  text_incomplete o ->
  exists l ex, overlay_base W C o "text" = (l ++ [ErrorCreatingText ex], Ok None).
Proof.
  intros (_ & [s Hs] & [e He] & H).
  destruct (text_clip_incomplete W o (e - s) H) as (l & ex & Ht).
  exists l, ex. unfold overlay_base.
  change ("text" =? "video")%string with false.
  change ("text" =? "gif")%string with false.
  change ("text" =? "image")%string with false.
  change ("text" =? "text")%string with true. cbv iota.
  rewrite He, Hs. cbn [getitem bind ret]. rewrite Ht. reflexivity.
Qed.

Lemma overlay_step_of_base W C fv o type l :
  ov_type o = Some type -> overlay_base W C o type = (l, Ok None) ->
  overlay_step W C fv o =
    (ProcessingOverlay type (overlay_label o) :: l, Ok None).
Proof.
  intros Ht Hb. unfold overlay_step. rewrite Ht. cbn [getitem bind ret print].
  rewrite Hb. cbn. rewrite app_nil_r. reflexivity.
Qed.

Lemma overlay_loop_skip W C fv o post :
  value (overlay_step W C fv o) = Ok None ->
  forall pre overlay_clips,
    value (overlay_loop W C fv (pre ++ o :: post) overlay_clips) =
    value (overlay_loop W C fv (pre ++ post) overlay_clips).
Proof.
  intros H. induction pre as [|p pre IH]; intros acc.
  - cbn [app overlay_loop]. rewrite value_bind, H. reflexivity.
  - cbn [app overlay_loop]. rewrite !value_bind.
    destruct (value (overlay_step W C fv p)) as [[c|]|x]; [apply IH | apply IH |].
    reflexivity.
Qed.

(** C3 (as amended). A video, gif or image overlay whose [asset] field is
    missing or names an asset absent from its catalog, and a text overlay
    with both times whose [color], [text] or [font_size] is missing, is
    skipped with a warning, and the loop treats the remaining overlays as
    if the skipped one were not in the plan; an unreadable or unparsable
    plan aborts the run before anything is logged or loaded. *)
Theorem overlay_skipped_alone (W : world) (C : catalogs) (final_video : Clip)
    (o : overlay_entry) :
  unresolvable C o \/ text_incomplete o ->
  value (overlay_step W C final_video o) = Ok None /\
  (exists w, In w (log (overlay_step W C final_video o)) /\ skip_warning w) /\
  (forall pre post overlay_clips,
     value (overlay_loop W C final_video (pre ++ o :: post) overlay_clips) =
     value (overlay_loop W C final_video (pre ++ post) overlay_clips)) /\
  main W None = ([], Raise PlanUnreadable).
Proof.
  intros H.
  assert (S : exists type l w,
             overlay_step W C final_video o =
               (ProcessingOverlay type (overlay_label o) :: l, Ok None) /\
             In w l /\ skip_warning w).
  { destruct H as [(type & cat & Ht & Hcat & Hun) | Htxt].
    - destruct (overlay_base_unresolvable W C o type cat Hcat Hun) as (w & Hb & Hw).
      exists type, [w], w. split; [|split; [left; reflexivity | exact Hw]].
      apply overlay_step_of_base; assumption.
    - destruct (overlay_base_text_incomplete W C o Htxt) as (l & ex & Hb).
      exists "text", (l ++ [ErrorCreatingText ex]), (ErrorCreatingText ex).
      split; [|split; [|exact I]].
      + apply overlay_step_of_base; [apply Htxt | exact Hb].
      + apply in_or_app. right. left. reflexivity. }
  destruct S as (type & l & w & E & Hin & Hw).
  assert (V : value (overlay_step W C final_video o) = Ok None)
    by (rewrite E; reflexivity).
  split; [exact V|]. split; [|split].
  - exists w. split; [|exact Hw]. rewrite E. right. exact Hin.
  - intros pre post acc. apply overlay_loop_skip. exact V.
  - reflexivity.
Qed.

Lemma overlay_skipped_alone_witness :
  value (overlay_loop Sample.empty_world Sample.video_catalogs black_background
           [Sample.caption "first" 0 5 (JStr "center");
            Sample.video_overlay (Some "missing") 1 4 (Some (JStr "center"));
            Sample.caption "second" 2 7 (JStr "center")] []) =
  value (overlay_loop Sample.empty_world Sample.video_catalogs black_background
           [Sample.caption "first" 0 5 (JStr "center");
            Sample.caption "second" 2 7 (JStr "center")] []).
Proof.
  destruct (overlay_skipped_alone Sample.empty_world Sample.video_catalogs
              black_background
              (Sample.video_overlay (Some "missing") 1 4 (Some (JStr "center"))))
    as (_ & _ & H & _).
  - left. exists "video", [("a", Sample.clip_a)].
    split; [reflexivity|]. split; [reflexivity|].
    right. exists "missing". split; reflexivity.
  - exact (H [Sample.caption "first" 0 5 (JStr "center")]
             [Sample.caption "second" 2 7 (JStr "center")] []).
Defined.

(** C3 as stated fails: a text overlay that gives no [position] is not
    skipped; the [KeyError] ends the loop and the run of a plan that was
    read and parsed, and the overlay declared after it is never built. *)
Lemma missing_position_counterexample :
  value (overlay_step Sample.empty_world Sample.no_catalogs black_background
           (Sample.unplaced_caption "first" 0 5)) = Raise (KeyError "position") /\
  value (overlay_loop Sample.empty_world Sample.no_catalogs black_background
           [Sample.unplaced_caption "first" 0 5;
            Sample.caption "second" 2 7 (JStr "center")] []) =
    Raise (KeyError "position") /\
  value (main Sample.empty_world
           (Some (Sample.plan []
                    [Sample.unplaced_caption "first" 0 5;
                     Sample.caption "second" 2 7 (JStr "center")] []))) =
    Raise (KeyError "position") /\
  ~ In (ProcessingOverlay "text" "second")
       (log (main Sample.empty_world
               (Some (Sample.plan []
                        [Sample.unplaced_caption "first" 0 5;
                         Sample.caption "second" 2 7 (JStr "center")] [])))).
Proof.
  split; [reflexivity|]. split; [reflexivity|]. split; [reflexivity|].
  cbn. intros H.
  repeat (destruct H as [H|H]; [discriminate H|]). exact H.
Qed.

(** * Further properties *)

(** ** Locating and loading assets *)

Lemma find_audio_loop_some W base exts p :
  value (find_audio_loop W base exts) = Ok (Some p) ->
  path_exists W p = true /\ exists ext, In ext exts /\ p = (base ++ ext)%string.
Proof.
  induction exts as [|ext rest IH]; cbn [find_audio_loop]; [discriminate|].
  destruct (path_exists W (base ++ ext)) eqn:E.
  - rewrite value_print_then. cbn [value snd ret]. intros H. injection H as <-.
    split; [exact E|]. exists ext. split; [left; reflexivity | reflexivity].
  - intros H. destruct (IH H) as (Hp & ext' & Hin & Ep).
    split; [exact Hp|]. exists ext'. split; [right; exact Hin | exact Ep].
Qed.

Lemma find_audio_loop_none W base exts :
  value (find_audio_loop W base exts) = Ok None <->
  forall ext, In ext exts -> path_exists W (base ++ ext) = false.
Proof.
  induction exts as [|ext rest IH]; cbn [find_audio_loop].
  - split; [intros _ ext [] | reflexivity].
  - destruct (path_exists W (base ++ ext)) eqn:E.
    + rewrite value_print_then. cbn [value snd ret]. split; [discriminate|].
      intros H. rewrite (H ext (or_introl eq_refl)) in E. discriminate.
    + rewrite IH. split.
      * intros H ext' [<-|Hin]; [exact E | apply H; exact Hin].
      * intros H ext' Hin. apply H. right. exact Hin.
Qed.

Lemma find_audio_loop_total W base exts :
  exists r, value (find_audio_loop W base exts) = Ok r.
Proof.
  induction exts as [|ext rest IH]; cbn [find_audio_loop].
  - eexists; reflexivity.
  - destruct (path_exists W (base ++ ext)); [|exact IH].
    rewrite value_print_then. eexists; reflexivity.
Qed.

(** X1. [find_audio_file] never raises; a path it returns exists, and is
    the given path or its base name with one of the five known
    extensions; the given path is returned whenever it exists; the result
    is [None] exactly when neither the given path nor any of the five
    candidates exists. *)
Theorem find_audio_file_finds_existing (W : world) (base_path : string) :
  let base := fst (path_splitext W base_path) in
  (exists r, value (find_audio_file W base_path) = Ok r) /\
  (path_exists W base_path = true ->
     find_audio_file W base_path = ret (Some base_path)) /\
  (forall p, value (find_audio_file W base_path) = Ok (Some p) ->
     path_exists W p = true /\
     (p = base_path \/
      exists ext, In ext possible_extensions /\ p = (base ++ ext)%string)) /\
  (value (find_audio_file W base_path) = Ok None <->
     path_exists W base_path = false /\
     forall ext, In ext possible_extensions ->
       path_exists W (base ++ ext) = false).
Proof.
  intros base. unfold find_audio_file. subst base.
  destruct (path_splitext W base_path) as [base ext0]. cbn [fst].
  destruct (path_exists W base_path) eqn:E.
  - split; [eexists; reflexivity|]. split; [reflexivity|]. split.
    + cbn [value snd ret]. intros p H. injection H as <-. auto.
    + cbn [value snd ret]. split; [discriminate | intros [H _]; discriminate].
  - split; [apply find_audio_loop_total|]. split; [discriminate|]. split.
    + intros p H. destruct (find_audio_loop_some W base _ p H) as (Hp & Hx).
      split; [exact Hp | right; exact Hx].
    + rewrite find_audio_loop_none. split; [auto | intros [_ H]; exact H].
Qed.

Lemma find_audio_file_total W base_path :
  exists r, value (find_audio_file W base_path) = Ok r /\
    forall p, r = Some p -> path_exists W p = true.
Proof.
  unfold find_audio_file. destruct (path_splitext W base_path) as [base ext0].
  destruct (path_exists W base_path) eqn:E.
  - exists (Some base_path). split; [reflexivity|].
    intros p H. injection H as <-. exact E.
  - destruct (find_audio_loop_total W base possible_extensions) as [r Hr].
    exists r. split; [exact Hr|]. intros p ->.
    apply (find_audio_loop_some W base possible_extensions p Hr).
Qed.

Lemma open_clip_shape W path asset_type :
  exists l r, open_clip W path asset_type = (l, Ok r) /\
    forall c, r = Some c ->
      exists d, decode W asset_type path = Some d /\
        (c = VideoFileClip path d \/ c = AudioFileClip path d \/ c = ImageClip path).
Proof.
  unfold open_clip.
  destruct ((asset_type =? "video")%string || (asset_type =? "gif")%string).
  { destruct (decode W asset_type path) as [d|]; eexists _, _;
      (split; [reflexivity|]); intros c H; [|discriminate].
    injection H as <-. exists d. auto. }
  destruct (asset_type =? "audio")%string.
  { destruct (decode W asset_type path) as [d|]; eexists _, _;
      (split; [reflexivity|]); intros c H; [|discriminate].
    injection H as <-. exists d. auto. }
  destruct (asset_type =? "image")%string.
  { destruct (decode W asset_type path) as [d|]; eexists _, _;
      (split; [reflexivity|]); intros c H; [|discriminate].
    injection H as <-. exists d. auto. }
  eexists _, _. split; [reflexivity|]. discriminate.
Qed.

(** X2. [load_asset] never raises: a missing file or a decoder failure
    gives [None]. A clip it returns is a file clip of a path that exists
    and that the decoder opened, with the duration the decoder reported;
    for a type other than audio that path is the one asked for. *)
Theorem load_asset_never_raises (W : world) (path asset_type : string) :
  exists r, value (load_asset W path asset_type) = Ok r /\
    forall c, r = Some c ->
      exists p d,
        path_exists W p = true /\ decode W asset_type p = Some d /\
        (c = VideoFileClip p d \/ c = AudioFileClip p d \/ c = ImageClip p) /\
        ((asset_type =? "audio")%string = false -> p = path).
Proof.
  unfold load_asset. destruct (asset_type =? "audio")%string eqn:Ea.
  - destruct (find_audio_file_total W path) as (r & Hr & Hs).
    rewrite value_bind, Hr. destruct r as [p|].
    + destruct (p =? EmptyString)%string.
      * exists None. split; [reflexivity | discriminate].
      * destruct (open_clip_shape W p asset_type) as (l & r & E & H).
        exists r. rewrite E. split; [reflexivity|].
        intros c Hc. destruct (H c Hc) as (d & Hd & Hsh).
        exists p, d. pose proof (Hs p eq_refl) as Hp.
        split; [exact Hp|]. split; [exact Hd|]. split; [exact Hsh | discriminate].
    + exists None. split; [reflexivity | discriminate].
  - destruct (path_exists W path) eqn:Ep; cbn [negb].
    + destruct (open_clip_shape W path asset_type) as (l & r & E & H).
      exists r. rewrite E. split; [reflexivity|].
      intros c Hc. destruct (H c Hc) as (d & Hd & Hsh).
      exists path, d. auto.
    + exists None. split; [reflexivity | discriminate].
Qed.

Lemma first_existing_some W paths p :
  first_existing W paths = Some p -> In p paths /\ path_exists W p = true.
Proof.
  induction paths as [|q rest IH]; cbn [first_existing]; [discriminate|].
  destruct (path_exists W q) eqn:E.
  - intros H. injection H as <-. split; [left; reflexivity | exact E].
  - intros H. destruct (IH H). split; [right; assumption | assumption].
Qed.

Lemma first_existing_none W paths :
  first_existing W paths = None <-> forall p, In p paths -> path_exists W p = false.
Proof.
  induction paths as [|q rest IH]; cbn [first_existing].
  - split; [intros _ p [] | reflexivity].
  - destruct (path_exists W q) eqn:E.
    + split; [discriminate|]. intros H.
      rewrite (H q (or_introl eq_refl)) in E. discriminate.
    + rewrite IH. split.
      * intros H p [<-|Hin]; [exact E | apply H; exact Hin].
      * intros H p Hin. apply H. right. exact Hin.
Qed.

(** X3. A font path returned by [find_font_file] exists; the requested
    name itself is returned whenever it exists as a path; and when the
    requested font is found nowhere but the system has [arial.ttf], that
    default is returned. *)
Theorem find_font_file_finds_existing (W : world) (font_name : string) :
  (forall p, find_font_file W font_name = Some p -> path_exists W p = true) /\
  (path_exists W font_name = true -> find_font_file W font_name = Some font_name) /\
  (path_exists W font_name = false ->
   path_exists W ("C:/Windows/Fonts/" ++ font_name) = false ->
   path_exists W ("C:/Windows/Fonts/" ++ font_name ++ ".ttf") = false ->
   path_exists W ("C:/Windows/Fonts/" ++ font_name ++ ".ttc") = false ->
   path_exists W (path_join W (script_dir W) font_name) = false ->
   path_exists W (path_join W (script_dir W) (font_name ++ ".ttf")) = false ->
   path_exists W "C:/Windows/Fonts/arial.ttf" = true ->
   find_font_file W font_name = Some "C:/Windows/Fonts/arial.ttf").
Proof.
  split; [|split].
  - intros p. unfold find_font_file.
    destruct (first_existing W _) as [q|] eqn:E.
    + intros H. injection H as <-. apply (first_existing_some W _ q E).
    + intros H. apply (first_existing_some W _ p H).
  - intros H. unfold find_font_file. cbn [first_existing]. rewrite H. reflexivity.
  - intros H1 H2 H3 H4 H5 H6 H7. unfold find_font_file. cbn [first_existing].
    rewrite H1, H2, H3, H4, H5, H6. cbn [first_existing map String.append].
    rewrite H7. reflexivity.
Qed.

(** ** Catalogs *)

Lemma assoc_dict_set_same d key v : assoc key (dict_set d key v) = Some v.
Proof.
  induction d as [|[k v'] rest IH]; cbn [dict_set assoc].
  - rewrite String.eqb_refl. reflexivity.
  - destruct (k =? key)%string eqn:E; cbn [assoc].
    + rewrite String.eqb_refl. reflexivity.
    + rewrite E. exact IH.
Qed.

Lemma assoc_dict_set_other d key v key' :
  key' <> key -> assoc key' (dict_set d key v) = assoc key' d.
Proof.
  intros N. induction d as [|[k v'] rest IH]; cbn [dict_set assoc].
  - destruct (key =? key')%string eqn:E; [|reflexivity].
    apply String.eqb_eq in E. congruence.
  - destruct (k =? key)%string eqn:E; cbn [assoc].
    + apply String.eqb_eq in E. subst k.
      destruct (key =? key')%string eqn:E'; [|reflexivity].
      apply String.eqb_eq in E'. congruence.
    + rewrite IH. reflexivity.
Qed.

Lemma dict_set_keys d key v name :
  In name (map fst (dict_set d key v)) <-> name = key \/ In name (map fst d).
Proof.
  induction d as [|[k v'] rest IH]; cbn [dict_set map fst In].
  - intuition.
  - destruct (k =? key)%string eqn:E; cbn [map fst In].
    + apply String.eqb_eq in E. subst k. intuition.
    + rewrite IH. intuition.
Qed.

Lemma dict_set_nodup d key v :
  NoDup (map fst d) -> NoDup (map fst (dict_set d key v)).
Proof.
  induction d as [|[k v'] rest IH]; cbn [dict_set map fst]; intros H.
  - constructor; [intros [] | constructor].
  - inversion H as [|? ? Hn Hr]; subst.
    destruct (k =? key)%string eqn:E; cbn [map fst].
    + apply String.eqb_eq in E. subst k. constructor; assumption.
    + constructor; [|apply IH; exact Hr].
      rewrite dict_set_keys. intros [->|Hin]; [|contradiction].
      rewrite String.eqb_refl in E. discriminate.
Qed.

Lemma load_assets_invariant W asset_type (P : catalog -> Prop) entries :
  (forall acc v p name c,
     P acc -> In v entries -> ae_path v = Some p -> ae_name v = Some name ->
     value (load_asset W (path_join W (script_dir W) p) asset_type) = Ok (Some c) ->
     P (dict_set acc name c)) ->
  forall acc cat,
    P acc -> value (load_assets W asset_type entries acc) = Ok cat -> P cat.
Proof.
  induction entries as [|v rest IH]; intros Hstep acc cat Hacc H.
  - cbn in H. injection H as <-. exact Hacc.
  - cbn [load_assets] in H.
    apply value_bind_ok in H. destruct H as (p & Hp & H).
    apply value_bind_ok in H. destruct H as (r & Hr & H).
    assert (Hrest : forall acc v' p name c,
               P acc -> In v' rest -> ae_path v' = Some p ->
               ae_name v' = Some name ->
               value (load_asset W (path_join W (script_dir W) p) asset_type) =
                 Ok (Some c) ->
               P (dict_set acc name c)).
    { intros acc' v' p' name' c' Ha Hin. apply Hstep; [exact Ha | right; exact Hin]. }
    destruct (ae_path v) as [p'|] eqn:Epath; [|discriminate].
    cbn [getitem value snd ret] in Hp. injection Hp as <-.
    destruct r as [c|].
    + apply value_bind_ok in H. destruct H as (name & Hn & H).
      apply value_bind_ok in H. destruct H as (u & _ & H).
      destruct (ae_name v) as [name'|] eqn:Ename; [|discriminate].
      cbn [getitem value snd ret] in Hn. injection Hn as <-.
      apply (IH Hrest (dict_set acc name' c) cat); [|exact H].
      apply (Hstep acc v p' name' c); auto. left. reflexivity.
    + apply (IH Hrest acc cat Hacc H).
Qed.

(** X4. A catalog is a dictionary: after [d[key] = v] the key maps to
    [v] and every other key maps to what it did; names stay unique. The
    loading loop keeps names unique, and every clip of the catalog it
    returns was either there before or returned by [load_asset] for an
    entry of the plan declared under that name: an asset that does not
    load is never in the catalog. *)
Theorem load_assets_catalog (W : world) (asset_type : string)
    (entries : list asset_entry) (acc cat : catalog) :
  value (load_assets W asset_type entries acc) = Ok cat ->
  NoDup (map fst acc) ->
  NoDup (map fst cat) /\
  (forall name c, assoc name cat = Some c ->
     assoc name acc = Some c \/
     exists v p, In v entries /\ ae_name v = Some name /\ ae_path v = Some p /\
       value (load_asset W (path_join W (script_dir W) p) asset_type) = Ok (Some c)) /\
  (forall (d : catalog) key v key',
     assoc key (dict_set d key v) = Some v /\
     (key' <> key -> assoc key' (dict_set d key v) = assoc key' d)).
Proof.
  intros H Hnd. split; [|split].
  - apply (load_assets_invariant W asset_type (fun c => NoDup (map fst c)) entries)
      with (acc := acc); [|exact Hnd | exact H].
    intros acc' v p name c Ha _ _ _ _. apply dict_set_nodup. exact Ha.
  - apply (load_assets_invariant W asset_type
             (fun cat => forall name c, assoc name cat = Some c ->
                assoc name acc = Some c \/
                exists v p, In v entries /\ ae_name v = Some name /\
                  ae_path v = Some p /\
                  value (load_asset W (path_join W (script_dir W) p) asset_type) =
                    Ok (Some c)) entries)
      with (acc := acc); [|auto | exact H].
    intros acc' v p name c Ha Hin Hp Hn Hl name' c' Hc'.
    destruct (string_dec name' name) as [->|N].
    + rewrite assoc_dict_set_same in Hc'. injection Hc' as <-.
      right. exists v, p. auto.
    + rewrite (assoc_dict_set_other acc' name c name' N) in Hc'.
      apply Ha. exact Hc'.
  - intros d key v key'. split;
      [apply assoc_dict_set_same | apply assoc_dict_set_other].
Qed.

Lemma load_assets_catalog_witness :
  value (load_assets Sample.studio "video"
           [Sample.asset "a" "a.mp4"; Sample.asset "b" "missing.mp4"] []) =
    Ok [("a", VideoFileClip "/srv/editor/a.mp4" 10)] /\
  NoDup (map fst [("a", VideoFileClip "/srv/editor/a.mp4" 10)]).
Proof.
  split; [reflexivity|].
  destruct (load_assets_catalog Sample.studio "video"
              [Sample.asset "a" "a.mp4"; Sample.asset "b" "missing.mp4"] []
              [("a", VideoFileClip "/srv/editor/a.mp4" 10)] eq_refl)
    as [H _]; [constructor | exact H].
Defined.

(** ** Colours *)

Lemma int16_raises s e : value (int16 s) = Raise e -> e = ValueError "int".
Proof.
  unfold int16.
  destruct s as [|a [|b [|c r]]]; cbn; try (intros H; injection H as <-; reflexivity).
  destruct (hex_digit a), (hex_digit b); cbn; try discriminate;
    repeat match goal with
           | |- context [if ?b then _ else _] => destruct b; cbn
           end;
    try discriminate; intros H; injection H as <-; reflexivity.
Qed.

Lemma hash_of_code c : (nat_of_ascii c =? 35)%nat = true -> c = "#"%char.
Proof.
  intros H. apply Nat.eqb_eq in H.
  rewrite <- (ascii_nat_embedding c), H. reflexivity.
Qed.

(** X5. [color_string_to_rgb] raises only a [ValueError], and only for a
    string made of [#] and six further characters; a name of the table is
    recognised whatever its case, without a warning; any other string that
    is not [#] and six characters gives white, with one warning. *)
Theorem color_string_to_rgb_errors (color_string : string) :
  (forall e, value (color_string_to_rgb color_string) = Raise e ->
     e = ValueError "int" /\
     exists h, color_string = String "#" h /\ String.length h = 6%nat) /\
  (forall c, assoc (lower color_string) color_map = Some c ->
     color_string_to_rgb color_string = ret c) /\
  (assoc (lower color_string) color_map = None ->
   (forall h, color_string = String "#" h -> String.length h <> 6%nat) ->
   color_string_to_rgb color_string =
     ([WarnColorNotRecognized color_string], Ok (255, 255, 255)%Z)).
Proof.
  unfold color_string_to_rgb. split; [|split].
  - intros e. destruct (assoc (lower color_string) color_map); [discriminate|].
    destruct color_string as [|c h]; [discriminate|].
    destruct (nat_of_ascii c =? 35)%nat eqn:Ec; [|discriminate].
    destruct (String.length h =? 6)%nat eqn:El; [|discriminate].
    apply hash_of_code in Ec. apply Nat.eqb_eq in El. subst c.
    intros H. split; [|exists h; auto].
    rewrite value_bind in H.
    destruct (value (int16 (substring 0 2 h))) eqn:E1;
      [|injection H as <-; apply (int16_raises _ _ E1)].
    rewrite value_bind in H.
    destruct (value (int16 (substring 2 2 h))) eqn:E2;
      [|injection H as <-; apply (int16_raises _ _ E2)].
    rewrite value_bind in H.
    destruct (value (int16 (substring 4 2 h))) eqn:E3;
      [discriminate | injection H as <-; apply (int16_raises _ _ E3)].
  - intros c H. rewrite H. reflexivity.
  - intros H N. rewrite H.
    destruct color_string as [|c h]; [reflexivity|].
    destruct (nat_of_ascii c =? 35)%nat eqn:Ec; [|reflexivity].
    destruct (String.length h =? 6)%nat eqn:El; [|reflexivity].
    apply hash_of_code in Ec. apply Nat.eqb_eq in El. subst c.
    exfalso. apply (N h eq_refl El).
Qed.

Lemma hex_digit_bound c v : hex_digit c = Some v -> (0 <= v <= 15)%Z.
Proof.
  unfold hex_digit.
  destruct ((48 <=? nat_of_ascii c)%nat && (nat_of_ascii c <=? 57)%nat) eqn:E1.
  { apply andb_true_iff in E1. destruct E1 as [A B].
    apply Nat.leb_le in A. apply Nat.leb_le in B.
    intros H. injection H as <-. lia. }
  destruct ((97 <=? nat_of_ascii c)%nat && (nat_of_ascii c <=? 102)%nat) eqn:E2.
  { apply andb_true_iff in E2. destruct E2 as [A B].
    apply Nat.leb_le in A. apply Nat.leb_le in B.
    intros H. injection H as <-. lia. }
  destruct ((65 <=? nat_of_ascii c)%nat && (nat_of_ascii c <=? 70)%nat) eqn:E3;
    [|discriminate].
  apply andb_true_iff in E3. destruct E3 as [A B].
  apply Nat.leb_le in A. apply Nat.leb_le in B.
  intros H. injection H as <-. lia.
Qed.

(** X6. For [#] followed by six hexadecimal digits (either case)
    [color_string_to_rgb] returns, without a warning, the three pairs read
    as base-16 numbers, each between 0 and 255. *)
Theorem color_string_to_rgb_hex (a b c d e f : ascii) (va vb vc vd ve vf : Z) :
  hex_digit a = Some va -> hex_digit b = Some vb ->
  hex_digit c = Some vc -> hex_digit d = Some vd ->
  hex_digit e = Some ve -> hex_digit f = Some vf ->
  color_string_to_rgb
    (String "#" (String a (String b (String c (String d (String e
       (String f EmptyString))))))) =
    ret (16 * va + vb, 16 * vc + vd, 16 * ve + vf)%Z /\
  (0 <= 16 * va + vb <= 255)%Z /\ (0 <= 16 * vc + vd <= 255)%Z /\
  (0 <= 16 * ve + vf <= 255)%Z.
Proof.
  intros Ha Hb Hc Hd He Hf.
  pose proof (hex_digit_bound a va Ha). pose proof (hex_digit_bound b vb Hb).
  pose proof (hex_digit_bound c vc Hc). pose proof (hex_digit_bound d vd Hd).
  pose proof (hex_digit_bound e ve He). pose proof (hex_digit_bound f vf Hf).
  split; [|lia].
  unfold color_string_to_rgb.
  change (assoc (lower (String "#" (String a (String b (String c (String d
            (String e (String f EmptyString))))))))
            color_map) with (@None rgb).
  cbn [nat_of_ascii String.length Nat.eqb substring int16].
  change (nat_of_ascii "#" =? 35)%nat with true. cbv iota.
  unfold int16. rewrite Ha, Hb, Hc, Hd, He, Hf. reflexivity.
Qed.

Lemma color_string_to_rgb_hex_witness :
  color_string_to_rgb "#FFa500" = ret (255, 165, 0)%Z.
Proof.
  destruct (color_string_to_rgb_hex "F" "F" "a" "5" "0" "0" 15 15 10 5 0 0
              eq_refl eq_refl eq_refl eq_refl eq_refl eq_refl) as [H _].
  exact H.
Defined.

(** ** Effects *)

(** X7. Effects compose: applying a list of effects followed by a second
    list is applying the first list and then the second to its result,
    with the same warnings in the same order and the same exception, if
    any. *)
Theorem apply_effects_app (W : world) (clip : Clip) (l1 l2 : list effect_cfg) :
  apply_effects W clip (l1 ++ l2) =
    (c <- apply_effects W clip l1 ;; apply_effects W c l2).
Proof.
  revert clip. induction l1 as [|e rest IH]; intros clip; cbn [app apply_effects].
  - rewrite bind_ret_l. reflexivity.
  - rewrite bind_assoc. apply bind_ext. intros c. apply IH.
Qed.






(** ** Animations in the overlay loop *)

Lemma apply_effect_result W clip effect c :
  value (apply_effect W clip effect) = Ok c ->
  c = clip \/ (exists e, c = WithEffects clip e) \/
  (exists l, c = CompositeVideoClip l).
Proof.
  unfold apply_effect. intros V.
  apply value_bind_ok in V. destruct V as (type & _ & V).
  destruct (type =? "fadein")%string.
  { apply value_bind_ok in V. destruct V as (d & _ & V).
    cbn [value snd ret] in V. injection V as <-. right. left. eexists. reflexivity. }
  destruct (type =? "fadeout")%string.
  { apply value_bind_ok in V. destruct V as (d & _ & V).
    cbn [value snd ret] in V. injection V as <-. right. left. eexists. reflexivity. }
  destruct (type =? "glow")%string.
  { apply value_bind_ok in V. destruct V as (col & _ & V).
    apply value_bind_ok in V. destruct V as (rgbv & _ & V).
    cbn [value snd ret] in V. injection V as <-. right. right. eexists. reflexivity. }
  destruct (type =? "outline")%string.
  { destruct (text_of clip) as [t|].
    - apply value_bind_ok in V. destruct V as (col & _ & V).
      apply value_bind_ok in V. destruct V as (rgbv & _ & V).
      cbn [value snd ret] in V. injection V as <-.
      right. right. eexists. reflexivity.
    - cbn [value snd ret] in V. injection V as <-. left. reflexivity. }
  destruct (type =? "shadow")%string.
  { destruct (text_of clip) as [t|].
    - apply value_bind_ok in V. destruct V as (col & _ & V).
      apply value_bind_ok in V. destruct V as (x0 & _ & V).
      apply value_bind_ok in V. destruct V as (x & _ & V).
      apply value_bind_ok in V. destruct V as (y0 & _ & V).
      apply value_bind_ok in V. destruct V as (y & _ & V).
      cbn [value snd ret] in V. injection V as <-.
      right. right. eexists. reflexivity.
    - cbn [value snd ret] in V. injection V as <-. left. reflexivity. }
  cbn [value snd ret] in V. injection V as <-. left. reflexivity.
Qed.

Lemma apply_effects_keep W (P : Clip -> Prop) :
  (forall c e, P c -> P (WithEffects c e)) ->
  (forall l, P (CompositeVideoClip l)) ->
  forall effects clip c,
    P clip -> value (apply_effects W clip effects) = Ok c -> P c.
Proof.
  intros Hfx Hcomp. induction effects as [|e rest IH]; intros clip c Hp V.
  - cbn in V. injection V as <-. exact Hp.
  - cbn [apply_effects] in V. apply value_bind_ok in V.
    destruct V as (c1 & V1 & V). apply (IH c1 c); [|exact V].
    destruct (apply_effect_result W clip e c1 V1) as [->|[[x ->]|[l ->]]]; auto.
Qed.

Lemma apply_effects_tuple_pos W effects clip c :
  tuple_pos clip -> value (apply_effects W clip effects) = Ok c -> tuple_pos c.
Proof.
  apply (apply_effects_keep W tuple_pos).
  - intros c0 e H. exact H.
  - intros l. exists (Num 0), (Num 0). reflexivity.
Qed.

Lemma apply_effects_no_text W effects clip c :
  text_of clip = None -> value (apply_effects W clip effects) = Ok c ->
  text_of c = None.
Proof.
  apply (apply_effects_keep W (fun c => text_of c = None)).
  - intros c0 e H. exact H.
  - reflexivity.
Qed.

Lemma overlay_finish_stages W fv o base c :
  value (overlay_finish W fv o base) = Ok c ->
  exists sized p styled animated s,
    (sized = base \/ exists w h, sized = Resized base w h) /\
    ov_position o = Some p /\
    value (match ov_effects o with
           | Some effects => apply_effects W (placed W fv o sized p) effects
           | None => ret (placed W fv o sized p)
           end) = Ok styled /\
    value (match ov_animation o with
           | Some animation => apply_animation W styled animation (size_of W fv)
           | None => ret styled
           end) = Ok animated /\
    ov_start_time o = Some s /\ c = WithStart animated s.
Proof.
  unfold overlay_finish. intros H.
  apply value_bind_ok in H. destruct H as (sized & Hsz & H).
  apply value_bind_ok in H. destruct H as (p & Hp & H).
  apply value_bind_ok in H. destruct H as (styled & Hst & H).
  apply value_bind_ok in H. destruct H as (animated & Han & H).
  apply value_bind_ok in H. destruct H as (s & Hs & H).
  apply value_bind_ok in H. destruct H as ([] & _ & H).
  cbn [value snd ret] in H. injection H as <-.
  exists sized, p, styled, animated, s.
  split.
  { destruct (ov_size o) as [size|].
    - apply value_bind_ok in Hsz. destruct Hsz as (sw & _ & Hsz).
      apply value_bind_ok in Hsz. destruct Hsz as (sh & _ & Hsz).
      cbn [value snd ret] in Hsz. injection Hsz as <-.
      right. eexists _, _. reflexivity.
    - cbn [value snd ret] in Hsz. injection Hsz as <-. left. reflexivity. }
  destruct (ov_position o) as [p'|]; [|discriminate].
  cbn [getitem value snd ret] in Hp. injection Hp as <-.
  destruct (ov_start_time o) as [s'|]; [|discriminate].
  cbn [getitem value snd ret] in Hs. injection Hs as <-.
  split; [reflexivity|]. split; [exact Hst|]. split; [exact Han|].
  split; reflexivity.
Qed.

Lemma placed_tuple_pos W fv o sized p : tuple_pos (placed W fv o sized p).
Proof.
  unfold placed, tuple_pos. destruct (ov_opacity o); eexists _, _; reflexivity.
Qed.

Lemma styled_tuple_pos W fv o sized p styled :
  value (match ov_effects o with
         | Some effects => apply_effects W (placed W fv o sized p) effects
         | None => ret (placed W fv o sized p)
         end) = Ok styled ->
  tuple_pos styled.
Proof.
  destruct (ov_effects o) as [effects|].
  - apply apply_effects_tuple_pos. apply placed_tuple_pos.
  - cbn [value snd ret]. intros H. injection H as <-. apply placed_tuple_pos.
Qed.

(** X9. In the overlay loop a bounce animation does not start from the
    position the overlay declares: whatever [position], size, opacity and
    effects the overlay has, the finished layer is placed by a bounce
    function based at the centre of the frame, so at every time it is
    horizontally centred and its height is half the frame height minus
    the truncated offset. *)
Theorem bounce_starts_from_frame_centre (W : world) (final_video : Clip)
    (o : overlay_entry) (base c : Clip) (animation : animation_cfg) :
  ov_animation o = Some animation -> an_type animation = Some "bounce" ->
  value (overlay_finish W final_video o base) = Ok c ->
  let video_h := snd (size_of W final_video) in
  exists inner s,
    ov_start_time o = Some s /\
    c = WithStart
          (WithPosition inner (PFun (BouncePos (Center, Center) video_h animation)))
          s /\
    forall D t, an_duration animation = Some D -> ~ D == 0 ->
      call_posfun (BouncePos (Center, Center) video_h animation) t =
        Ok (RCenter,
            RNum (Q2R video_h * (1 / 2) -
                  IZR (bounce_offset (get_default (an_height animation) 20%Q) D t))%R).
Proof.
  intros Ha Ht H video_h.
  destruct (overlay_finish_stages W final_video o base c H)
    as (sized & p & styled & animated & s & _ & _ & Hst & Han & Hs & ->).
  destruct (styled_tuple_pos W final_video o sized p styled Hst) as (x & y & Hp).
  rewrite Ha in Han. unfold apply_animation in Han. rewrite Ht in Han.
  cbn [getitem] in Han. rewrite bind_ret_l in Han.
  change ("bounce" =? "bounce")%string with true in Han. cbv iota in Han.
  rewrite Hp in Han. cbn [parse_position value snd ret] in Han.
  injection Han as <-.
  exists styled, s. split; [exact Hs|]. split; [reflexivity|].
  intros D t HD Hz. cbn [call_posfun]. unfold bounce_pos. rewrite HD.
  destruct (Qeq_bool D 0) eqn:E; [apply Qeq_bool_iff in E; contradiction|].
  reflexivity.
Qed.

Lemma bounce_starts_from_frame_centre_witness :
  exists inner s,
    value (overlay_finish Sample.empty_world black_background
             {| ov_type := Some "text"; ov_asset := None; ov_text := Some "AB";
                ov_start_time := Some 3; ov_end_time := Some 5;
                ov_position := Some (JStr "top-left"); ov_size := None;
                ov_opacity := None; ov_effects := None;
                ov_animation := Some (Sample.bounce 20 2); ov_font := None;
                ov_font_size := Some 48; ov_color := Some "white";
                ov_background := None |}
             (WithDuration (TextClip (Sample.label "AB")) (Some 2))) =
      Ok (WithStart
            (WithPosition inner
               (PFun (BouncePos (Center, Center) 1080 (Sample.bounce 20 2)))) s).
Proof.
  destruct (bounce_starts_from_frame_centre Sample.empty_world black_background
              {| ov_type := Some "text"; ov_asset := None; ov_text := Some "AB";
                 ov_start_time := Some 3; ov_end_time := Some 5;
                 ov_position := Some (JStr "top-left"); ov_size := None;
                 ov_opacity := None; ov_effects := None;
                 ov_animation := Some (Sample.bounce 20 2); ov_font := None;
                 ov_font_size := Some 48; ov_color := Some "white";
                 ov_background := None |}
              (WithDuration (TextClip (Sample.label "AB")) (Some 2)) _
              (Sample.bounce 20 2) eq_refl eq_refl eq_refl)
    as (inner & s & Hs & Hc & _).
  exists inner, s. exact (f_equal (@Ok Clip) Hc).
Defined.

Lemma scaled_le t w d :
  (0 < d)%R -> (0 <= w)%R -> (t <= d)%R -> (t * w / d <= w)%R.
Proof.
  intros Hd Hw Ht.
  replace w with (d * w / d)%R at 2 by (field; Lra.lra).
  unfold Rdiv. apply Rmult_le_compat_r.
  - apply Rlt_le. apply Rinv_0_lt_compat. exact Hd.
  - apply Rmult_le_compat_r; assumption.
Qed.

(** X10. A scroll animation of duration [D > 0] moves a clip of width [w]
    at constant height and constant speed [w / D]. From left to right it
    starts at [x = -w], reaches [x = 0] at time [D] and is never right of
    0 before. From right to left it starts at [x = frame width + w] and
    reaches [x = frame width] at time [D]: up to then the clip's left
    edge is never left of the frame's right edge. *)
Theorem scroll_traverses (W : world) (clip : Clip) (animation : animation_cfg)
    (D : Q) (video_size : Q * Q) (direction : string) :
  an_type animation = Some "scroll" -> an_duration animation = Some D ->
  0 < D -> an_direction animation = Some direction ->
  let w := Q2R (fst (size_of W clip)) in
  let fw := Q2R (fst video_size) in
  (direction = "left_to_right" ->
   exists f y,
     value (apply_animation W clip animation video_size) =
       Ok (WithPosition clip (PFun f)) /\
     (forall t, call_posfun f t =
                  Ok (RNum (- w + t * w / Q2R D)%R, RNum y)) /\
     (- w + 0 * w / Q2R D = - w)%R /\
     (- w + Q2R D * w / Q2R D = 0)%R /\
     (forall t1 t2,
        (- w + t2 * w / Q2R D) - (- w + t1 * w / Q2R D) =
        (t2 - t1) * (w / Q2R D))%R /\
     ((0 <= w)%R -> forall t, (t <= Q2R D)%R -> (- w + t * w / Q2R D <= 0)%R)) /\
  (direction = "right_to_left" ->
   exists f y,
     value (apply_animation W clip animation video_size) =
       Ok (WithPosition clip (PFun f)) /\
     (forall t, call_posfun f t =
                  Ok (RNum (fw + w - t * w / Q2R D)%R, RNum y)) /\
     (fw + w - 0 * w / Q2R D = fw + w)%R /\
     (fw + w - Q2R D * w / Q2R D = fw)%R /\
     (forall t1 t2,
        (fw + w - t2 * w / Q2R D) - (fw + w - t1 * w / Q2R D) =
        - ((t2 - t1) * (w / Q2R D)))%R /\
     ((0 <= w)%R -> forall t, (t <= Q2R D)%R -> (fw <= fw + w - t * w / Q2R D)%R)).
Proof.
  intros Ht Hd Hpos Hdir w fw.
  pose proof (Q2R_pos D Hpos) as HD.
  assert (Hz : Qeq_bool D 0 = false).
  { destruct (Qeq_bool D 0) eqn:E; [|reflexivity].
    apply Qeq_bool_iff in E. Lqa.lra. }
  set (original_y :=
         match snd (parse_position (pos clip) video_size) with
         | Num y => y
         | Center => snd video_size * (1 # 2)
         end).
  split; intros ->.
  - exists (ScrollLeftToRight (fst (size_of W clip)) animation original_y),
           (Q2R original_y).
    split; [|split; [|split; [|split; [|split]]]].
    + unfold apply_animation. rewrite Ht, Hdir. reflexivity.
    + intros t. cbn [call_posfun]. unfold scroll_pos. rewrite Hd, Hz. reflexivity.
    + unfold Rdiv. ring.
    + field. Lra.lra.
    + intros t1 t2. field. Lra.lra.
    + intros Hw t Hle. pose proof (scaled_le t w (Q2R D) HD Hw Hle). Lra.lra.
  - exists (ScrollRightToLeft (fst video_size) (fst (size_of W clip)) animation
              original_y), (Q2R original_y).
    split; [|split; [|split; [|split; [|split]]]].
    + unfold apply_animation. rewrite Ht, Hdir. reflexivity.
    + intros t. cbn [call_posfun]. unfold scroll_pos. rewrite Hd, Hz. reflexivity.
    + unfold Rdiv. ring.
    + field. Lra.lra.
    + intros t1 t2. field. Lra.lra.
    + intros Hw t Hle. pose proof (scaled_le t w (Q2R D) HD Hw Hle). Lra.lra.
Qed.

Lemma scroll_traverses_witness :
  exists f y,
    value (apply_animation Sample.studio Sample.clip_a
             (Sample.scroll "left_to_right" 4) (1920, 1080)) =
      Ok (WithPosition Sample.clip_a (PFun f)) /\
    forall t, call_posfun f t =
                Ok (RNum (- Q2R 1920 + t * Q2R 1920 / Q2R 4)%R, RNum y).
Proof.
  destruct (scroll_traverses Sample.studio Sample.clip_a
              (Sample.scroll "left_to_right" 4) 4 (1920, 1080) "left_to_right"
              eq_refl eq_refl ltac:(reflexivity) eq_refl) as [H _].
  destruct (H eq_refl) as (f & y & V & P & _).
  exists f, y. split; [exact V | exact P].
Defined.

(** ** Text overlays *)

Lemma text_clip_shape W o d base :
  value (text_clip W o d) = Ok base ->
  (ov_background o <> None -> text_of base = None) /\
  (ov_background o = None ->
   exists t, ov_text o = Some (txt t) /\
             base = WithDuration (TextClip t) (Some d)).
Proof.
  unfold text_clip. intros V.
  apply value_bind_ok in V. destruct V as ([] & _ & V).
  apply value_bind_ok in V. destruct V as (c & _ & V).
  apply value_bind_ok in V. destruct V as (col & _ & V).
  apply value_bind_ok in V. destruct V as (text & Ht & V).
  apply value_bind_ok in V. destruct V as (fs & _ & V).
  destruct (ov_text o) as [text'|]; [|discriminate].
  cbn [getitem value snd ret] in Ht. injection Ht as <-.
  destruct (ov_background o) as [bg|].
  - apply value_bind_ok in V. destruct V as (bc & _ & V).
    apply value_bind_ok in V. destruct V as (bgc & _ & V).
    apply value_bind_ok in V. destruct V as (op & _ & V).
    cbn [value snd ret] in V. injection V as <-.
    split; [reflexivity | discriminate].
  - cbn [value snd ret] in V. injection V as <-.
    split; [congruence|]. intros _. eexists. split; cycle 1; reflexivity.
Qed.

(** X11. A text overlay drawn on a background box is a composite and no
    longer a text clip: its typewriter animation, whatever its size,
    opacity and effects, is the fade-in of the whole overlay over the
    animation's duration, not a reveal character by character. *)
Theorem boxed_text_fades_in (W : world) (final_video : Clip) (o : overlay_entry)
    (d : Q) (base c : Clip) (animation : animation_cfg) (D : Q) :
  value (text_clip W o d) = Ok base -> ov_background o <> None ->
  ov_animation o = Some animation ->
  an_type animation = Some "typewriter" -> an_duration animation = Some D ->
  value (overlay_finish W final_video o base) = Ok c ->
  text_of base = None /\
  exists inner s,
    ov_start_time o = Some s /\ c = WithStart (WithEffects inner (FadeIn D)) s.
Proof.
  intros Hb Hbg Ha Ht Hd H.
  destruct (text_clip_shape W o d base Hb) as [Hnone _].
  pose proof (Hnone Hbg) as Hn. split; [exact Hn|].
  destruct (overlay_finish_stages W final_video o base c H)
    as (sized & p & styled & animated & s & Hsz & _ & Hst & Han & Hs & ->).
  assert (Hp : text_of (placed W final_video o sized p) = None).
  { unfold placed. destruct (ov_opacity o); cbn [text_of];
      destruct Hsz as [->|(w & h & ->)]; exact Hn. }
  assert (Hs' : text_of styled = None).
  { destruct (ov_effects o) as [effects|].
    - apply (apply_effects_no_text W effects _ styled Hp Hst).
    - cbn [value snd ret] in Hst. injection Hst as <-. exact Hp. }
  rewrite Ha in Han.
  rewrite (apply_animation_typewriter W styled animation D _ Ht Hd) in Han.
  unfold create_typewriter_effect in Han. rewrite Hs' in Han.
  cbn [value snd ret] in Han. injection Han as <-.
  exists styled, s. split; [exact Hs | reflexivity].
Qed.

Lemma boxed_text_fades_in_witness :
  exists base inner s,
    value (text_clip Sample.empty_world Sample.boxed_caption 2) = Ok base /\
    value (overlay_finish Sample.empty_world black_background
             Sample.boxed_caption base) =
      Ok (WithStart (WithEffects inner (FadeIn 2)) s).
Proof.
  eexists. 
  destruct (boxed_text_fades_in Sample.empty_world black_background
              Sample.boxed_caption 2 _ _ (Sample.typewriter 2) 2
              eq_refl ltac:(discriminate) eq_refl eq_refl eq_refl eq_refl)
    as (_ & inner & s & _ & Hc).
  exists inner, s. split; [reflexivity|]. exact (f_equal (@Ok Clip) Hc).
Defined.

(** ** The advisory total and the main track *)

Lemma min_shift e d s : Py.min (e - s) (d - s) = Py.min e d - s.
Proof.
  unfold Py.min.
  destruct (Py.ltb d e) eqn:E1, (Py.ltb (d - s) (e - s)) eqn:E2; try reflexivity.
  - apply PyFacts.ltb_lt in E1. apply PyFacts.ltb_ge in E2. lra.
  - apply PyFacts.ltb_ge in E1. apply PyFacts.ltb_lt in E2. lra.
Qed.

Lemma min_start_kept s d : s <= d - (1 # 10) -> Py.min s (d - (1 # 10)) = s.
Proof.
  intros H. unfold Py.min. rewrite PyFacts.ltb_false_of_le; auto.
Qed.

Lemma plain_edit_step W vids edit :
  plain_edit vids edit ->
  exists orig d s e,
    duration orig = Some d /\ s < Py.min e d /\
    ed_asset edit <> None /\
    value (edit_step W vids edit) = Ok (Some (Subclipped orig s (Py.min e d))) /\
    forall rest total,
      value (total_duration_loop vids (edit :: rest) total) =
        value (total_duration_loop vids rest (total + (Py.min e d - s))).
Proof.
  intros (name & orig & d & s & e & Ha & Hc & Hd & Hs & He & H0 & Hsd & Hse & Hfx).
  exists orig, d, s, e.
  assert (Hlt : s < Py.min e d).
  { destruct (PyFacts.min_cases e d) as [[_ ->]|[_ ->]]; lra. }
  split; [exact Hd|]. split; [exact Hlt|]. split; [congruence|]. split.
  - rewrite (edit_step_value W vids edit name orig d s e Ha Hc Hd Hs He).
    rewrite (safe_subclip_clamped orig d s e Hd).
    rewrite (min_start_kept s d Hsd).
    rewrite (PyFacts.geb_false_of_lt _ _ Hlt).
    rewrite (subclipped_inside orig d s (Py.min e d) Hd H0); try lra;
      [|apply PyFacts.min_le_r].
    cbn [value snd bind ret app duration].
    destruct Hfx as [-> | ->]; reflexivity.
  - intros rest total. cbn [total_duration_loop].
    rewrite Ha. cbn [getitem]. rewrite bind_ret_l, Hc, He, Hs. cbn [getitem].
    rewrite !bind_ret_l, Hd, min_shift.
    rewrite PyFacts.gtb_true_of_lt by lra. reflexivity.
Qed.

Lemma sum_left_right (l : list Q) : forall a,
  fold_left Qplus l a == a + fold_right Qplus 0 l.
Proof.
  induction l as [|x rest IH]; intros a; cbn [fold_left fold_right].
  - ring.
  - rewrite IH. ring.
Qed.

Lemma plain_edits_run W vids editing :
  Forall (plain_edit vids) editing ->
  exists segs amounts,
    List.length segs = List.length editing /\
    map duration segs = map Some amounts /\
    forall total main_clips,
      value (total_duration_loop vids editing total) =
        Ok (fold_left Qplus amounts total) /\
      value (main_loop W vids editing main_clips total) =
        Ok (main_clips ++ segs, fold_left Qplus amounts total).
Proof.
  induction 1 as [|edit rest H _ (segs & amounts & Hlen & Hdur & IH)].
  - exists [], []. split; [reflexivity|]. split; [reflexivity|].
    intros total acc. rewrite app_nil_r. split; reflexivity.
  - destruct (plain_edit_step W vids edit H) as (orig & d & s & e & Hd & Hlt & _ & V & T).
    exists (Subclipped orig s (Py.min e d) :: segs), ((Py.min e d - s) :: amounts).
    split; [cbn; rewrite Hlen; reflexivity|].
    split; [cbn [map duration]; rewrite Hdur; reflexivity|].
    intros total acc. split.
    + rewrite T. cbn [fold_left].
      destruct (IH (total + (Py.min e d - s)) acc) as [T' _]. exact T'.
    + cbn [main_loop]. rewrite value_bind, V.
      cbn [duration_num duration]. rewrite bind_ret_l.
      destruct (IH (total + (Py.min e d - s)) (acc ++ [Subclipped orig s (Py.min e d)]))
        as [_ M].
      rewrite M, <- app_assoc. reflexivity.
Qed.

Lemma concatenated_duration segs amounts :
  map duration segs = map Some amounts ->
  duration (Concatenated segs) = Some (fold_right Qplus 0 amounts).
Proof.
  cbn [duration]. intros ->. induction amounts as [|a rest IH]; [reflexivity|].
  cbn [map fold_right]. rewrite IH. reflexivity.
Qed.

(** X12. For a plan whose editing entries all name loaded videos, carry no
    effects and have [0 <= start_time <= duration - 0.1] and
    [start_time < end_time], no entry is skipped, the advisory total
    computed before the loop is exactly the running [current_time] after
    it, and both equal the duration of the concatenated main track. *)
Theorem advisory_total_is_main_track_duration (W : world) (vids : catalog)
    (editing : list edit_entry) :
  Forall (plain_edit vids) editing ->
  exists clips total q,
    value (total_duration_loop vids editing 0) = Ok total /\
    value (main_loop W vids editing [] 0) = Ok (clips, total) /\
    List.length clips = List.length editing /\
    duration (Concatenated clips) = Some q /\ q == total /\
    (editing <> [] -> value (main_track W vids editing) = Ok (Concatenated clips)).
Proof.
  intros HF.
  destruct (plain_edits_run W vids editing HF) as (segs & amounts & Hlen & Hdur & R).
  destruct (R 0 []) as [T M]. cbn [app] in M.
  exists segs, (fold_left Qplus amounts 0), (fold_right Qplus 0 amounts).
  split; [exact T|]. split; [exact M|]. split; [exact Hlen|].
  split; [apply concatenated_duration; exact Hdur|]. split.
  - rewrite sum_left_right. ring.
  - intros Hne. unfold main_track. rewrite value_bind, M. cbn [fst].
    destruct segs as [|c rest].
    + destruct editing; [congruence | discriminate].
    + unfold make_final_video. cbn [concatenate_videoclips].
      rewrite bind_ret_l.
      rewrite (concatenated_duration (c :: rest) amounts Hdur). reflexivity.
Qed.

Lemma advisory_total_is_main_track_duration_witness :
  exists total q,
    value (total_duration_loop Sample.one_video
             [Sample.edit "a" 0 4; Sample.edit "a" 8 12] 0) = Ok total /\
    value (main_loop Sample.empty_world Sample.one_video
             [Sample.edit "a" 0 4; Sample.edit "a" 8 12] [] 0) =
      Ok ([Subclipped Sample.clip_a 0 4; Subclipped Sample.clip_a 8 10], total) /\
    duration (Concatenated
                [Subclipped Sample.clip_a 0 4; Subclipped Sample.clip_a 8 10]) =
      Some q /\
    q == total /\ total == 6.
Proof.
  destruct (advisory_total_is_main_track_duration Sample.empty_world
              Sample.one_video [Sample.edit "a" 0 4; Sample.edit "a" 8 12])
    as (clips & total & q & T & M & _ & Hq & E & _).
  - constructor; [|constructor; [|constructor]].
    + exists "a", Sample.clip_a, 10, 0, 4.
      repeat (split; [reflexivity || discriminate|]). left. reflexivity.
    + exists "a", Sample.clip_a, 10, 8, 12.
      repeat (split; [reflexivity || discriminate|]). left. reflexivity.
  - injection T as <-. injection M as <-. injection Hq as <-.
    eexists _, _. split; [reflexivity|]. split; [reflexivity|].
    split; [reflexivity|]. split; reflexivity.
Defined.

(** X13. The advisory pass reads its keys unguarded: it completes only if
    every editing entry has the [asset] key and every entry naming a
    loaded video has both times; and it only ever adds positive amounts,
    so its total is never below the value it started from. *)
Theorem advisory_total_requires_keys (vids : catalog)
    (editing : list edit_entry) (total total' : Q) :
  value (total_duration_loop vids editing total) = Ok total' ->
  Forall (readable_edit vids) editing /\ total <= total'.
Proof.
  revert total. induction editing as [|edit rest IH]; intros total H.
  - cbn in H. injection H as <-. split; [constructor | lra].
  - cbn [total_duration_loop] in H.
    apply value_bind_ok in H. destruct H as (name & Hn & H).
    destruct (ed_asset edit) as [name'|] eqn:Ha; [|discriminate].
    cbn [getitem value snd ret] in Hn. injection Hn as <-.
    destruct (assoc name' vids) as [orig|] eqn:Hc.
    + apply value_bind_ok in H. destruct H as (e & He & H).
      apply value_bind_ok in H. destruct H as (s & Hs & H).
      apply value_bind_ok in H. destruct H as (s' & _ & H).
      destruct (ed_end_time edit) as [e'|] eqn:Ee; [|discriminate].
      destruct (ed_start_time edit) as [s0|] eqn:Es; [|discriminate].
      destruct (duration orig) as [d|] eqn:Hd; [|discriminate].
      assert (R : readable_edit vids edit).
      { exists name'. split; [exact Ha|]. right. exists orig, d, s0, e'. auto. }
      destruct (Py.gtb (Py.min (e - s) (d - s')) 0) eqn:G.
      * apply PyFacts.gtb_lt in G. destruct (IH _ H) as [HF Hle].
        split; [constructor; assumption | lra].
      * destruct (IH _ H) as [HF Hle]. split; [constructor; assumption | exact Hle].
    + destruct (IH _ H) as [HF Hle]. split; [|exact Hle].
      constructor; [|exact HF]. exists name'. split; [exact Ha | left; exact Hc].
Qed.

Lemma advisory_total_requires_keys_witness :
  value (total_duration_loop Sample.one_video
           [Sample.edit "a" 8 12; Sample.edit "missing" 0 1] 0) = Ok (0 + (10 - 8)) /\
  0 <= 0 + (10 - 8).
Proof.
  split; [reflexivity|].
  destruct (advisory_total_requires_keys Sample.one_video
              [Sample.edit "a" 8 12; Sample.edit "missing" 0 1] 0 (0 + (10 - 8))
              eq_refl) as [_ H].
  exact H.
Defined.

(** ** Audio entries that are passed over *)

Lemma safe_subclip_empty clip d s e :
  duration clip = Some d -> d <= s \/ Py.min e d <= s ->
  value (safe_subclip clip s e) = Ok None.
Proof.
  intros Hd H. rewrite (safe_subclip_value clip d s e Hd).
  destruct (Py.geb s d) eqn:G; [reflexivity|].
  apply PyFacts.geb_lt in G. destruct H as [H|H]; [lra|].
  rewrite (PyFacts.geb_true_of_le _ _ H). reflexivity.
Qed.

Lemma audio_step_skipped cat a :
  audio_skipped cat a -> value (audio_step cat a) = Ok None.
Proof.
  unfold audio_step.
  intros [Ha | [(name & Ha & Hc) | (name & orig & d & s & Ha & Hc & Hd & Hs & H)]].
  - rewrite Ha. reflexivity.
  - rewrite Ha, Hc. reflexivity.
  - rewrite Ha, Hc, Hs. cbn [getitem]. rewrite bind_ret_l.
    unfold duration_num. rewrite Hd.
    assert (E : match au_end_time a with
                | Some e => ret e
                | None => ret d
                end = ret (get_default (au_end_time a) d))
      by (destruct (au_end_time a); reflexivity).
    rewrite E, bind_ret_l, value_bind.
    rewrite (safe_subclip_empty orig d s _ Hd H). reflexivity.
Qed.

Lemma audio_loop_skip cat a post :
  value (audio_step cat a) = Ok None ->
  forall pre final_audio,
    value (audio_loop cat (pre ++ a :: post) final_audio) =
    value (audio_loop cat (pre ++ post) final_audio).
Proof.
  intros H. induction pre as [|p pre IH]; intros acc.
  - cbn [app audio_loop]. rewrite value_bind, H. reflexivity.
  - cbn [app audio_loop]. rewrite !value_bind.
    destruct (value (audio_step cat p)) as [[[c added]|]|x];
      [|apply IH | reflexivity].
    destruct acc; [reflexivity|]. rewrite !value_print_then. apply IH.
Qed.

(** X14. An audio entry without the [asset] key, naming an asset that is
    not loaded, or whose start is not before the end of its clamped range,
    is passed over without an exception, and the loop goes through the
    remaining entries exactly as if it were not in the plan. *)
Theorem audio_entry_skipped (cat : catalog) (a : audio_entry) :
  audio_skipped cat a ->
  value (audio_step cat a) = Ok None /\
  forall pre post final_audio,
    value (audio_loop cat (pre ++ a :: post) final_audio) =
    value (audio_loop cat (pre ++ post) final_audio).
Proof.
  intros H. pose proof (audio_step_skipped cat a H) as V.
  split; [exact V|]. intros pre post acc. apply audio_loop_skip. exact V.
Qed.

Lemma audio_entry_skipped_witness :
  value (audio_loop Sample.one_audio
           [Sample.track "song" 0 10; Sample.track "song" 12 15;
            Sample.track "song" 5 8] None) =
  value (audio_loop Sample.one_audio
           [Sample.track "song" 0 10; Sample.track "song" 5 8] None).
Proof.
  destruct (audio_entry_skipped Sample.one_audio (Sample.track "song" 12 15))
    as [_ H].
  - right. right. exists "song", Sample.song, 10, 12.
    repeat (split; [reflexivity|]). left. discriminate.
  - exact (H [Sample.track "song" 0 10] [Sample.track "song" 5 8] None).
Defined.



(** ** Overlay layers *)

Lemma loop_clip_short clip d T :
  duration clip = Some d -> 0 < T -> T <= d ->
  value (loop_clip clip T) = Ok (Subclipped clip 0 T).
Proof.
  intros Hd HT H. unfold loop_clip. rewrite Hd.
  rewrite (PyFacts.geb_true_of_le _ _ H).
  rewrite (subclipped_inside clip d 0 T Hd); try lra. reflexivity.
Qed.

Lemma loop_clip_looped clip d T :
  duration clip = Some d -> 0 < d -> d < T ->
  let n := Z.to_nat (Qfloor (T / d) + 1) in
  value (loop_clip clip T) = Ok (Subclipped (Concatenated (repeat clip n)) 0 T) /\
  (2 <= n)%nat.
Proof.
  intros Hd Hpos H n.
  assert (H1 : (1 <= Qfloor (T / d))%Z).
  { change 1%Z with (Qfloor 1). apply Qfloor_resp_le.
    apply Qle_shift_div_l; lra. }
  assert (Hn : (2 <= n)%nat) by (unfold n; lia).
  split; [|exact Hn].
  destruct (duration_repeat clip d n Hd) as [q [Hq Eq]].
  assert (Hcover : T < q).
  { rewrite Eq. unfold n. rewrite Z2Nat.id by lia. apply loops_cover; lra. }
  unfold loop_clip. rewrite Hd.
  rewrite (PyFacts.geb_false_of_lt _ _ H).
  assert (Hz : Qeq_bool d 0 = false).
  { destruct (Qeq_bool d 0) eqn:E; [|reflexivity].
    apply Qeq_bool_iff in E. lra. }
  rewrite Hz.
  rewrite (PyFacts.int_floor (T / d)) by (apply Qle_shift_div_l; lra).
  fold n. destruct n as [|k]; [lia|].
  cbn [repeat concatenate_videoclips]. rewrite bind_ret_l.
  change (clip :: repeat clip k) with (repeat clip (S k)).
  rewrite (subclipped_inside _ q 0 T Hq); try lra. reflexivity.
Qed.

(** X16. A gif overlay of a loaded asset of positive duration [d], with
    [start_time < end_time], always yields a clip lasting exactly
    [end_time - start_time]: the leading range of the asset when that is
    at most [d], and otherwise the leading range of at least two
    concatenated copies of it. *)
Theorem gif_overlay_lasts_requested (W : world) (C : catalogs)
    (o : overlay_entry) (name : string) (orig : Clip) (d s e : Q) :
  ov_asset o = Some name -> assoc name (gif_assets C) = Some orig ->
  duration orig = Some d -> 0 < d ->
  ov_start_time o = Some s -> ov_end_time o = Some e -> s < e ->
  exists base q,
    value (overlay_base W C o "gif") = Ok (Some base) /\
    duration base = Some q /\ q == e - s /\
    (e - s <= d -> base = Subclipped orig 0 (e - s)) /\
    (d < e - s ->
     exists n, (2 <= n)%nat /\
       base = Subclipped (Concatenated (repeat orig n)) 0 (e - s)).
Proof.
  intros Ha Hc Hd Hpos Hs He Hse.
  assert (V : value (overlay_base W C o "gif") =
              match value (if Py.gtb (e - s) d
                           then print (LoopingGif (Some d) (e - s)) ;;;
                                c <- loop_clip orig (e - s) ;; ret (Some c)
                           else safe_subclip orig 0 (e - s)) with
              | Ok (Some clip) => Ok (Some clip)
              | Ok None => Ok None
              | Raise x => Raise x
              end).
  { unfold overlay_base.
    change ("gif" =? "video")%string with false.
    change ("gif" =? "gif")%string with true. cbv iota.
    rewrite Ha, Hc, He, Hs. cbn [getitem]. rewrite !bind_ret_l.
    unfold duration_num. rewrite Hd, bind_ret_l, value_bind.
    destruct (value (if Py.gtb (e - s) d then _ else _)) as [[clip|]|x];
      reflexivity. }
  destruct (Qlt_le_dec d (e - s)) as [Hlong|Hshort].
  - destruct (loop_clip_looped orig d (e - s) Hd Hpos Hlong) as [L Hn].
    exists (Subclipped (Concatenated (repeat orig (Z.to_nat (Qfloor ((e - s) / d) + 1))))
              0 (e - s)), (e - s - 0).
    split.
    { rewrite V, (PyFacts.gtb_true_of_lt _ _ Hlong).
      rewrite value_print_then, value_bind, L. reflexivity. }
    split; [reflexivity|]. split; [ring|]. split; [intros; lra|].
    intros _. eexists. split; [exact Hn | reflexivity].
  - exists (Subclipped orig 0 (e - s)), (e - s - 0).
    split.
    { rewrite V, (PyFacts.gtb_false_of_le _ _ Hshort).
      rewrite (safe_subclip_value orig d 0 (e - s) Hd).
      rewrite (PyFacts.geb_false_of_lt _ _ Hpos).
      assert (Em : Py.min (e - s) d = e - s).
      { unfold Py.min. rewrite PyFacts.ltb_false_of_le; auto. }
      rewrite Em. rewrite PyFacts.geb_false_of_lt by lra.
      rewrite (subclipped_inside orig d 0 (e - s) Hd); try lra. reflexivity. }
    split; [reflexivity|]. split; [ring|]. split; [reflexivity|].
    intros; lra.
Qed.

Lemma gif_overlay_lasts_requested_witness :
  exists base q,
    value (overlay_base Sample.empty_world Sample.gif_catalogs
             (Sample.gif_overlay "spin" 1 6) "gif") = Ok (Some base) /\
    duration base = Some q /\ q == 5.
Proof.
  destruct (gif_overlay_lasts_requested Sample.empty_world Sample.gif_catalogs
              (Sample.gif_overlay "spin" 1 6) "spin" Sample.spinner 2 1 6
              eq_refl eq_refl eq_refl ltac:(reflexivity) eq_refl eq_refl
              ltac:(reflexivity))
    as (base & q & V & Hq & E & _).
  exists base, q. split; [exact V|]. split; [exact Hq|].
  rewrite E. reflexivity.
Defined.

Lemma overlay_base_known_type W C o type base :
  value (overlay_base W C o type) = Ok (Some base) ->
  type = "video" \/ type = "gif" \/ type = "image" \/ type = "text".
Proof.
  unfold overlay_base.
  destruct (type =? "video")%string eqn:E1;
    [apply String.eqb_eq in E1; auto|].
  destruct (type =? "gif")%string eqn:E2;
    [apply String.eqb_eq in E2; auto|].
  destruct (type =? "image")%string eqn:E3;
    [apply String.eqb_eq in E3; auto|].
  destruct (type =? "text")%string eqn:E4;
    [apply String.eqb_eq in E4; auto|].
  discriminate.
Qed.

(** X17. Every overlay that survives, of whatever type, has one of the
    four known types, gave a [position] and a [start_time], and its layer
    is anchored at that [start_time] on the output timeline, with a
    defined duration. *)
Theorem surviving_overlay_is_anchored (W : world) (C : catalogs)
    (final_video : Clip) (o : overlay_entry) (c : Clip) :
  value (overlay_step W C final_video o) = Ok (Some c) ->
  exists type s inner d,
    ov_type o = Some type /\
    (type = "video" \/ type = "gif" \/ type = "image" \/ type = "text") /\
    ov_position o <> None /\ ov_start_time o = Some s /\
    c = WithStart inner s /\ start c = s /\ duration c = Some d.
Proof.
  intros H.
  destruct (overlay_step_shape W C final_video o c H)
    as (type & base & Ht & Hb & Hf).
  destruct (overlay_finish_shape W final_video o base c Hf)
    as (inner & s & d & Hc & Hs & Hd & Hst).
  destruct (overlay_finish_stages W final_video o base c Hf)
    as (_ & p & _ & _ & _ & _ & Hp & _).
  exists type, s, inner, d.
  split; [exact Ht|]. split; [apply (overlay_base_known_type W C o type base Hb)|].
  split; [congruence|]. auto.
Qed.

Lemma surviving_overlay_is_anchored_witness :
  exists inner d,
    value (overlay_step Sample.empty_world Sample.gif_catalogs black_background
             (Sample.gif_overlay "spin" 1 6)) = Ok (Some (WithStart inner 1)) /\
    duration (WithStart inner 1) = Some d.
Proof.
  destruct (surviving_overlay_is_anchored Sample.empty_world Sample.gif_catalogs
              black_background (Sample.gif_overlay "spin" 1 6) _ eq_refl)
    as (type & s & inner & d & _ & _ & _ & Hs & Hc & _ & Hd).
  injection Hs as <-.
  exists inner, d. split; [exact (f_equal (fun x => Ok (Some x)) Hc)|].
  rewrite <- Hc. exact Hd.
Defined.

Lemma overlay_base_without_clip W C o type :
  ov_type o = Some type -> overlay_without_clip C o ->
  value (overlay_base W C o type) = Ok None.
Proof.
  intros Ht [(type' & Ht' & N1 & N2 & N3 & N4) |
             [(name & orig & d & s & e & Hv & Ha & Hc & Hd & Hs & He & H) |
              (name & orig & d & s & e & Hg & Ha & Hc & Hd & Hs & He & Hpos & H)]].
  - rewrite Ht in Ht'. injection Ht' as <-. unfold overlay_base.
    apply String.eqb_neq in N1, N2, N3, N4. rewrite N1, N2, N3, N4. reflexivity.
  - rewrite Ht in Hv. injection Hv as ->. unfold overlay_base.
    change ("video" =? "video")%string with true. cbv iota.
    rewrite Ha, Hc, Hs, He. cbn [getitem]. rewrite !bind_ret_l, value_bind.
    rewrite (safe_subclip_empty orig d s e Hd H). reflexivity.
  - rewrite Ht in Hg. injection Hg as ->. unfold overlay_base.
    change ("gif" =? "video")%string with false.
    change ("gif" =? "gif")%string with true. cbv iota.
    rewrite Ha, Hc, He, Hs. cbn [getitem]. rewrite !bind_ret_l.
    unfold duration_num. rewrite Hd, bind_ret_l, value_bind.
    rewrite PyFacts.gtb_false_of_le by lra.
    rewrite (safe_subclip_empty orig d 0 (e - s) Hd); [reflexivity|].
    right. pose proof (PyFacts.min_le_l (e - s) d). lra.
Qed.

(** X18. An overlay of an unknown type, a video overlay whose start is not
    before the end of its clamped range, and a gif overlay whose requested
    duration is not positive are passed over without an exception, whether
    or not they give a [position], and the loop treats the remaining
    overlays as if they were not in the plan. *)
Theorem overlay_without_clip_skipped (W : world) (C : catalogs)
    (final_video : Clip) (o : overlay_entry) :
  overlay_without_clip C o ->
  value (overlay_step W C final_video o) = Ok None /\
  forall pre post overlay_clips,
    value (overlay_loop W C final_video (pre ++ o :: post) overlay_clips) =
    value (overlay_loop W C final_video (pre ++ post) overlay_clips).
Proof.
  intros H.
  assert (Ht : exists type, ov_type o = Some type).
  { destruct H as [(t & E & _) | [(n & x & d & s & e & E & _) |
                                  (n & x & d & s & e & E & _)]];
      eexists; exact E. }
  destruct Ht as [type Ht].
  assert (V : value (overlay_step W C final_video o) = Ok None).
  { unfold overlay_step. rewrite Ht. cbn [getitem]. rewrite bind_ret_l.
    rewrite value_print_then, value_bind.
    rewrite (overlay_base_without_clip W C o type Ht H). reflexivity. }
  split; [exact V|]. intros pre post acc. apply overlay_loop_skip. exact V.
Qed.

Lemma overlay_without_clip_skipped_witness :
  value (overlay_step Sample.empty_world Sample.video_catalogs black_background
           (Sample.video_overlay (Some "a") 12 15 None)) = Ok None.
Proof.
  destruct (overlay_without_clip_skipped Sample.empty_world Sample.video_catalogs
              black_background (Sample.video_overlay (Some "a") 12 15 None))
    as [H _].
  - right. left. exists "a", Sample.clip_a, 10, 12, 15.
    repeat (split; [reflexivity|]). left. discriminate.
  - exact H.
Defined.

Lemma try_except_value {A} (m : M A) (h : exn -> M A) :
  value (try_except m h) =
    match value m with
    | Ok a => Ok a
    | Raise e => value (h e)
    end.
Proof.
  destruct m as [l [a|e]]; cbn [try_except value snd]; [reflexivity|].
  destruct (h e). reflexivity.
Qed.

(** X19. Once a text overlay gives both times, building its base clip
    never raises: a missing [color], [text] or [font_size], a colour that
    cannot be parsed or an incomplete background is caught, and the
    overlay is passed over exactly when building the text clip raised. *)
Theorem text_overlay_never_raises (W : world) (C : catalogs) (o : overlay_entry)
    (s e : Q) :
  ov_start_time o = Some s -> ov_end_time o = Some e ->
  (forall clip, value (text_clip W o (e - s)) = Ok clip ->
     value (overlay_base W C o "text") = Ok (Some clip)) /\
  (forall x, value (text_clip W o (e - s)) = Raise x ->
     value (overlay_base W C o "text") = Ok None /\
     In (ErrorCreatingText x) (log (overlay_base W C o "text"))) /\
  exists r, value (overlay_base W C o "text") = Ok r.
Proof.
  intros Hs He.
  assert (E : overlay_base W C o "text" =
              try_except (clip <- text_clip W o (e - s) ;; ret (Some clip))
                (fun ex => print (ErrorCreatingText ex) ;;; ret None)).
  { unfold overlay_base.
    change ("text" =? "video")%string with false.
    change ("text" =? "gif")%string with false.
    change ("text" =? "image")%string with false.
    change ("text" =? "text")%string with true. cbv iota.
    rewrite He, Hs. cbn [getitem]. rewrite !bind_ret_l. reflexivity. }
  rewrite E. split; [|split].
  - intros clip V. rewrite try_except_value, value_bind, V. reflexivity.
  - intros x V. split.
    + rewrite try_except_value, value_bind, V. reflexivity.
    + destruct (text_clip W o (e - s)) as [l [c|x']]; [discriminate|].
      cbn [value snd] in V. injection V as ->.
      cbn [bind try_except print ret log fst app].
      apply in_or_app. right. left. reflexivity.
  - rewrite try_except_value, value_bind.
    destruct (value (text_clip W o (e - s))); eexists; reflexivity.
Qed.

Lemma text_overlay_never_raises_witness :
  value (overlay_base Sample.empty_world Sample.no_catalogs
           {| ov_type := Some "text"; ov_asset := None; ov_text := Some "AB";
              ov_start_time := Some 1; ov_end_time := Some 3;
              ov_position := None; ov_size := None; ov_opacity := None;
              ov_effects := None; ov_animation := None; ov_font := None;
              ov_font_size := Some 48; ov_color := Some "#zzzzzz";
              ov_background := None |} "text") = Ok None.
Proof.
  destruct (text_overlay_never_raises Sample.empty_world Sample.no_catalogs
              {| ov_type := Some "text"; ov_asset := None; ov_text := Some "AB";
                 ov_start_time := Some 1; ov_end_time := Some 3;
                 ov_position := None; ov_size := None; ov_opacity := None;
                 ov_effects := None; ov_animation := None; ov_font := None;
                 ov_font_size := Some 48; ov_color := Some "#zzzzzz";
                 ov_background := None |} 1 3 eq_refl eq_refl) as (_ & H & _).
  destruct (H (ValueError "int") eq_refl) as [V _]. exact V.
Defined.

(** X20. Looping needs a source that lasts: for a gif asset of duration
    zero and a positive requested duration, [loop_clip] raises
    [ZeroDivisionError], and so does the overlay, which nothing catches. *)
Theorem zero_length_gif_raises (W : world) (C : catalogs) (final_video : Clip)
    (o : overlay_entry) (name : string) (orig : Clip) (d s e : Q) :
  ov_type o = Some "gif" -> ov_asset o = Some name ->
  assoc name (gif_assets C) = Some orig ->
  duration orig = Some d -> d == 0 ->
  ov_start_time o = Some s -> ov_end_time o = Some e -> s < e ->
  value (loop_clip orig (e - s)) = Raise ZeroDivisionError /\
  value (overlay_step W C final_video o) = Raise ZeroDivisionError /\
  forall rest overlay_clips,
    value (overlay_loop W C final_video (o :: rest) overlay_clips) =
      Raise ZeroDivisionError.
Proof.
  intros Ht Ha Hc Hd Hz Hs He Hse.
  assert (L : value (loop_clip orig (e - s)) = Raise ZeroDivisionError).
  { unfold loop_clip. rewrite Hd.
    rewrite PyFacts.geb_false_of_lt by lra.
    assert (Z : Qeq_bool d 0 = true) by (apply Qeq_bool_iff; exact Hz).
    rewrite Z. reflexivity. }
  assert (V : value (overlay_step W C final_video o) = Raise ZeroDivisionError).
  { unfold overlay_step. rewrite Ht. cbn [getitem]. rewrite bind_ret_l.
    rewrite value_print_then, value_bind.
    unfold overlay_base.
    change ("gif" =? "video")%string with false.
    change ("gif" =? "gif")%string with true. cbv iota.
    rewrite Ha, Hc, He, Hs. cbn [getitem]. rewrite !bind_ret_l.
    unfold duration_num. rewrite Hd, bind_ret_l, value_bind.
    rewrite PyFacts.gtb_true_of_lt by lra.
    rewrite value_print_then, value_bind, L. reflexivity. }
  split; [exact L|]. split; [exact V|].
  intros rest acc. cbn [overlay_loop]. rewrite value_bind, V. reflexivity.
Qed.

Lemma zero_length_gif_raises_witness :
  value (overlay_step Sample.empty_world
           {| video_assets := []; gif_assets := [("still", VideoFileClip "s.gif" 0)];
              image_assets := []; audio_assets := [] |}
           black_background (Sample.gif_overlay "still" 1 6)) =
    Raise ZeroDivisionError.
Proof.
  destruct (zero_length_gif_raises Sample.empty_world
              {| video_assets := []; gif_assets := [("still", VideoFileClip "s.gif" 0)];
                 image_assets := []; audio_assets := [] |}
              black_background (Sample.gif_overlay "still" 1 6) "still"
              (VideoFileClip "s.gif" 0) 0 1 6
              eq_refl eq_refl eq_refl eq_refl ltac:(reflexivity) eq_refl eq_refl
              ltac:(reflexivity)) as (_ & V & _).
  exact V.
Defined.

(** ** Output and release of resources *)

Create HintDb quiet.

Lemma quiet_bind {A B} (m : M A) (f : A -> M B) :
  Forall quiet (log m) -> (forall a, Forall quiet (log (f a))) ->
  Forall quiet (log (bind m f)).
Proof.
  intros Hm Hf. rewrite log_bind. apply Forall_app. split; [exact Hm|].
  destruct (value m); [apply Hf | constructor].
Qed.

Lemma quiet_try {A} (m : M A) (h : exn -> M A) :
  Forall quiet (log m) -> (forall e, Forall quiet (log (h e))) ->
  Forall quiet (log (try_except m h)).
Proof.
  intros Hm Hh. destruct m as [l [a|e]]; cbn [try_except log fst] in *;
    [exact Hm|].
  specialize (Hh e). destruct (h e) as [l' r]. cbn [log fst] in *.
  apply Forall_app. split; assumption.
Qed.

Ltac quiet_tac :=
  repeat match goal with
  | |- Forall quiet (log (bind _ _)) => apply quiet_bind; [|intros]
  | |- Forall quiet (log (try_except _ _)) => apply quiet_try; [|intros]
  | |- Forall quiet (log (ret _)) => constructor
  | |- Forall quiet (log (raise _)) => constructor
  | |- Forall quiet (log (print _)) => constructor; [exact I | constructor]
  | |- Forall quiet (log (getitem _ ?o)) => destruct o; cbn [getitem]
  | |- Forall quiet (log (index _ _)) => unfold index
  | |- Forall quiet (log (pos_item _ _)) => unfold pos_item
  | |- Forall quiet (log (shift_coord _ _ _)) => unfold shift_coord
  | |- Forall quiet (log (print_duration _ ?d)) =>
      destruct d; cbn [print_duration]
  | |- Forall quiet (log (duration_num _)) => unfold duration_num
  | |- Forall quiet (log (let '(_, _) := ?x in _)) => destruct x
  | |- Forall quiet (log (match ?x with _ => _ end)) => destruct x
  | _ => solve [auto with quiet]
  end.

Lemma quiet_find_audio_loop W base exts :
  Forall quiet (log (find_audio_loop W base exts)).
Proof. induction exts; cbn [find_audio_loop]; quiet_tac. Qed.
#[local] Hint Resolve quiet_find_audio_loop : quiet.

Lemma quiet_find_audio_file W p : Forall quiet (log (find_audio_file W p)).
Proof. unfold find_audio_file. quiet_tac. Qed.
#[local] Hint Resolve quiet_find_audio_file : quiet.

Lemma quiet_open_clip W p t : Forall quiet (log (open_clip W p t)).
Proof. unfold open_clip. quiet_tac. Qed.
#[local] Hint Resolve quiet_open_clip : quiet.

Lemma quiet_load_asset W p t : Forall quiet (log (load_asset W p t)).
Proof. unfold load_asset. quiet_tac. Qed.
#[local] Hint Resolve quiet_load_asset : quiet.

Lemma quiet_load_assets W t entries : forall acc,
  Forall quiet (log (load_assets W t entries acc)).
Proof. induction entries; intros acc; cbn [load_assets]; quiet_tac. Qed.
#[local] Hint Resolve quiet_load_assets : quiet.

Lemma quiet_load_all W cfg : Forall quiet (log (load_all W cfg)).
Proof. unfold load_all. quiet_tac. Qed.
#[local] Hint Resolve quiet_load_all : quiet.

Lemma quiet_total_duration_loop vids editing : forall total,
  Forall quiet (log (total_duration_loop vids editing total)).
Proof. induction editing; intros total; cbn [total_duration_loop]; quiet_tac. Qed.
#[local] Hint Resolve quiet_total_duration_loop : quiet.

Lemma quiet_subclipped c s e : Forall quiet (log (subclipped c s e)).
Proof. unfold subclipped. quiet_tac. Qed.
#[local] Hint Resolve quiet_subclipped : quiet.

Lemma quiet_safe_subclip c s e : Forall quiet (log (safe_subclip c s e)).
Proof. unfold safe_subclip. quiet_tac. Qed.
#[local] Hint Resolve quiet_safe_subclip : quiet.

Lemma quiet_concatenate l : Forall quiet (log (concatenate_videoclips l)).
Proof. unfold concatenate_videoclips. quiet_tac. Qed.
#[local] Hint Resolve quiet_concatenate : quiet.

Lemma quiet_loop_clip c t : Forall quiet (log (loop_clip c t)).
Proof. unfold loop_clip. quiet_tac. Qed.
#[local] Hint Resolve quiet_loop_clip : quiet.

Lemma quiet_int16 s : Forall quiet (log (int16 s)).
Proof. unfold int16. quiet_tac. Qed.
#[local] Hint Resolve quiet_int16 : quiet.

Lemma quiet_color s : Forall quiet (log (color_string_to_rgb s)).
Proof. unfold color_string_to_rgb. quiet_tac. Qed.
#[local] Hint Resolve quiet_color : quiet.

Lemma quiet_apply_effect W c e : Forall quiet (log (apply_effect W c e)).
Proof. unfold apply_effect. quiet_tac. Qed.
#[local] Hint Resolve quiet_apply_effect : quiet.

Lemma quiet_apply_effects W effects : forall c,
  Forall quiet (log (apply_effects W c effects)).
Proof. induction effects; intros c; cbn [apply_effects]; quiet_tac. Qed.
#[local] Hint Resolve quiet_apply_effects : quiet.

Lemma quiet_typewriter c d : Forall quiet (log (create_typewriter_effect c d)).
Proof. unfold create_typewriter_effect. quiet_tac. Qed.
#[local] Hint Resolve quiet_typewriter : quiet.

Lemma quiet_apply_animation W c a vs : Forall quiet (log (apply_animation W c a vs)).
Proof. unfold apply_animation. quiet_tac. Qed.
#[local] Hint Resolve quiet_apply_animation : quiet.

Lemma quiet_edit_step W vids edit : Forall quiet (log (edit_step W vids edit)).
Proof. unfold edit_step. quiet_tac. Qed.
#[local] Hint Resolve quiet_edit_step : quiet.

Lemma quiet_main_loop W vids editing : forall clips t,
  Forall quiet (log (main_loop W vids editing clips t)).
Proof. induction editing; intros clips t; cbn [main_loop]; quiet_tac. Qed.
#[local] Hint Resolve quiet_main_loop : quiet.

Lemma quiet_make_final_video clips : Forall quiet (log (make_final_video clips)).
Proof. unfold make_final_video. quiet_tac. Qed.
#[local] Hint Resolve quiet_make_final_video : quiet.

Lemma quiet_text_clip W o d : Forall quiet (log (text_clip W o d)).
Proof. unfold text_clip. quiet_tac. Qed.
#[local] Hint Resolve quiet_text_clip : quiet.

Lemma quiet_overlay_base W C o t : Forall quiet (log (overlay_base W C o t)).
Proof. unfold overlay_base. quiet_tac. Qed.
#[local] Hint Resolve quiet_overlay_base : quiet.

Lemma quiet_overlay_finish W fv o c : Forall quiet (log (overlay_finish W fv o c)).
Proof. unfold overlay_finish. quiet_tac. Qed.
#[local] Hint Resolve quiet_overlay_finish : quiet.

Lemma quiet_overlay_step W C fv o : Forall quiet (log (overlay_step W C fv o)).
Proof. unfold overlay_step. quiet_tac. Qed.
#[local] Hint Resolve quiet_overlay_step : quiet.

Lemma quiet_overlay_loop W C fv overlays : forall clips,
  Forall quiet (log (overlay_loop W C fv overlays clips)).
Proof. induction overlays; intros clips; cbn [overlay_loop]; quiet_tac. Qed.
#[local] Hint Resolve quiet_overlay_loop : quiet.

Lemma quiet_composite fv clips : Forall quiet (log (composite_overlays fv clips)).
Proof. unfold composite_overlays. quiet_tac. Qed.
#[local] Hint Resolve quiet_composite : quiet.

Lemma quiet_audio_step cat a : Forall quiet (log (audio_step cat a)).
Proof. unfold audio_step. quiet_tac. Qed.
#[local] Hint Resolve quiet_audio_step : quiet.

Lemma quiet_bind_value {A B} (m : M A) (f : A -> M B) :
  Forall quiet (log m) -> (forall a, value m = Ok a -> Forall quiet (log (f a))) ->
  Forall quiet (log (bind m f)).
Proof.
  intros Hm Hf. rewrite log_bind. apply Forall_app. split; [exact Hm|].
  destruct (value m) as [a|e]; [apply Hf; reflexivity | constructor].
Qed.

Lemma quiet_audio_loop cat entries : forall acc,
  Forall quiet (log (audio_loop cat entries acc)).
Proof.
  induction entries as [|a rest IH]; intros acc; cbn [audio_loop]; [quiet_tac|].
  apply quiet_bind_value; [apply quiet_audio_step|].
  intros [[c added]|] V; [|apply IH].
  destruct (audio_step_track cat a c added V)
    as (name & orig & d & s & _ & _ & _ & _ & _ & _ & _ & ->).
  destruct acc; quiet_tac.
Qed.
#[local] Hint Resolve quiet_audio_loop : quiet.

Lemma quiet_compose W C fv overlays : Forall quiet (log (compose W C fv overlays)).
Proof. unfold compose. quiet_tac. Qed.
#[local] Hint Resolve quiet_compose : quiet.

Lemma run_ends_bind {A} W C (m : M A) (f : A -> M Clip) :
  Forall quiet (log m) ->
  (forall a, value m = Ok a -> run_ends W C (f a)) ->
  run_ends W C (bind m f).
Proof.
  unfold run_ends. destruct m as [l [a|e]]; cbn [log fst value snd bind];
    intros Hm Hf.
  - specialize (Hf a eq_refl). destruct (f a) as [l' r];
      cbn [log fst value snd] in *.
    destruct Hf as [(e & -> & Hq) | (final & before & tail & Hq & -> & He)].
    + left. exists e. split; [reflexivity|]. apply Forall_app. split; assumption.
    + right. exists final, (l ++ before), tail.
      split; [apply Forall_app; split; assumption|].
      split; [apply app_assoc | exact He].
  - left. exists e. split; [reflexivity | exact Hm].
Qed.

Lemma close_each_run W clips :
  (Forall (fun c => close W c = None) clips /\
   close_each W clips = (map CloseClip clips, Ok tt)) \/
  (exists closed c rest e,
     clips = closed ++ c :: rest /\
     Forall (fun c => close W c = None) closed /\ close W c = Some e /\
     close_each W clips = (map CloseClip (closed ++ [c]), Raise e)).
Proof.
  induction clips as [|c rest IH].
  - left. split; [constructor | reflexivity].
  - cbn [close_each]. unfold close_clip. destruct (close W c) as [e|] eqn:E.
    + right. exists [], c, rest, e.
      split; [reflexivity|]. split; [constructor|]. split; [exact E | reflexivity].
    + destruct IH as [[HF ->] | (closed & c' & rest' & e & -> & HF & Hc & ->)].
      * left. split; [constructor; assumption | reflexivity].
      * right. exists (c :: closed), c', rest', e.
        split; [reflexivity|]. split; [constructor; assumption|].
        split; [exact Hc | reflexivity].
Qed.

Lemma write_and_close_ending W C final :
  let m :=
    write_videofile W final (path_join W (script_dir W) "output_overlays.mp4")
      24 "libx264" "aac" ;;;
    print CleaningUp ;;; close_all W C ;;; print Done ;;; ret final in
  ending W C final (log m) (value m).
Proof.
  cbv zeta. unfold write_videofile. destruct (render W final) as [e|] eqn:R.
  - apply WriteRaised. exact R.
  - unfold close_all. fold (loaded_clips C).
    destruct (close_each_run W (loaded_clips C))
      as [[HF E] | (closed & c & rest & e & Hl & HF & Hc & E)]; rewrite E.
    + apply Completed; assumption.
    + eapply CloseRaised; eassumption.
Qed.

Lemma main_ends W cfg C :
  run_ends W C
    (editing <- getitem "editing" (cfg_editing cfg) ;;
     total <- total_duration_loop (video_assets C) editing 0 ;;
     print (CalculatedTotal total) ;;;
     editing <- getitem "editing" (cfg_editing cfg) ;;
     mc <- main_loop W (video_assets C) editing [] 0 ;;
     final_video <- make_final_video (fst mc) ;;
     overlays <- getitem "overlays" (cfg_overlays cfg) ;;
     final_video <- compose W C final_video overlays ;;
     audio <- getitem "audio" (cfg_audio cfg) ;;
     final_audio <- audio_loop (audio_assets C) audio None ;;
     let final_video :=
       match final_audio with
       | Some a => WithAudio final_video a
       | None => final_video
       end in
     let output_path := path_join W (script_dir W) "output_overlays.mp4" in
     print (Rendering output_path) ;;;
     print_duration FinalDuration (duration final_video) ;;;
     write_videofile W final_video output_path 24 "libx264" "aac" ;;;
     print CleaningUp ;;;
     close_all W C ;;;
     print Done ;;;
     ret final_video).
Proof.
  do 10 (apply run_ends_bind; [solve [quiet_tac] | intros ? _]).
  cbv zeta.
  do 2 (apply run_ends_bind; [solve [quiet_tac] | intros ? _]).
  right. eexists _, [], _. split; [constructor|]. split; [reflexivity|].
  apply write_and_close_ending.
Qed.

(** X21. No clip is closed before the output is written.  A run either
    raises before the write, having neither written nor closed anything,
    or it loads its catalogs and gets to the write, after which there are
    three ways on: the write raises, and no clip is closed; the write
    succeeds and closing raises at one clip, the clips after it left
    open; or every loaded clip is closed once, in catalog order, and the
    run returns the video it wrote to [output_overlays.mp4] at 24 frames
    per second. *)
Theorem no_close_before_write (W : world) (plan : option config) :
  (exists e, value (main W plan) = Raise e /\ Forall quiet (log (main W plan))) \/
  (exists cfg C final before tail,
     plan = Some cfg /\ value (load_all W cfg) = Ok C /\
     Forall quiet before /\ log (main W plan) = before ++ tail /\
     ending W C final tail (value (main W plan))).
Proof.
  destruct plan as [cfg|].
  - unfold main.
    pose proof (quiet_load_all W cfg) as Q.
    destruct (load_all W cfg) as [l0 [C|x]] eqn:EL; cbn [log fst] in Q.
    + pose proof (main_ends W cfg C) as E. unfold run_ends in E.
      cbn [bind].
      match type of E with
      | context [value ?m] => destruct m as [l1 r]
      end; cbn [value snd log fst] in *.
      destruct E as [(e & -> & Hq) | (final & before & tail & Hq & -> & He)].
      * left. exists e. split; [reflexivity|]. apply Forall_app. split; assumption.
      * right. exists cfg, C, final, (l0 ++ before), tail.
        split; [reflexivity|]. split; [rewrite EL; reflexivity|].
        split; [apply Forall_app; split; assumption|].
        split; [apply app_assoc | exact He].
    + left. exists x. split; [reflexivity | exact Q].
  - left. exists PlanUnreadable. split; [reflexivity | constructor].
Qed.

(** ** Editing entries without the [asset] key *)

Lemma total_duration_missing_key vids pre edit post :
  Forall (readable_edit vids) pre -> ed_asset edit = None ->
  forall total,
    value (total_duration_loop vids (pre ++ edit :: post) total) =
      Raise (KeyError "asset").
Proof.
  intros HF Ha. induction HF as [|p pre Hp _ IH]; intros total.
  - cbn [app total_duration_loop]. rewrite Ha. reflexivity.
  - cbn [app total_duration_loop].
    destruct Hp as (name & Hn & [Hc | (orig & d & s & e & Hc & Hd & Hs & He)]);
      rewrite Hn; cbn [getitem]; rewrite bind_ret_l, Hc.
    + apply IH.
    + rewrite He, Hs. cbn [getitem]. rewrite !bind_ret_l, Hd.
      destruct (Py.gtb _ 0); apply IH.
Qed.

(** C4. An editing entry without the [asset] key yields no segment: the
    editing loop passes over it with a warning.  The run never gets that
    far: the pass that adds up the durations before the loop reads
    [edit["asset"]] unguarded, so for a plan whose first entry without the
    key comes after entries the pass can read, the run raises
    [KeyError] there, before the editing loop, and writes nothing;
    there is no placeholder and no output. *)
Theorem missing_asset_key_aborts (W : world) (cfg : config) (C : catalogs)
    (pre : list edit_entry) (edit : edit_entry) (post : list edit_entry) :
  value (load_all W cfg) = Ok C ->
  cfg_editing cfg = Some (pre ++ edit :: post) ->
  Forall (readable_edit (video_assets C)) pre ->
  ed_asset edit = None ->
  edit_step W (video_assets C) edit = ([WarnEditMissingAsset], Ok None) /\
  (forall total,
     value (total_duration_loop (video_assets C) (pre ++ edit :: post) total) =
       Raise (KeyError "asset")) /\
  value (main W (Some cfg)) = Raise (KeyError "asset") /\
  Forall quiet (log (main W (Some cfg))).
Proof.
  intros HL He HF Ha.
  pose proof (total_duration_missing_key (video_assets C) pre edit post HF Ha) as T.
  split; [unfold edit_step; rewrite Ha; reflexivity|].
  split; [exact T|].
  unfold main. rewrite He. cbn [getitem]. split.
  - rewrite value_bind, HL, bind_ret_l, value_bind, T. reflexivity.
  - rewrite log_bind, HL, bind_ret_l. apply Forall_app.
    split; [apply quiet_load_all|].
    rewrite log_bind, T, app_nil_r. apply quiet_total_duration_loop.
Qed.

Lemma missing_asset_key_aborts_witness :
  value (edit_step Sample.empty_world [] Sample.unnamed_edit) = Ok None /\
  main Sample.empty_world (Some (Sample.plan [Sample.unnamed_edit] [] [])) =
    ([LoadedSummary 0 0 0 0], Raise (KeyError "asset")).
Proof.
  split; [reflexivity|].
  destruct (missing_asset_key_aborts Sample.empty_world
              (Sample.plan [Sample.unnamed_edit] [] []) Sample.no_catalogs
              [] Sample.unnamed_edit [] eq_refl eq_refl ltac:(constructor) eq_refl)
    as (_ & _ & V & _).
  destruct (main Sample.empty_world (Some (Sample.plan [Sample.unnamed_edit] [] [])))
    as [l r] eqn:E.
  cbn [value snd] in V. subst r.
  vm_compute in E. injection E as <-. reflexivity.
Defined.

(** ** The placeholder, written *)

(** X22. When every editing entry names an asset that is absent from the
    catalog or has an empty clamped time range, and so when the list is
    empty, the editing loop ends with no clip and the main track is the
    placeholder, a 1920 by 1080 black clip of 30 seconds; and every such
    run whose overlays and audio entries do not raise, whose rendering
    succeeds and whose clips close writes and returns the overlays
    composed over that placeholder. *)
Theorem placeholder_when_nothing_survives (W : world) (cfg : config)
    (C : catalogs) (editing : list edit_entry) :
  value (load_all W cfg) = Ok C ->
  cfg_editing cfg = Some editing ->
  Forall (no_segment (video_assets C)) editing ->
  value (main_loop W (video_assets C) editing [] 0) = Ok ([], 0) /\
  value (main_track W (video_assets C) editing) = Ok black_background /\
  black_background = ColorClip (1920, 1080) (0, 0, 0)%Z (Some 30) /\
  duration black_background = Some 30 /\
  (forall overlays video audio fa,
     cfg_overlays cfg = Some overlays ->
     value (compose W C black_background overlays) = Ok video ->
     cfg_audio cfg = Some audio ->
     value (audio_loop (audio_assets C) audio None) = Ok fa ->
     let written := match fa with Some a => WithAudio video a | None => video end in
     render W written = None ->
     Forall (fun c => close W c = None) (loaded_clips C) ->
     value (main W (Some cfg)) = Ok written /\
     In (WriteVideofile written (path_join W (script_dir W) "output_overlays.mp4")
           24 "libx264" "aac")
        (log (main W (Some cfg)))).
Proof.
  intros HL He HF.
  pose proof (main_loop_no_segment W (video_assets C) editing HF [] 0) as HM.
  assert (HT : value (main_track W (video_assets C) editing) = Ok black_background).
  { unfold main_track. rewrite value_bind, HM. reflexivity. }
  split; [exact HM|]. split; [exact HT|]. split; [reflexivity|].
  split; [reflexivity|].
  intros overlays video audio fa Ho HC Ha HA written HR HCl.
  destruct (total_duration_no_segment (video_assets C) editing HF 0) as [t Ht].
  apply (main_run W cfg C editing t ([], 0) black_background overlays video audio fa);
    try assumption.
  reflexivity.
Qed.

Lemma placeholder_when_nothing_survives_witness :
  value (main Sample.empty_world
           (Some (Sample.plan [Sample.edit "missing" 0 5] [] []))) =
    Ok black_background.
Proof.
  destruct (placeholder_when_nothing_survives Sample.empty_world
              (Sample.plan [Sample.edit "missing" 0 5] [] [])
              Sample.no_catalogs [Sample.edit "missing" 0 5]
              eq_refl eq_refl) as (_ & _ & _ & _ & H).
  - constructor; [|constructor].
    exists "missing". split; [reflexivity | left; reflexivity].
  - destruct (H [] black_background [] None eq_refl eq_refl eq_refl eq_refl
                eq_refl ltac:(constructor)) as [V _].
    exact V.
Defined.

(** ** Animations without a duration *)

(** X23. A bounce or scroll animation that gives no [duration] is accepted
    while the plan is processed: [apply_animation] returns the layer with
    its position function and prints nothing.  The key is read only when
    the position function is called, at whatever time: every call raises
    [KeyError]. *)
Theorem animation_without_duration_fails_when_called (W : world) (clip : Clip)
    (animation : animation_cfg) (video_size : Q * Q) :
  an_duration animation = None ->
  (an_type animation = Some "bounce" \/
   an_type animation = Some "scroll" /\
   (an_direction animation = Some "left_to_right" \/
    an_direction animation = Some "right_to_left")) ->
  exists f,
    apply_animation W clip animation video_size =
      ([], Ok (WithPosition clip (PFun f))) /\
    forall t : R, call_posfun f t = Raise (KeyError "duration").
Proof.
  intros Hd [Ht | [Ht [Hdir | Hdir]]]; unfold apply_animation; rewrite Ht;
    try rewrite Hdir; eexists; (split; [reflexivity|]);
    intros t; cbn [call_posfun]; unfold bounce_pos, scroll_pos; rewrite Hd;
    reflexivity.
Qed.

Lemma animation_without_duration_fails_when_called_witness :
  exists f,
    apply_animation Sample.empty_world (TextClip (Sample.label "AB"))
      Sample.endless_bounce (1920, 1080) =
      ([], Ok (WithPosition (TextClip (Sample.label "AB")) (PFun f))) /\
    call_posfun f 0 = Raise (KeyError "duration").
Proof.
  destruct (animation_without_duration_fails_when_called Sample.empty_world
              (TextClip (Sample.label "AB")) Sample.endless_bounce (1920, 1080)
              eq_refl (or_introl eq_refl)) as (f & V & H).
  exists f. split; [exact V | exact (H 0%R)].
Defined.
